(** * CollabWish JSON API: the in-memory store and its HTTP handlers

    A shallow embedding of [Backend/src/index.js].  The store is the JS
    object [store] with its six arrays; every route handler is a function
    from the store (and the request) to the new store, the HTTP response and
    the Socket.IO events it emits.  Values drawn from the outside world
    ([uuidv4()], [nowISO()]) are arguments of the handler that draws them.

    The handlers only call [scheduleSave()], which touches neither the store
    nor the response.  Persistence is modelled apart: [saveStore] and
    [loadStore] over the two data files and the host's [JSON], and
    [scheduleSave] over the host's timers. *)

From stdpp Require Import base option relations list strings.
From Stdlib Require Import ZArith Ascii DecimalString DecimalPos DecimalZ.

Open Scope string_scope.
Open Scope list_scope.
Open Scope nat_scope.

(** ** Data model (the shapes documented next to [defaultData]) *)

Inductive Kind := LIKE | DISLIKE.
Inductive Visibility := PRIVATE | LINK | PUBLIC.

#[global] Instance Kind_eq_dec : EqDecision Kind.
Proof. solve_decision. Defined.
#[global] Instance Visibility_eq_dec : EqDecision Visibility.
Proof. solve_decision. Defined.

(** [{id, phoneNumber, name, email, profilePictureUrl, createdAt, updatedAt,
    shopListIds: []}] *)
Record User := mkUser {
  user_id : string;
  phoneNumber : string;
  user_name : string;
  email : option string;
  profilePictureUrl : option string;
  user_createdAt : string;
  user_updatedAt : string;
  shopListIds : list string
}.

(** [{id, name, price, mrp, rating, inStock, imageUrl}]; the handlers only
    ever compare [id], the other numbers are carried along.  Numbers are
    the integers. *)
Record Product := mkProduct {
  product_id : Z;
  product_name : string;
  price : Z;
  mrp : Z;
  rating : Z;
  inStock : bool;
  imageUrl : string
}.

(** [{id, name, visibility, ownerId, createdAt, updatedAt, participantIds: []}] *)
Record ShopList := mkShopList {
  list_id : string;
  list_name : string;
  visibility : Visibility;
  ownerId : string;
  createdAt : string;
  updatedAt : string;
  participantIds : list string
}.

(** [{id, productId, shopListId, addedByUserId, addedAt}] *)
Record ShopListItem := mkItem {
  item_id : string;
  productId : Z;
  shopListId : string;
  addedByUserId : string;
  addedAt : string
}.

(** [{userId, itemId, kind: "LIKE"|"DISLIKE"}] *)
Record Reaction := mkReaction {
  userId : string;
  itemId : string;
  kind : Kind
}.

(** [{id, itemId, suggestedProductId, byUserId, ts}] *)
Record Suggestion := mkSuggestion {
  sg_id : string;
  sg_itemId : string;
  suggestedProductId : Z;
  byUserId : string;
  ts : string
}.

Record Store := mkStore {
  users : list User;
  products : list Product;
  shopLists : list ShopList;
  shopListItems : list ShopListItem;
  reactions : list Reaction;
  suggestions : list Suggestion
}.

#[global] Instance User_eq_dec : EqDecision User.
Proof. solve_decision. Defined.
#[global] Instance Product_eq_dec : EqDecision Product.
Proof. solve_decision. Defined.
#[global] Instance ShopList_eq_dec : EqDecision ShopList.
Proof. solve_decision. Defined.
#[global] Instance ShopListItem_eq_dec : EqDecision ShopListItem.
Proof. solve_decision. Defined.
#[global] Instance Reaction_eq_dec : EqDecision Reaction.
Proof. solve_decision. Defined.
#[global] Instance Suggestion_eq_dec : EqDecision Suggestion.
Proof. solve_decision. Defined.
#[global] Instance Store_eq_dec : EqDecision Store.
Proof. solve_decision. Defined.

Definition defaultData : Store := mkStore [] [] [] [] [] [].

(** Functional field updates, one per assignment the handlers perform. *)
Definition set_users (us : list User) (s : Store) : Store :=
  mkStore us (products s) (shopLists s) (shopListItems s) (reactions s) (suggestions s).
Definition set_shopLists (ls : list ShopList) (s : Store) : Store :=
  mkStore (users s) (products s) ls (shopListItems s) (reactions s) (suggestions s).
Definition set_shopListItems (it : list ShopListItem) (s : Store) : Store :=
  mkStore (users s) (products s) (shopLists s) it (reactions s) (suggestions s).
Definition set_reactions (rs : list Reaction) (s : Store) : Store :=
  mkStore (users s) (products s) (shopLists s) (shopListItems s) rs (suggestions s).
Definition set_suggestions (sg : list Suggestion) (s : Store) : Store :=
  mkStore (users s) (products s) (shopLists s) (shopListItems s) (reactions s) sg.

Definition set_kind (k : Kind) (r : Reaction) : Reaction :=
  mkReaction (userId r) (itemId r) k.
Definition set_shopListIds (ids : list string) (u : User) : User :=
  mkUser (user_id u) (phoneNumber u) (user_name u) (email u)
         (profilePictureUrl u) (user_createdAt u) (user_updatedAt u) ids.
Definition set_name (n upd : string) (u : User) : User :=
  mkUser (user_id u) (phoneNumber u) n (email u)
         (profilePictureUrl u) (user_createdAt u) upd (shopListIds u).
Definition set_participantIds (ps : list string) (l : ShopList) : ShopList :=
  mkShopList (list_id l) (list_name l) (visibility l) (ownerId l)
             (createdAt l) (updatedAt l) ps.
Definition set_updatedAt (t : string) (l : ShopList) : ShopList :=
  mkShopList (list_id l) (list_name l) (visibility l) (ownerId l)
             (createdAt l) t (participantIds l).

(** ** Array helpers

    [arr.findIndex(p)] together with [arr[idx]] is stdpp's [list_find], and
    [arr.find(p)] its second projection; [arr.some(p)] is [Exists p];
    [arr.splice(i, 1)] is [delete i]; an assignment to a field of the object
    found at index [i] is [alter f i], since the array holds the object by
    reference. *)

Definition js_find {A} (P : A → Prop) `{∀ x, Decision (P x)} (l : list A) : option A :=
  snd <$> list_find P l.

(** [if (!a.includes(x)) a.push(x)] *)
Definition push_absent (x : string) (a : list string) : list string :=
  if decide (x ∈ a) then a else a ++ [x].

(** ** Responses and broadcast events *)

Inductive Status := S200 | S201 | S400 | S404.

#[global] Instance Status_eq_dec : EqDecision Status.
Proof. solve_decision. Defined.

Record Counts := mkCounts { c_items : nat; c_participants : nat }.

Record EnrichedSuggestion := mkEnrichedSuggestion {
  es_suggestion : Suggestion;
  es_product : option Product;
  es_byUser : option User
}.

Record EnrichedItem := mkEnrichedItem {
  ei_item : ShopListItem;
  ei_product : option Product;
  ei_reactions : list Reaction;
  ei_suggestions : list EnrichedSuggestion
}.

Inductive Body :=
| BError (msg : string)
| BZodError
| BOk
| BIdOnly (id : string)
| BJoined (uid lid : string)
| BLogin (u : User)
| BProducts (ps : list Product)
| BList (l : ShopList) (count : Counts)
| BLists (ls : list (ShopList * Counts))
| BItem (i : EnrichedItem)
| BItems (items : list EnrichedItem)
| BReacted (itemId : string) (likes dislikes : nat)
| BSuggested (s : EnrichedSuggestion).

(** [io.to(room).emit(event, payload)] *)
Record Emit := mkEmit { room : string; event : string; payload : Body }.

Record Response := mkResponse { status : Status; body : Body }.

(** What a handler leaves behind: the store, the events, the response. *)
Record Outcome := mkOutcome {
  out_store : Store;
  out_emits : list Emit;
  out_response : Response
}.

Definition reply (s : Store) (es : list Emit) (st : Status) (b : Body) : Outcome :=
  mkOutcome s es (mkResponse st b).

(** ** Util helpers *)

Definition listCounts (s : Store) (listId : string) : Counts :=
  mkCounts
    (length (filter (λ i, shopListId i = listId) (shopListItems s)))
    (from_option (λ l, length (participantIds l)) 0
       (js_find (λ l, list_id l = listId) (shopLists s))).

Definition enrichSuggestion (s : Store) (sg : Suggestion) : EnrichedSuggestion :=
  mkEnrichedSuggestion sg
    (js_find (λ p, product_id p = suggestedProductId sg) (products s))
    (js_find (λ u, user_id u = byUserId sg) (users s)).

Definition enrichItem (s : Store) (i : ShopListItem) : EnrichedItem :=
  mkEnrichedItem i
    (js_find (λ p, product_id p = productId i) (products s))
    (filter (λ r, itemId r = item_id i) (reactions s))
    (enrichSuggestion s <$> filter (λ sg, sg_itemId sg = item_id i) (suggestions s)).

(** ** React like/dislike: [POST /items/:itemId/react] *)

(** [z.enum(["LIKE", "DISLIKE"])] on the raw body field. *)
Definition parseKind (raw : option string) : option Kind :=
  match raw with
  | Some "LIKE" => Some LIKE
  | Some "DISLIKE" => Some DISLIKE
  | _ => None
  end.

Definition likesOf (itemId0 : string) (rs : list Reaction) : nat :=
  length (filter (λ r, itemId r = itemId0 ∧ kind r = LIKE) rs).
Definition dislikesOf (itemId0 : string) (rs : list Reaction) : nat :=
  length (filter (λ r, itemId r = itemId0 ∧ kind r = DISLIKE) rs).

(** The three-way branch on [idx] that edits [store.reactions]. *)
Definition toggle (uid iid : string) (k : Kind) (rs : list Reaction) : list Reaction :=
  match list_find (λ r, userId r = uid ∧ itemId r = iid) rs with
  | Some (idx, r) =>
      if decide (kind r = k) then delete idx rs
      else alter (set_kind k) idx rs
  | None => rs ++ [mkReaction uid iid k]
  end.

Definition react (uid iid : string) (rawKind : option string) (s : Store) : Outcome :=
  match parseKind rawKind with
  | None => reply s [] S400 BZodError
  | Some k =>
      let s' := set_reactions (toggle uid iid k (reactions s)) s in
      let likes := likesOf iid (reactions s') in
      let dislikes := dislikesOf iid (reactions s') in
      let payload := BReacted iid likes dislikes in
      let emits :=
        match js_find (λ i, item_id i = iid) (shopListItems s') with
        | Some item => [mkEmit ("list:" +:+ shopListId item) "wishlist:item_reacted" payload]
        | None => []
        end in
      reply s' emits S200 payload
  end.

(** ** Delete list: [DELETE /lists/:id] *)

Definition strip_list (id : string) (u : User) : User :=
  set_shopListIds (filter (λ lid, lid ≠ id) (shopListIds u)) u.

Definition deleteList (id : string) (s : Store) : Outcome :=
  match js_find (λ x, list_id x = id) (shopLists s) with
  | None => reply s [] S404 (BError "list not found")
  | Some _ =>
      let items := filter (λ i, shopListId i ≠ id) (shopListItems s) in
      let rs := filter (λ r, Exists (λ i, item_id i = itemId r) items) (reactions s) in
      let sgs := filter (λ sg, Exists (λ i, item_id i = sg_itemId sg) items) (suggestions s) in
      let ls := filter (λ x, list_id x ≠ id) (shopLists s) in
      let us := strip_list id <$> users s in
      reply (mkStore us (products s) ls items rs sgs)
            [mkEmit ("list:" +:+ id) "wishlist:list_deleted" (BIdOnly id)]
            S200 BOk
  end.

(** ** Auth: [POST /auth/login] *)

(** [s.length], the number of UTF-16 code units of a string.  A string
    holds the UTF-8 bytes of its text: a code point takes one code unit, or
    two when it lies above U+FFFF, which is when its first byte is 240 or
    more; the bytes 128 to 191 continue a code point. *)
Fixpoint js_length (s : string) : nat :=
  match s with
  | String c r =>
      (if (N_of_ascii c <? 128)%N then 1
       else if (N_of_ascii c <? 192)%N then 0
       else if (N_of_ascii c <? 240)%N then 1
       else 2) + js_length r
  | EmptyString => 0
  end.

(** [LoginBody]: [phoneNumber] a string of length at least 5, [name] a string
    of length at least 1 (a string has a code unit exactly when it has a
    byte).  A raw field is [None] when it is absent or not a string.  The
    signed token is left out of the body. *)
Definition parseLoginBody (rawPhone rawName : option string) : option (string * string) :=
  match rawPhone, rawName with
  | Some ph, Some n =>
      if decide ((5 ≤ js_length ph)%nat ∧ (1 ≤ String.length n)%nat) then Some (ph, n) else None
  | _, _ => None
  end.

Definition login (rawPhone rawName : option string) (uuid t1 t2 : string) (s : Store) : Outcome :=
  match parseLoginBody rawPhone rawName with
  | None => reply s [] S400 BZodError
  | Some (ph, n) =>
      match list_find (λ u, phoneNumber u = ph) (users s) with
      | None =>
          let user := mkUser uuid ph n None None t1 t2 [] in
          reply (set_users (users s ++ [user]) s) [] S200 (BLogin user)
      | Some (i, user) =>
          if decide (user_name user ≠ n)
          then reply (set_users (alter (set_name n t1) i (users s)) s) [] S200
                     (BLogin (set_name n t1 user))
          else reply s [] S200 (BLogin user)
      end
  end.

(** ** Lists for current user: [GET /lists] *)

Definition getLists (uid : string) (s : Store) : Outcome :=
  reply s [] S200
    (BLists ((λ l, (l, listCounts s (list_id l)))
               <$> filter (λ l, uid ∈ participantIds l) (shopLists s))).

(** ** Create list: [POST /lists] *)

(** [String.prototype.trim] strips white space and line terminators: TAB,
    LF, VT, FF, CR and SP, and above the ASCII range U+00A0, U+1680, U+2000
    to U+200A, U+2028, U+2029, U+202F, U+205F, U+3000 and U+FEFF.  A string
    holds the UTF-8 bytes of its text, so the latter are sequences of two
    or three bytes. *)
Definition is_space (c : ascii) : bool :=
  match nat_of_ascii c with
  | 9 | 10 | 11 | 12 | 13 | 32 => true
  | _ => false
  end.

(** U+00A0 *)
Definition is_space2 (a b : ascii) : bool :=
  (N_of_ascii a =? 194)%N && (N_of_ascii b =? 160)%N.

Definition is_space3 (a b c : ascii) : bool :=
  let '(x, y, z) := (N_of_ascii a, N_of_ascii b, N_of_ascii c) in
  (* U+1680 *)
  ((x =? 225) && (y =? 154) && (z =? 128))%N
  (* U+2000 to U+200A, U+2028, U+2029, U+202F *)
  || ((x =? 226) && (y =? 128)
      && (((128 <=? z) && (z <=? 138)) || (z =? 168) || (z =? 169) || (z =? 175)))%N
  (* U+205F *)
  || ((x =? 226) && (y =? 129) && (z =? 159))%N
  (* U+3000 *)
  || ((x =? 227) && (y =? 128) && (z =? 128))%N
  (* U+FEFF *)
  || ((x =? 239) && (y =? 187) && (z =? 191))%N.

(** The string after its first code point, when that is white space. *)
Definition skip_space (s : string) : option string :=
  match s with
  | String a r1 =>
      if is_space a then Some r1 else
      match r1 with
      | String b r2 =>
          if is_space2 a b then Some r2 else
          match r2 with
          | String c r3 => if is_space3 a b c then Some r3 else None
          | EmptyString => None
          end
      | EmptyString => None
      end
  | EmptyString => None
  end.

Fixpoint trimStart (s : string) : string :=
  match s with
  | String a r1 =>
      if is_space a then trimStart r1 else
      match r1 with
      | String b r2 =>
          if is_space2 a b then trimStart r2 else
          match r2 with
          | String c r3 => if is_space3 a b c then trimStart r3 else s
          | EmptyString => s
          end
      | EmptyString => s
      end
  | EmptyString => EmptyString
  end.

(** A string of white space only (the empty string included). *)
Fixpoint all_space (s : string) : bool :=
  match s with
  | String a r1 =>
      if is_space a then all_space r1 else
      match r1 with
      | String b r2 =>
          if is_space2 a b then all_space r2 else
          match r2 with
          | String c r3 => is_space3 a b c && all_space r3
          | EmptyString => false
          end
      | EmptyString => false
      end
  | EmptyString => true
  end.

(** What is white space from some point to the end is dropped from that
    point on. *)
Fixpoint trimEnd (s : string) : string :=
  match s with
  | String c r => if all_space s then EmptyString else String c (trimEnd r)
  | EmptyString => EmptyString
  end.

Definition trim (s : string) : string := trimEnd (trimStart s).

(** [ph.slice(-4)], the last four code units: the longest tail of at most
    four code units that begins with a code point.  (Where the cut falls
    inside a code point above U+FFFF the code keeps half of it, a lone
    surrogate, which UTF-8 text cannot hold; the tail here begins after
    it.) *)
Fixpoint slice_last4 (ph : string) : string :=
  match ph with
  | String c r =>
      if bool_decide (js_length ph ≤ 4)
         && negb ((128 <=? N_of_ascii c)%N && (N_of_ascii c <? 192)%N)
      then ph else slice_last4 r
  | EmptyString => EmptyString
  end.

(** [z.enum(["PRIVATE", "LINK", "PUBLIC"]).optional()]: the outer option is
    the validation, the inner one the absent field. *)
Definition parseVisibility (raw : option string) : option (option Visibility) :=
  match raw with
  | None => Some None
  | Some "PRIVATE" => Some (Some PRIVATE)
  | Some "LINK" => Some (Some LINK)
  | Some "PUBLIC" => Some (Some PUBLIC)
  | Some _ => None
  end.

Record CreateListBody := mkCreateListBody {
  cl_name : string;
  cl_visibility : option Visibility;
  cl_participantPhoneNumbers : option (list string)
}.

(** [CreateListBody.safeParse] on the three fields: [rawName] is [None]
    when the field is absent or not a string, [rawVisibility] and
    [rawPhones] are [None] when theirs is absent.  A [visibility] that is
    no string and [participantPhoneNumbers] that is no array of strings,
    which zod rejects as well, are not values of these types: they are met
    where the fields are read off the body, in [postLists] below. *)
Definition parseCreateListBody (rawName rawVisibility : option string)
    (rawPhones : option (list string)) : option CreateListBody :=
  match rawName, parseVisibility rawVisibility with
  | Some n, Some v =>
      if decide ((1 ≤ String.length n)%nat) then Some (mkCreateListBody n v rawPhones) else None
  | _, _ => None
  end.

(** [findOrCreateUserByPhone]: the array after the call and the index at
    which the returned user object sits. *)
Definition findOrCreateUserByPhone (phone nameFallback : string)
    (fresh : string * string * string) (us : list User) : list User * nat :=
  match list_find (λ x, phoneNumber x = phone) us with
  | Some (i, _) => (us, i)
  | None =>
      let '(uuid, t1, t2) := fresh in
      (us ++ [mkUser uuid phone nameFallback None None t1 t2 []], length us)
  end.

(** One turn of [for (const ph of phones)]: the state is [store.users],
    [list.participantIds] and [addedUserIds]; [fresh k] is what [uuidv4()]
    and the two [nowISO()] would return in turn [k]. *)
Definition addPhone (lid : string) (fresh : nat → string * string * string)
    (st : list User * list string * list string) (kph : nat * string)
    : list User * list string * list string :=
  let '(us, parts, added) := st in
  let '(k, ph) := kph in
  let '(us1, i) := findOrCreateUserByPhone ph ("User " +:+ slice_last4 ph) (fresh k) us in
  match us1 !! i with
  | Some u =>
      (alter (λ u, set_shopListIds (push_absent lid (shopListIds u)) u) i us1,
       push_absent (user_id u) parts,
       added ++ [user_id u])
  | None => st
  end.

Definition createList (owner : string) (rawName rawVisibility : option string)
    (rawPhones : option (list string)) (uuid t1 t2 : string)
    (fresh : nat → string * string * string) (s : Store) : Outcome :=
  match parseCreateListBody rawName rawVisibility rawPhones with
  | None => reply s [] S400 BZodError
  | Some b =>
      let name := trim (cl_name b) in
      let vis := default LINK (cl_visibility b) in
      let parts0 := push_absent owner [] in
      let us0 :=
        match list_find (λ u, user_id u = owner) (users s) with
        | Some (i, me) =>
            alter (λ u, set_shopListIds (push_absent uuid (shopListIds u)) u) i (users s)
        | None => users s
        end in
      let phones := default [] (cl_participantPhoneNumbers b) in
      let '(us1, parts1, addedUserIds) :=
        foldl (addPhone uuid fresh) (us0, parts0, []) (imap pair phones) in
      let list := mkShopList uuid name vis owner t1 t2 parts1 in
      let s' := set_shopLists (list :: shopLists s) (set_users us1 s) in
      let payload := BList list (listCounts s' uuid) in
      reply s'
        (mkEmit ("user:" +:+ owner) "wishlist:list_created" payload
           :: ((λ uid, mkEmit ("user:" +:+ uid) "wishlist:list_created" payload)
                 <$> addedUserIds))
        S201 payload
  end.

(** ** Join list: [POST /lists/:id/join] *)

Definition joinList (listId uid now : string) (s : Store) : Outcome :=
  match list_find (λ l, list_id l = listId) (shopLists s) with
  | None => reply s [] S404 (BError "list not found")
  | Some (i, l) =>
      let l' := set_updatedAt now (set_participantIds (push_absent uid (participantIds l)) l) in
      let us :=
        match list_find (λ x, user_id x = uid) (users s) with
        | Some (j, u) =>
            alter (λ u, set_shopListIds (push_absent listId (shopListIds u)) u) j (users s)
        | None => users s
        end in
      let s' := set_shopLists (<[i := l']> (shopLists s)) (set_users us s) in
      reply s'
        [mkEmit ("list:" +:+ listId) "wishlist:participant_joined" (BJoined uid listId)]
        S200 (BList l' (listCounts s' (list_id l')))
  end.

(** ** Add item: [POST /lists/:id/items]

    [rawProductId] is [Number(req.body?.productId)], [None] standing for NaN. *)

Definition addItem (listId uid : string) (rawProductId : option Z) (uuid now : string)
    (s : Store) : Outcome :=
  match rawProductId with
  | None | Some 0%Z => reply s [] S400 (BError "productId required")
  | Some pid =>
      match js_find (λ p, product_id p = pid) (products s) with
      | None => reply s [] S404 (BError "product not found")
      | Some _ =>
          let item := mkItem uuid pid listId uid now in
          let s' := set_shopListItems (item :: shopListItems s) s in
          let payload := BItem (enrichItem s' item) in
          reply s' [mkEmit ("list:" +:+ listId) "wishlist:item_added" payload] S201 payload
      end
  end.

(** ** Remove item: [DELETE /items/:itemId] *)

Definition removeItem (id : string) (s : Store) : Outcome :=
  match js_find (λ i, item_id i = id) (shopListItems s) with
  | None => reply s [] S404 (BError "item not found")
  | Some item =>
      reply (mkStore (users s) (products s) (shopLists s)
               (filter (λ i, item_id i ≠ id) (shopListItems s))
               (filter (λ r, itemId r ≠ id) (reactions s))
               (filter (λ sg, sg_itemId sg ≠ id) (suggestions s)))
            [mkEmit ("list:" +:+ shopListId item) "wishlist:item_removed" (BIdOnly id)]
            S200 BOk
  end.

(** ** Suggest alternative: [POST /items/:itemId/suggest]

    [rawProductId] is [None] when the body fails [z.object({productId:
    z.number()})]. *)

Definition suggest (iid uid : string) (rawProductId : option Z) (uuid now : string)
    (s : Store) : Outcome :=
  match rawProductId with
  | None => reply s [] S400 BZodError
  | Some pid =>
      match js_find (λ p, product_id p = pid) (products s) with
      | None => reply s [] S404 (BError "product not found")
      | Some _ =>
          let sg := mkSuggestion uuid iid pid uid now in
          let s' := set_suggestions (suggestions s ++ [sg]) s in
          let payload := BSuggested (enrichSuggestion s' sg) in
          let emits :=
            match js_find (λ i, item_id i = iid) (shopListItems s') with
            | Some item =>
                [mkEmit ("list:" +:+ shopListId item) "wishlist:item_suggested" payload]
            | None => []
            end in
          reply s' emits S201 payload
      end
  end.

(** ** Items in a list: [GET /lists/:id/items]

    [Array.prototype.sort] belongs to the host.  The comparator of this route
    never answers 0, so for equal time stamps the order is whatever the host
    does; all the handlers rely on is that sorting rearranges the array. *)

Class ArraySort := {
  array_sort : ∀ {A : Type}, (A → A → Z) → list A → list A;
  array_sort_perm : ∀ (A : Type) (cmp : A → A → Z) (l : list A), array_sort cmp l ≡ₚ l
}.

(** [(a, b) => (a.addedAt < b.addedAt ? 1 : -1)] *)
Definition byAddedAtDesc (a b : ShopListItem) : Z :=
  if String.ltb (addedAt a) (addedAt b) then 1%Z else (-1)%Z.

Definition getItems `{ArraySort} (listId : string) (s : Store) : Outcome :=
  reply s [] S200
    (BItems (enrichItem s
               <$> array_sort byAddedAtDesc
                     (filter (λ i, shopListId i = listId) (shopListItems s)))).

(** One sort to run the route with: insertion from the right, an element
    going in front of the first one it does not compare above.  It stands
    for no host in particular: the comparator above never answers 0, so
    items with the same [addedAt] come out in an order that is the host's
    business (this insertion keeps them as they were, which Node need not
    do), and nothing below is proved of this instance that is not proved of
    every [ArraySort]. *)
Fixpoint insert_by {A} (cmp : A → A → Z) (x : A) (l : list A) : list A :=
  match l with
  | [] => [x]
  | y :: l' => if (cmp x y <=? 0)%Z then x :: l else y :: insert_by cmp x l'
  end.

Definition insertion_sort {A} (cmp : A → A → Z) (l : list A) : list A :=
  foldr (insert_by cmp) [] l.

#[global] Instance insertion_ArraySort : ArraySort.
Proof.
  refine {| array_sort := @insertion_sort |}.
  intros A cmp l. induction l as [|x l IH]; simpl; [done|].
  transitivity (x :: insertion_sort cmp l); [|by constructor].
  generalize (insertion_sort cmp l). clear. intros l.
  induction l as [|y l IH]; simpl; [done|].
  destruct (cmp x y <=? 0)%Z; [done|].
  rewrite IH. apply Permutation_swap.
Defined.

(** ** The mutating requests and the states they reach *)

Inductive Op :=
| OpLogin (rawPhone rawName : option string) (uuid t1 t2 : string)
| OpCreateList (owner : string) (rawName rawVisibility : option string)
    (rawPhones : option (list string)) (uuid t1 t2 : string)
    (fresh : nat → string * string * string)
| OpDeleteList (id : string)
| OpJoinList (listId uid now : string)
| OpAddItem (listId uid : string) (rawProductId : option Z) (uuid now : string)
| OpRemoveItem (id : string)
| OpReact (uid iid : string) (rawKind : option string)
| OpSuggest (iid uid : string) (rawProductId : option Z) (uuid now : string).

Definition run (op : Op) (s : Store) : Outcome :=
  match op with
  | OpLogin ph n uuid t1 t2 => login ph n uuid t1 t2 s
  | OpCreateList o n v phs uuid t1 t2 fresh => createList o n v phs uuid t1 t2 fresh s
  | OpDeleteList id => deleteList id s
  | OpJoinList l u now => joinList l u now s
  | OpAddItem l u p uuid now => addItem l u p uuid now s
  | OpRemoveItem id => removeItem id s
  | OpReact u i k => react u i k s
  | OpSuggest i u p uuid now => suggest i u p uuid now s
  end.

Definition exec (s : Store) (ops : list Op) : Store :=
  foldl (λ s op, out_store (run op s)) s ops.

Inductive reachable (s0 : Store) : Store → Prop :=
| reach_here : reachable s0 s0
| reach_step s op : reachable s0 s → reachable s0 (out_store (run op s)).

(** ** The invariants of the data model *)

(** The reactions of user [uid] on item [iid]. *)
Definition reactionsBy (uid iid : string) (rs : list Reaction) : list Reaction :=
  filter (λ r, userId r = uid ∧ itemId r = iid) rs.

Definition uniqueReactions (s : Store) : Prop :=
  ∀ uid iid, length (reactionsBy uid iid (reactions s)) ≤ 1.

Definition listExists (s : Store) (id : string) : Prop :=
  Exists (λ l, list_id l = id) (shopLists s).
Definition itemExists (s : Store) (id : string) : Prop :=
  Exists (λ i, item_id i = id) (shopListItems s).

Definition noOrphans (s : Store) : Prop :=
  Forall (λ i, listExists s (shopListId i)) (shopListItems s)
  ∧ Forall (λ r, itemExists s (itemId r)) (reactions s)
  ∧ Forall (λ sg, itemExists s (sg_itemId sg)) (suggestions s).

#[global] Instance noOrphans_dec s : Decision (noOrphans s).
Proof. unfold noOrphans, listExists, itemExists. apply _. Defined.

(** The list or item a creating request refers to is there. *)
Definition targetsExist (op : Op) (s : Store) : Prop :=
  match op with
  | OpAddItem listId _ _ _ _ => listExists s listId
  | OpReact _ iid _ => itemExists s iid
  | OpSuggest iid _ _ _ _ => itemExists s iid
  | _ => True
  end.

(** The states reached when every creating request names an existing
    list or item. *)
Inductive reachable_checked (s0 : Store) : Store → Prop :=
| reach_checked_here : reachable_checked s0 s0
| reach_checked_step s op :
    reachable_checked s0 s → targetsExist op s →
    reachable_checked s0 (out_store (run op s)).

Definition kindName (k : Kind) : string :=
  match k with LIKE => "LIKE" | DISLIKE => "DISLIKE" end.

Definition participantsOf (listId : string) (s : Store) : option (list string) :=
  participantIds <$> js_find (λ l, list_id l = listId) (shopLists s).
Definition membershipOf (uid : string) (s : Store) : option (list string) :=
  shopListIds <$> js_find (λ u, user_id u = uid) (users s).

(** ** Relations the properties are stated with *)

(** What deleting list [id] does to one user: every field but the
    membership set is kept, and the membership set loses [id] only. *)
Definition loses_list (id : string) (u u' : User) : Prop :=
  user_id u' = user_id u ∧ phoneNumber u' = phoneNumber u
  ∧ user_name u' = user_name u ∧ email u' = email u
  ∧ profilePictureUrl u' = profilePictureUrl u
  ∧ user_createdAt u' = user_createdAt u ∧ user_updatedAt u' = user_updatedAt u
  ∧ shopListIds u' = filter (λ lid, lid ≠ id) (shopListIds u).

(** The user's membership after [if (u && !u.shopListIds.includes(listId))
    u.shopListIds.push(listId)]. *)
Definition joinUsers (listId uid : string) (us : list User) : list User :=
  match list_find (λ x, user_id x = uid) us with
  | Some (j, u) => alter (λ u, set_shopListIds (push_absent listId (shopListIds u)) u) j us
  | None => us
  end.

(** ** CORS: [originChecker] *)

Definition DEFAULTS : list string :=
  ["http://localhost:5173"; "http://localhost:5174";
   "http://127.0.0.1:5173"; "http://127.0.0.1:5174";
   "http://localhost:3000"; "http://127.0.0.1:3000"].

(** [s.split(",")]: the pieces between the commas, the empty ones included. *)
Fixpoint split_comma (s : string) : list string :=
  match s with
  | EmptyString => [EmptyString]
  | String c r =>
      if Ascii.eqb c "," then EmptyString :: split_comma r
      else match split_comma r with
           | h :: t => String c h :: t
           | [] => [String c EmptyString]
           end
  end.

(** [(process.env.CORS_ORIGINS || "").split(",").map(s => s.trim())
    .filter(Boolean)]; [None] is the unset variable. *)
Definition ENV_LIST (env : option string) : list string :=
  filter (λ e, e ≠ "") (trim <$> split_comma (default "" env)).

(** [new Set([...DEFAULTS, ...ENV_LIST])], used through [has] only. *)
Definition ALLOW (env : option string) : list string := DEFAULTS ++ ENV_LIST env.

(** [s.startsWith(p)] and [s.slice(n)] for [n] within the string or past it. *)
Fixpoint startsWith (p s : string) : bool :=
  match p, s with
  | EmptyString, _ => true
  | String a p', String b s' => Ascii.eqb a b && startsWith p' s'
  | String _ _, EmptyString => false
  end.

Fixpoint slice_from (n : nat) (s : string) : string :=
  match n, s with
  | 0, _ => s
  | S n', String _ r => slice_from n' r
  | S _, EmptyString => EmptyString
  end.

Definition is_digit (c : ascii) : bool :=
  (48 <=? nat_of_ascii c) && (nat_of_ascii c <=? 57).

Fixpoint all_digits (s : string) : bool :=
  match s with
  | String c r => is_digit c && all_digits r
  | EmptyString => true
  end.

(** [:\d+$]: a colon, then digits to the end, at least one. *)
Definition port_suffix (s : string) : bool :=
  match s with
  | String ":" d => match d with EmptyString => false | _ => all_digits d end
  | _ => false
  end.

(** [/^http:\/\/(localhost|127\.0\.0\.1):\d+$/.test(s)]; the two host
    names share no first character, so the alternation needs no second try. *)
Definition LOCALHOST_REGEX_test (s : string) : bool :=
  startsWith "http://" s
  && ((startsWith "localhost" (slice_from 7 s) && port_suffix (slice_from 16 s))
      || (startsWith "127.0.0.1" (slice_from 7 s) && port_suffix (slice_from 16 s))).

(** What [originChecker] hands to its callback: [cb(null, true)] or
    [cb(new Error("Not allowed by CORS"))]. *)
Inductive CorsDecision := CorsAllowed | CorsError (msg : string).

Definition originChecker (env : option string) (origin : option string) : CorsDecision :=
  match origin with
  | None | Some EmptyString => CorsAllowed
  | Some o =>
      if bool_decide (o ∈ ALLOW env) || LOCALHOST_REGEX_test o then CorsAllowed
      else CorsError "Not allowed by CORS"
  end.

(** ** The [auth] middleware

    [jwt.verify(token, JWT_SECRET)] is the library's: [verify] gives the
    [uid] of the decoded payload, [None] when the library throws. *)

Inductive AuthOutcome := AuthNext (userId : string) | Auth401 (error : string).

(** [hdr.startsWith("Bearer ") ? hdr.slice(7) : null] *)
Definition bearerToken (hdr : string) : option string :=
  if startsWith "Bearer " hdr then Some (slice_from 7 hdr) else None.

Definition auth (verify : string → option string) (authorization : option string)
    : AuthOutcome :=
  let hdr := default "" authorization in
  match bearerToken hdr with
  | None | Some EmptyString => Auth401 "No token"
  | Some token =>
      match verify token with
      | Some uid => AuthNext uid
      | None => Auth401 "Invalid token"
      end
  end.

(** ** Socket.IO: the connection middleware and the room events

    The rooms of a socket are a [Set]: [join] adds a room that is not there,
    [leave] deletes it.  Only the rooms this file puts a socket in are
    tracked. *)

Record Handshake := mkHandshake {
  hs_authToken : option string;
  hs_authorization : option string
}.

(** [socket.handshake.auth?.token || (bearer.startsWith("Bearer ") ?
    bearer.slice(7) : undefined)] *)
Definition socketToken (h : Handshake) : option string :=
  match hs_authToken h with
  | Some (String c t) => Some (String c t)
  | _ => bearerToken (default "" (hs_authorization h))
  end.

Definition join (room : string) (rooms : list string) : list string :=
  push_absent room rooms.
Definition leave (room : string) (rooms : list string) : list string :=
  filter (λ r, r ≠ room) rooms.

Inductive ConnectOutcome :=
| Connected (userId : string) (rooms : list string)
| ConnectError (msg : string).

(** [io.use((socket, next) => ...)] *)
Definition connect (verify : string → option string) (h : Handshake) (s : Store)
    : ConnectOutcome :=
  match socketToken h with
  | None | Some EmptyString => ConnectError "no token"
  | Some token =>
      match verify token with
      | None => ConnectError "auth failed"
      | Some uid =>
          let myLists := filter (λ l, uid ∈ participantIds l) (shopLists s) in
          Connected uid
            (foldl (λ rooms l, join ("list:" +:+ list_id l) rooms)
               (join ("user:" +:+ uid) []) myLists)
      end
  end.

(** [socket.on("join_list", ...)] and [socket.on("leave_list", ...)] *)
Inductive SocketEvent := JoinListEv (listId : string) | LeaveListEv (listId : string).

Definition onSocketEvent (rooms : list string) (ev : SocketEvent) : list string :=
  match ev with
  | JoinListEv listId => join ("list:" +:+ listId) rooms
  | LeaveListEv listId => leave ("list:" +:+ listId) rooms
  end.

(** [socket.emit("joined_list", { listId })] *)
Definition socketAck (ev : SocketEvent) : option string :=
  match ev with
  | JoinListEv listId => Some listId
  | LeaveListEv _ => None
  end.

(** [io.to(room).emit(...)] reaches the sockets that are in the room. *)
Definition receives (rooms : list string) (e : Emit) : Prop := room e ∈ rooms.

(** Whether a socket is subscribed to list [L], told from the events
    alone: the last join or leave for [L] decides, [init] if there is none. *)
Definition subscribed (L : string) (init : bool) (evs : list SocketEvent) : bool :=
  foldl (λ b ev, match ev with
                 | JoinListEv x => if decide (x = L) then true else b
                 | LeaveListEv x => if decide (x = L) then false else b
                 end) init evs.

(** ** Persistence: [saveStore] and [loadStore]

    The store is written to [data/store.json] as
    [JSON.stringify(store, null, 2)] and read back with [JSON.parse].  Both
    belong to the host; they are modelled here after ECMA-262
    ([SerializeJSONProperty], [QuoteJSONString], the JSON grammar), on the
    values a store is made of: [null], booleans, numbers, strings, arrays
    and objects.  Numbers are the integers, as in the data model above, and
    are written as their decimal numeral; an object is the list of its
    properties in the order [Object.keys] enumerates them.  A string holds
    the UTF-8 bytes of its text, which is also how the file holds it. *)

Unset Elimination Schemes.
Inductive JSON :=
| JNull
| JBool (b : bool)
| JNumber (n : Z)
| JString (s : string)
| JArray (elements : list JSON)
| JObject (members : list (string * JSON)).
Set Elimination Schemes.

(** *** [JSON.stringify(value, null, 2)] *)

Definition LF : ascii := "010".
Definition QUOTE : ascii := "034".
Definition BACKSLASH : ascii := "092".

(** A lower case hexadecimal digit. *)
Definition hex_digit (n : N) : ascii :=
  if (n <? 10)%N then ascii_of_N (48 + n) else ascii_of_N (87 + n).

(** [QuoteJSONString]: the quote, the backslash and the control characters
    are escaped, the five with a short escape by it, the others as [\u00XX];
    everything else is copied. *)
Definition quote_char (c : ascii) : string :=
  if Ascii.eqb c QUOTE then String BACKSLASH (String QUOTE "")
  else if Ascii.eqb c BACKSLASH then String BACKSLASH (String BACKSLASH "")
  else if Ascii.eqb c "008" then String BACKSLASH "b"
  else if Ascii.eqb c "009" then String BACKSLASH "t"
  else if Ascii.eqb c "010" then String BACKSLASH "n"
  else if Ascii.eqb c "012" then String BACKSLASH "f"
  else if Ascii.eqb c "013" then String BACKSLASH "r"
  else if (N_of_ascii c <? 32)%N
  then String BACKSLASH ("u00" +:+ String (hex_digit (N_of_ascii c / 16))
                                   (String (hex_digit (N_of_ascii c mod 16)) ""))
  else String c "".

Fixpoint quote_chars (s : string) : string :=
  match s with
  | String c r => quote_char c +:+ quote_chars r
  | EmptyString => EmptyString
  end.

Definition QuoteJSONString (s : string) : string :=
  String QUOTE (quote_chars s +:+ String QUOTE "").

(** [Number::toString] of an integer: its decimal numeral (the host turns
    to an exponent from [10^21] on, far above the integers that a Number
    holds exactly, and these are the ones a store holds). *)
Definition Number_toString (n : Z) : string := NilZero.string_of_int (Z.to_int n).

(** The strings of [l], each adjacent pair separated by [sep]. *)
Fixpoint join_with (sep : string) (l : list string) : string :=
  match l with
  | [] => ""
  | [x] => x
  | x :: l' => x +:+ sep +:+ join_with sep l'
  end.

(** The third argument [2] makes the gap two spaces. *)
Definition gap : string := "  ".

(** [SerializeJSONProperty] with [SerializeJSONArray] and
    [SerializeJSONObject]: an empty array or object is written without line
    breaks, any other one with every element or member on a line of its
    own, indented by one gap more than the brackets. *)
Fixpoint SerializeJSONProperty (indent : string) (value : JSON) : string :=
  let stepback := indent in
  let indent := indent +:+ gap in
  let separator := String "," (String LF indent) in
  let wrap (opening closing : string) (partial : list string) :=
    match partial with
    | [] => opening +:+ closing
    | _ => opening +:+ String LF indent +:+ join_with separator partial
           +:+ String LF stepback +:+ closing
    end in
  match value with
  | JNull => "null"
  | JBool b => if b then "true" else "false"
  | JNumber n => Number_toString n
  | JString s => QuoteJSONString s
  | JArray elements => wrap "[" "]" (map (SerializeJSONProperty indent) elements)
  | JObject members =>
      wrap "{" "}"
        (map (λ kv, let '(k, v) := kv in
                    QuoteJSONString k +:+ ": " +:+ SerializeJSONProperty indent v)
           members)
  end.

Definition JSON_stringify (value : JSON) : string := SerializeJSONProperty "" value.


(** *** [JSON.parse(text)]

    [JSON.parse] returns a value or throws a [SyntaxError].  Where the text
    comes to something there is no value for here (a numeral that goes on
    with a fraction or an exponent, a negative zero, a surrogate escape that
    is not part of a pair, an object key that is an array index and so is
    enumerated out of turn), there is no answer, be the rest of the text
    well formed or not. *)

Inductive Result (A : Type) :=
| Value (a : A)
| Throw
| Unmodelled.
Arguments Value {A} a.
Arguments Throw {A}.
Arguments Unmodelled {A}.

#[global] Instance Result_bind : MBind Result := λ A B f r,
  match r with
  | Value a => f a
  | Throw => Throw
  | Unmodelled => Unmodelled
  end.

(** The white space of the JSON grammar: space, tab, line feed and carriage
    return. *)
Definition is_json_ws (c : ascii) : bool :=
  Ascii.eqb c " " || Ascii.eqb c "009" || Ascii.eqb c "010" || Ascii.eqb c "013".

Fixpoint skip_ws (s : string) : string :=
  match s with
  | String c r => if is_json_ws c then skip_ws r else s
  | EmptyString => EmptyString
  end.

(** The text after the character [c], when the text begins with it. *)
Definition expect (c : ascii) (s : string) : option string :=
  match s with
  | String a r => if Ascii.eqb a c then Some r else None
  | EmptyString => None
  end.

Definition hex_value (c : ascii) : option N :=
  let n := N_of_ascii c in
  if (48 <=? n)%N && (n <=? 57)%N then Some (n - 48)%N
  else if (97 <=? n)%N && (n <=? 102)%N then Some (n - 87)%N
  else if (65 <=? n)%N && (n <=? 70)%N then Some (n - 55)%N
  else None.

Definition hex4 (a b c d : ascii) : option N :=
  match hex_value a, hex_value b, hex_value c, hex_value d with
  | Some x, Some y, Some z, Some w => Some (((x * 16 + y) * 16 + z) * 16 + w)%N
  | _, _, _, _ => None
  end.

(** The UTF-8 bytes of a code point. *)
Definition utf8_encode (cp : N) : string :=
  if (cp <? 128)%N then String (ascii_of_N cp) ""
  else if (cp <? 2048)%N
  then String (ascii_of_N (192 + cp / 64)) (String (ascii_of_N (128 + cp mod 64)) "")
  else if (cp <? 65536)%N
  then String (ascii_of_N (224 + cp / 4096))
         (String (ascii_of_N (128 + (cp / 64) mod 64))
            (String (ascii_of_N (128 + cp mod 64)) ""))
  else String (ascii_of_N (240 + cp / 262144))
         (String (ascii_of_N (128 + (cp / 4096) mod 64))
            (String (ascii_of_N (128 + (cp / 64) mod 64))
               (String (ascii_of_N (128 + cp mod 64)) ""))).

(** The character a one-letter escape stands for. *)
Definition unescape (e : ascii) : option ascii :=
  if Ascii.eqb e QUOTE then Some QUOTE
  else if Ascii.eqb e BACKSLASH then Some BACKSLASH
  else if Ascii.eqb e "/" then Some "/"%char
  else if Ascii.eqb e "b" then Some "008"%char
  else if Ascii.eqb e "f" then Some "012"%char
  else if Ascii.eqb e "n" then Some "010"%char
  else if Ascii.eqb e "r" then Some "013"%char
  else if Ascii.eqb e "t" then Some "009"%char
  else None.

Definition is_high_surrogate (u : N) : bool := (55296 <=? u)%N && (u <? 56320)%N.
Definition is_low_surrogate (u : N) : bool := (56320 <=? u)%N && (u <? 57344)%N.

(** The characters of a string literal after its opening quote, up to the
    closing one. *)
Fixpoint parse_chars (s : string) : Result (string * string) :=
  match s with
  | EmptyString => Throw
  | String c r =>
      if Ascii.eqb c QUOTE then Value (EmptyString, r)
      else if Ascii.eqb c BACKSLASH then
        match r with
        | EmptyString => Throw
        | String e r1 =>
            if Ascii.eqb e "u" then
              match r1 with
              | String h1 (String h2 (String h3 (String h4 r2))) =>
                  match hex4 h1 h2 h3 h4 with
                  | None => Throw
                  | Some u =>
                      if is_low_surrogate u then Unmodelled
                      else if is_high_surrogate u then
                        match r2 with
                        | String b (String e' (String l1 (String l2 (String l3 (String l4 r3))))) =>
                            match (if Ascii.eqb b BACKSLASH && Ascii.eqb e' "u"
                                   then hex4 l1 l2 l3 l4 else None) with
                            | Some lo =>
                                if is_low_surrogate lo then
                                  '(str, rest) ← parse_chars r3;
                                  Value (utf8_encode (65536 + (u - 55296) * 1024 + (lo - 56320))
                                           +:+ str, rest)
                                else Unmodelled
                            | None => Unmodelled
                            end
                        | _ => Unmodelled
                        end
                      else
                        '(str, rest) ← parse_chars r2;
                        Value (utf8_encode u +:+ str, rest)
                  end
              | _ => Throw
              end
            else
              match unescape e with
              | Some c' => '(str, rest) ← parse_chars r1; Value (String c' str, rest)
              | None => Throw
              end
        end
      else if (N_of_ascii c <? 32)%N then Throw
      else '(str, rest) ← parse_chars r; Value (String c str, rest)
  end.

(** Numerals are read with the digits of the Standard Library's
    [Decimal.uint]. *)
Definition digit_of_char (c : ascii) : option (Decimal.uint → Decimal.uint) :=
  match (N_of_ascii c - 48)%N, (48 <=? N_of_ascii c)%N with
  | 0%N, true => Some Decimal.D0
  | 1%N, _ => Some Decimal.D1
  | 2%N, _ => Some Decimal.D2
  | 3%N, _ => Some Decimal.D3
  | 4%N, _ => Some Decimal.D4
  | 5%N, _ => Some Decimal.D5
  | 6%N, _ => Some Decimal.D6
  | 7%N, _ => Some Decimal.D7
  | 8%N, _ => Some Decimal.D8
  | 9%N, _ => Some Decimal.D9
  | _, _ => None
  end.

Fixpoint read_digits (s : string) : Decimal.uint * string :=
  match s with
  | String c r =>
      match digit_of_char c with
      | Some d => let '(u, rest) := read_digits r in (d u, rest)
      | None => (Decimal.Nil, s)
      end
  | EmptyString => (Decimal.Nil, EmptyString)
  end.

(** Whether the text goes on with a fraction or an exponent. *)
Definition fraction_or_exponent (s : string) : bool :=
  match s with
  | String c _ => Ascii.eqb c "." || Ascii.eqb c "e" || Ascii.eqb c "E"
  | EmptyString => false
  end.

(** The number a numeral denotes, its digits being [u] and the text going
    on with [rest]: there must be a digit, and no zero in front of another
    digit. *)
Definition numeral (negative : bool) (u : Decimal.uint) (rest : string)
    : Result (Z * string) :=
  match u with
  | Decimal.Nil => Throw
  | Decimal.D0 (Decimal.D0 _ | Decimal.D1 _ | Decimal.D2 _ | Decimal.D3 _ | Decimal.D4 _
               | Decimal.D5 _ | Decimal.D6 _ | Decimal.D7 _ | Decimal.D8 _ | Decimal.D9 _) =>
      Throw
  | _ =>
      if fraction_or_exponent rest then Unmodelled
      else if negative
      then (if decide (Z.of_uint u = 0%Z) then Unmodelled else Value ((- Z.of_uint u)%Z, rest))
      else Value (Z.of_uint u, rest)
  end.

Definition parse_number (s : string) : Result (Z * string) :=
  match expect "-" s with
  | Some s1 => let '(u, rest) := read_digits s1 in numeral true u rest
  | None => let '(u, rest) := read_digits s in numeral false u rest
  end.

(** An object key that is an array index: the decimal numeral of an integer
    below [2^32 - 1]. *)
Definition is_array_index (k : string) : bool :=
  match read_digits k with
  | (u, EmptyString) =>
      bool_decide (NilZero.string_of_uint (N.to_uint (N.of_uint u)) = k)
      && (N.of_uint u <? 4294967295)%N
  | _ => false
  end.

(** [CreateDataProperty(object, key, value)] on an object without array
    index keys: an existing key keeps its place and takes the value, a new
    one goes last. *)
Fixpoint obj_set (k : string) (v : JSON) (obj : list (string * JSON))
    : list (string * JSON) :=
  match obj with
  | [] => [(k, v)]
  | (k', v') :: obj' => if decide (k' = k) then (k, v) :: obj' else (k', v') :: obj_set k v obj'
  end.

(** A value, the elements of an array after its bracket, the members of
    an object after its brace; each returns what it has read and the text
    that follows.  The recursion is on [fuel], which [JSON_parse] sets to
    more than the length of the text; where it runs out there is no answer
    either. *)
Fixpoint parse_value (fuel : nat) (s : string) : Result (JSON * string) :=
  match fuel with
  | 0 => Unmodelled
  | S fuel =>
      match skip_ws s with
      | EmptyString => Throw
      | String c r as t =>
          if Ascii.eqb c "[" then
            match expect "]" (skip_ws r) with
            | Some rest => Value (JArray [], rest)
            | None => '(l, rest) ← parse_elements fuel r; Value (JArray l, rest)
            end
          else if Ascii.eqb c "{" then
            match expect "}" (skip_ws r) with
            | Some rest => Value (JObject [], rest)
            | None => '(m, rest) ← parse_members fuel r []; Value (JObject m, rest)
            end
          else if Ascii.eqb c QUOTE then
            '(str, rest) ← parse_chars r; Value (JString str, rest)
          else if startsWith "null" t then Value (JNull, slice_from 4 t)
          else if startsWith "true" t then Value (JBool true, slice_from 4 t)
          else if startsWith "false" t then Value (JBool false, slice_from 5 t)
          else '(n, rest) ← parse_number t; Value (JNumber n, rest)
      end
  end
with parse_elements (fuel : nat) (s : string) : Result (list JSON * string) :=
  match fuel with
  | 0 => Unmodelled
  | S fuel =>
      '(v, rest) ← parse_value fuel s;
      match skip_ws rest with
      | String c r =>
          if Ascii.eqb c "," then '(l, rest') ← parse_elements fuel r; Value (v :: l, rest')
          else if Ascii.eqb c "]" then Value ([v], r)
          else Throw
      | EmptyString => Throw
      end
  end
with parse_members (fuel : nat) (s : string) (obj : list (string * JSON))
    : Result (list (string * JSON) * string) :=
  match fuel with
  | 0 => Unmodelled
  | S fuel =>
      match expect QUOTE (skip_ws s) with
      | None => Throw
      | Some r =>
          '(k, rest) ← parse_chars r;
          match expect ":" (skip_ws rest) with
          | None => Throw
          | Some r1 =>
              '(v, rest1) ← parse_value fuel r1;
              if is_array_index k then Unmodelled
              else
                let obj' := obj_set k v obj in
                match skip_ws rest1 with
                | String c r2 =>
                    if Ascii.eqb c "," then parse_members fuel r2 obj'
                    else if Ascii.eqb c "}" then Value (obj', r2)
                    else Throw
                | EmptyString => Throw
                end
          end
      end
  end.

(** A value, and nothing but white space after it. *)
Definition JSON_parse (text : string) : Result JSON :=
  '(v, rest) ← parse_value (S (String.length text)) text;
  match skip_ws rest with
  | EmptyString => Value v
  | String _ _ => Throw
  end.


(** *** The files and the two functions

    [DATA_PATH] and [SEED_PATH], each one absent or holding a text.  Reading
    an absent file throws, as [JSON.parse] does on a text that is not JSON;
    writing is taken to succeed ([mkdir] has made the directory). *)

Record Files := mkFiles {
  store_json : option string;
  seed_json : option string
}.

(** [JSON.parse(await fs.readFile(path, "utf8"))] *)
Definition readJSON (file : option string) : Result JSON :=
  match file with
  | Some text => JSON_parse text
  | None => Throw
  end.

(** [await fs.writeFile(DATA_PATH, JSON.stringify(store, null, 2))] *)
Definition saveStore (store : JSON) (fs : Files) : Files :=
  mkFiles (Some (JSON_stringify store)) (seed_json fs).

(** The value of the constant [defaultData]. *)
Definition defaultData_JS : JSON :=
  JObject [("users", JArray []); ("products", JArray []); ("shopLists", JArray []);
           ("shopListItems", JArray []); ("reactions", JArray []);
           ("suggestions", JArray [])].

(** [loadStore]: the parsed [store.json]; failing that, the parsed
    [seed.json] or else [defaultData], written to [store.json] first.  The
    result is the loaded value and the files as they are left, or [None]
    where the model of [JSON.parse] gives no answer. *)
Definition loadStore (fs : Files) : option (JSON * Files) :=
  match readJSON (store_json fs) with
  | Value v => Some (v, fs)
  | Unmodelled => None
  | Throw =>
      match readJSON (seed_json fs) with
      | Value seed => Some (seed, saveStore seed fs)
      | Throw => Some (defaultData_JS, saveStore defaultData_JS fs)
      | Unmodelled => None
      end
  end.

(** *** The store as the JS value it is

    The objects the handlers build, with their keys in the order of the
    object literals (for a product, of the comment next to [defaultData]);
    [email] and [profilePictureUrl] are [null] or a string. *)

Definition JS_nullable (o : option string) : JSON :=
  match o with
  | Some s => JString s
  | None => JNull
  end.

Definition JS_strings (l : list string) : JSON := JArray (JString <$> l).

Definition visibilityName (v : Visibility) : string :=
  match v with
  | PRIVATE => "PRIVATE"
  | LINK => "LINK"
  | PUBLIC => "PUBLIC"
  end.

Definition User_toJS (u : User) : JSON :=
  JObject [("id", JString (user_id u)); ("phoneNumber", JString (phoneNumber u));
           ("name", JString (user_name u)); ("email", JS_nullable (email u));
           ("profilePictureUrl", JS_nullable (profilePictureUrl u));
           ("createdAt", JString (user_createdAt u));
           ("updatedAt", JString (user_updatedAt u));
           ("shopListIds", JS_strings (shopListIds u))].

Definition Product_toJS (p : Product) : JSON :=
  JObject [("id", JNumber (product_id p)); ("name", JString (product_name p));
           ("price", JNumber (price p)); ("mrp", JNumber (mrp p));
           ("rating", JNumber (rating p)); ("inStock", JBool (inStock p));
           ("imageUrl", JString (imageUrl p))].

Definition ShopList_toJS (l : ShopList) : JSON :=
  JObject [("id", JString (list_id l)); ("name", JString (list_name l));
           ("visibility", JString (visibilityName (visibility l)));
           ("ownerId", JString (ownerId l)); ("createdAt", JString (createdAt l));
           ("updatedAt", JString (updatedAt l));
           ("participantIds", JS_strings (participantIds l))].

Definition ShopListItem_toJS (i : ShopListItem) : JSON :=
  JObject [("id", JString (item_id i)); ("productId", JNumber (productId i));
           ("shopListId", JString (shopListId i));
           ("addedByUserId", JString (addedByUserId i));
           ("addedAt", JString (addedAt i))].

Definition Reaction_toJS (r : Reaction) : JSON :=
  JObject [("userId", JString (userId r)); ("itemId", JString (itemId r));
           ("kind", JString (kindName (kind r)))].

Definition Suggestion_toJS (g : Suggestion) : JSON :=
  JObject [("id", JString (sg_id g)); ("itemId", JString (sg_itemId g));
           ("suggestedProductId", JNumber (suggestedProductId g));
           ("byUserId", JString (byUserId g)); ("ts", JString (ts g))].

Definition Store_toJS (s : Store) : JSON :=
  JObject [("users", JArray (User_toJS <$> users s));
           ("products", JArray (Product_toJS <$> products s));
           ("shopLists", JArray (ShopList_toJS <$> shopLists s));
           ("shopListItems", JArray (ShopListItem_toJS <$> shopListItems s));
           ("reactions", JArray (Reaction_toJS <$> reactions s));
           ("suggestions", JArray (Suggestion_toJS <$> suggestions s))].

(** Reading the store off a JS value, as the handlers do by property
    access: [o.k] is the value of the property [k] of an object, whatever
    other properties there are and in whatever order. *)

Definition JS_get (k : string) (o : JSON) : option JSON :=
  match o with
  | JObject m => snd <$> js_find (λ kv, kv.1 = k) m
  | _ => None
  end.

Definition as_string (v : JSON) : option string :=
  match v with JString s => Some s | _ => None end.
Definition as_number (v : JSON) : option Z :=
  match v with JNumber n => Some n | _ => None end.
Definition as_boolean (v : JSON) : option bool :=
  match v with JBool b => Some b | _ => None end.
Definition as_nullable (v : JSON) : option (option string) :=
  match v with JNull => Some None | JString s => Some (Some s) | _ => None end.
Definition as_array {A} (f : JSON → option A) (v : JSON) : option (list A) :=
  match v with JArray l => mapM f l | _ => None end.
Definition as_Kind (v : JSON) : option Kind := parseKind (as_string v).
Definition as_Visibility (v : JSON) : option Visibility :=
  s ← as_string v; mjoin (parseVisibility (Some s)).

Definition User_ofJS (v : JSON) : option User :=
  id ← JS_get "id" v ≫= as_string;
  phone ← JS_get "phoneNumber" v ≫= as_string;
  name ← JS_get "name" v ≫= as_string;
  mail ← JS_get "email" v ≫= as_nullable;
  picture ← JS_get "profilePictureUrl" v ≫= as_nullable;
  created ← JS_get "createdAt" v ≫= as_string;
  updated ← JS_get "updatedAt" v ≫= as_string;
  lists ← JS_get "shopListIds" v ≫= as_array as_string;
  Some (mkUser id phone name mail picture created updated lists).

Definition Product_ofJS (v : JSON) : option Product :=
  id ← JS_get "id" v ≫= as_number;
  name ← JS_get "name" v ≫= as_string;
  p ← JS_get "price" v ≫= as_number;
  m ← JS_get "mrp" v ≫= as_number;
  r ← JS_get "rating" v ≫= as_number;
  stock ← JS_get "inStock" v ≫= as_boolean;
  image ← JS_get "imageUrl" v ≫= as_string;
  Some (mkProduct id name p m r stock image).

Definition ShopList_ofJS (v : JSON) : option ShopList :=
  id ← JS_get "id" v ≫= as_string;
  name ← JS_get "name" v ≫= as_string;
  vis ← JS_get "visibility" v ≫= as_Visibility;
  owner ← JS_get "ownerId" v ≫= as_string;
  created ← JS_get "createdAt" v ≫= as_string;
  updated ← JS_get "updatedAt" v ≫= as_string;
  parts ← JS_get "participantIds" v ≫= as_array as_string;
  Some (mkShopList id name vis owner created updated parts).

Definition ShopListItem_ofJS (v : JSON) : option ShopListItem :=
  id ← JS_get "id" v ≫= as_string;
  pid ← JS_get "productId" v ≫= as_number;
  lid ← JS_get "shopListId" v ≫= as_string;
  by_ ← JS_get "addedByUserId" v ≫= as_string;
  at_ ← JS_get "addedAt" v ≫= as_string;
  Some (mkItem id pid lid by_ at_).

Definition Reaction_ofJS (v : JSON) : option Reaction :=
  uid ← JS_get "userId" v ≫= as_string;
  iid ← JS_get "itemId" v ≫= as_string;
  k ← JS_get "kind" v ≫= as_Kind;
  Some (mkReaction uid iid k).

Definition Suggestion_ofJS (v : JSON) : option Suggestion :=
  id ← JS_get "id" v ≫= as_string;
  iid ← JS_get "itemId" v ≫= as_string;
  pid ← JS_get "suggestedProductId" v ≫= as_number;
  by_ ← JS_get "byUserId" v ≫= as_string;
  t ← JS_get "ts" v ≫= as_string;
  Some (mkSuggestion id iid pid by_ t).

Definition Store_ofJS (v : JSON) : option Store :=
  us ← JS_get "users" v ≫= as_array User_ofJS;
  ps ← JS_get "products" v ≫= as_array Product_ofJS;
  ls ← JS_get "shopLists" v ≫= as_array ShopList_ofJS;
  its ← JS_get "shopListItems" v ≫= as_array ShopListItem_ofJS;
  rs ← JS_get "reactions" v ≫= as_array Reaction_ofJS;
  sgs ← JS_get "suggestions" v ≫= as_array Suggestion_ofJS;
  Some (mkStore us ps ls its rs sgs).

(** *** The body of [POST /lists]

    [req.body] is what [express.json()] has parsed, or nothing for a
    request without a JSON body.  [createList] above takes the three fields
    as [CreateListBody] types them; here they are read off the body, where
    an optional field can also be present with a value of the wrong type. *)

(** The values [||] passes over. *)
Definition JS_falsy (v : JSON) : bool :=
  match v with
  | JNull | JBool false | JNumber 0 | JString EmptyString => true
  | _ => false
  end.

(** The three fields of the body, [None] when it is no object, when
    [visibility] is there and is no string, or when
    [participantPhoneNumbers] is there and is no array of strings: zod
    rejects each of these. *)
Definition CreateListBody_fields (body : JSON)
    : option (option string * option string * option (list string)) :=
  match body with
  | JObject _ =>
      vis ← match JS_get "visibility" body with
            | None => Some None
            | Some (JString v) => Some (Some v)
            | Some _ => None
            end;
      phones ← match JS_get "participantPhoneNumbers" body with
               | None => Some None
               | Some v => Some <$> as_array as_string v
               end;
      Some (JS_get "name" body ≫= as_string, vis, phones)
  | _ => None
  end.

(** [app.post("/lists", auth, ...)] on [req.body || {}]. *)
Definition postLists (owner : string) (body : option JSON) (uuid t1 t2 : string)
    (fresh : nat → string * string * string) (s : Store) : Outcome :=
  let body := match body with
              | Some v => if JS_falsy v then JObject [] else v
              | None => JObject []
              end in
  match CreateListBody_fields body with
  | Some (rawName, rawVisibility, rawPhones) =>
      createList owner rawName rawVisibility rawPhones uuid t1 t2 fresh s
  | None => reply s [] S400 BZodError
  end.

(** What [CreateListBody] asks of a body, in its words: an object whose
    [name] is the string [n] of at least one character, whose [visibility]
    is absent or one of the three names, and whose
    [participantPhoneNumbers] is absent or an array of strings. *)
Definition acceptable (body : option JSON) (n : string) (vis : option Visibility)
    (phones : option (list string)) : Prop :=
  ∃ m, body = Some (JObject m)
    ∧ JS_get "name" (JObject m) = Some (JString n) ∧ n ≠ ""
    ∧ JS_get "visibility" (JObject m) = (λ v, JString (visibilityName v)) <$> vis
    ∧ JS_get "participantPhoneNumbers" (JObject m) = JS_strings <$> phones.

(** *** Notions for the round trip *)

(** A value the way the host builds it from scratch: no object has a key
    twice, or a key that is an array index. *)
Fixpoint JSON_plain (v : JSON) : Prop :=
  match v with
  | JArray l => foldr (λ x P, JSON_plain x ∧ P) True l
  | JObject m =>
      NoDup m.*1 ∧ Forall (λ k, is_array_index k = false) m.*1
      ∧ foldr (λ kv P, JSON_plain kv.2 ∧ P) True m
  | _ => True
  end.

(** The line of a member of an object. *)
Definition member_text (indent : string) (kv : string * JSON) : string :=
  let '(k, v) := kv in QuoteJSONString k +:+ ": " +:+ SerializeJSONProperty indent v.

(** The text goes on with something that is no part of a numeral. *)
Definition number_ends (rest : string) : Prop :=
  match rest with
  | String c _ => digit_of_char c = None ∧ fraction_or_exponent rest = false
  | EmptyString => True
  end.

(** A numeral without a zero in front. *)
Definition canonical (u : Decimal.uint) : Prop :=
  match u with
  | Decimal.Nil => False
  | Decimal.D0 Decimal.Nil => True
  | Decimal.D0 _ => False
  | _ => True
  end.

Definition ws_only (s : string) : Prop := skip_ws s = "".

(** The characters a value can begin with, and a number. *)
Definition value_start (c : ascii) : bool :=
  Ascii.eqb c "n" || Ascii.eqb c "t" || Ascii.eqb c "f" || Ascii.eqb c "-"
  || Ascii.eqb c QUOTE || Ascii.eqb c "[" || Ascii.eqb c "{"
  || match digit_of_char c with Some _ => true | None => false end.

Definition number_start (c : ascii) : bool :=
  Ascii.eqb c "-" || match digit_of_char c with Some _ => true | None => false end.

(** Fuel that is enough to read a value back. *)
Fixpoint weight (v : JSON) : nat :=
  match v with
  | JArray l => S (foldr (λ x n, S (weight x + n)) 0 l)
  | JObject m => S (foldr (λ kv n, S (weight kv.2 + n)) 0 m)
  | _ => 1
  end.

(** The text of [v] at the indentation [indent] is read back as [v],
    whatever follows it. *)
Definition parses (indent : string) (v : JSON) : Prop :=
  ∀ fuel rest, weight v ≤ fuel → number_ends rest →
    parse_value fuel (SerializeJSONProperty indent v +:+ rest) = Value (v, rest).

(** ** Lazy saves: [scheduleSave] and the host's timers

    The host keeps the timers that are set and have neither fired nor been
    cleared; [setTimeout] hands out a new handle each time.  [srv_saved]
    records the stores [saveStore] was called with, the latest last. *)

Record Timers := mkTimers {
  saveTimer : option nat;
  pending : list nat;
  next_handle : nat
}.

Definition clearTimeout (h : nat) (t : Timers) : Timers :=
  mkTimers (saveTimer t) (filter (λ x, x ≠ h) (pending t)) (next_handle t).

Definition setTimeout (t : Timers) : nat * Timers :=
  (next_handle t,
   mkTimers (saveTimer t) (pending t ++ [next_handle t]) (S (next_handle t))).

Definition scheduleSave (t : Timers) : Timers :=
  let t1 := match saveTimer t with
            | Some h => clearTimeout h t
            | None => t
            end in
  let '(h, t2) := setTimeout t1 in
  mkTimers (Some h) (pending t2) (next_handle t2).

Record Server := mkServer {
  srv_store : Store;
  srv_timers : Timers;
  srv_saved : list Store
}.

(** [let store = null; let saveTimer = null], then [store = await loadStore()]. *)
Definition boot (s0 : Store) : Server := mkServer s0 (mkTimers None [] 0) [].

(** Every handler calls [scheduleSave()] on the path that ends in a 200 or
    201 and on no path that returns earlier. *)
Definition reachesScheduleSave (r : Response) : bool :=
  match status r with
  | S200 | S201 => true
  | S400 | S404 => false
  end.

Inductive ServerEvent := Request (op : Op) | TimerFires (h : nat).

(** A request runs its handler; a pending timer that fires runs
    [() => saveStore(store)] on the store of that moment. *)
Definition serve (sv : Server) (ev : ServerEvent) : Server :=
  match ev with
  | Request op =>
      let o := run op (srv_store sv) in
      mkServer (out_store o)
        (if reachesScheduleSave (out_response o) then scheduleSave (srv_timers sv)
         else srv_timers sv)
        (srv_saved sv)
  | TimerFires h =>
      if decide (h ∈ pending (srv_timers sv))
      then mkServer (srv_store sv) (clearTimeout h (srv_timers sv))
             (srv_saved sv ++ [srv_store sv])
      else sv
  end.

(** What holds of the server after every event: no timer is pending or
    exactly the one in [saveTimer] is; and with none pending the store is
    the one last saved, or the one loaded at boot with nothing saved yet. *)
Definition saves_in_step (s0 : Store) (sv : Server) : Prop :=
  (pending (srv_timers sv) = []
   ∧ (last (srv_saved sv) = Some (srv_store sv)
      ∨ (srv_saved sv = [] ∧ srv_store sv = s0)))
  ∨ ∃ h, pending (srv_timers sv) = [h] ∧ saveTimer (srv_timers sv) = Some h.

(** ** The web client: the create-list form and the item state

    The React app keeps the items of the active list in [items]; the
    handlers below are the functions it passes to [setItems], the form is
    [CreateShoplistModal]. *)

(** [handleCreate]: a blank name sends nothing; otherwise the trimmed name
    and the non-blank trimmed pieces of the phones field go to
    [actions.createList]. *)
Definition handleCreate (name phones : string) : option (string * list string) :=
  if decide (trim name = "") then None
  else Some (trim name, filter (λ e, e ≠ "") (trim <$> split_comma phones)).

(** [actions.createList] posts [{ name, visibility: "LINK",
    participantPhoneNumbers }] to [POST /lists]. *)
Definition formCreateList (owner name phones uuid t1 t2 : string)
    (fresh : nat → string * string * string) (s : Store) : option Outcome :=
  match handleCreate name phones with
  | None => None
  | Some (n, list) =>
      Some (createList owner (Some n) (Some "LINK") (Some list) uuid t1 t2 fresh s)
  end.

(** An item as the client holds it: what the server sent, and the counts
    [_likes] and [_dislikes] once a reaction payload has set them. *)
Record ClientItem := mkClientItem {
  ci_item : EnrichedItem;
  ci_likes : option nat;
  ci_dislikes : option nat
}.

Definition ci_id (c : ClientItem) : string := item_id (ei_item (ci_item c)).

(** [setItems(its)] with the answer of [GET /lists/:id/items]. *)
Definition fetched (its : list EnrichedItem) : list ClientItem :=
  (λ e, mkClientItem e None None) <$> its.

(** [ItemCard]: [it._likes ?? (it.reactions?.filter(...).length || 0)]. *)
Definition likeCount (c : ClientItem) : nat :=
  default (length (filter (λ r, kind r = LIKE) (ei_reactions (ci_item c)))) (ci_likes c).
Definition dislikeCount (c : ClientItem) : nat :=
  default (length (filter (λ r, kind r = DISLIKE) (ei_reactions (ci_item c))))
    (ci_dislikes c).

(** [upsertItem]: [{ ...prev[i], ...it }] keeps the client's counts. *)
Definition upsertItem (it : EnrichedItem) (prev : list ClientItem) : list ClientItem :=
  match list_find (λ x, ci_id x = item_id (ei_item it)) prev with
  | None => mkClientItem it None None :: prev
  | Some (i, x) => <[i := mkClientItem it (ci_likes x) (ci_dislikes x)]> prev
  end.

Definition clientRemoveItem (id : string) (prev : list ClientItem) : list ClientItem :=
  filter (λ x, ci_id x ≠ id) prev.

(** [onItemReacted], and the same update in [actions.toggleReaction]. *)
Definition onItemReacted (itemId0 : string) (likes dislikes : nat)
    (prev : list ClientItem) : list ClientItem :=
  (λ x, if decide (ci_id x = itemId0)
        then mkClientItem (ci_item x) (Some likes) (Some dislikes) else x) <$> prev.

Definition add_suggestion (sg : EnrichedSuggestion) (e : EnrichedItem) : EnrichedItem :=
  mkEnrichedItem (ei_item e) (ei_product e) (ei_reactions e) (ei_suggestions e ++ [sg]).

(** [onItemSuggested], and the same update in [actions.addSuggestion]. *)
Definition onItemSuggested (sg : EnrichedSuggestion) (prev : list ClientItem)
    : list ClientItem :=
  (λ x, if decide (ci_id x = sg_itemId (es_suggestion sg))
        then mkClientItem (add_suggestion sg (ci_item x)) (ci_likes x) (ci_dislikes x)
        else x) <$> prev.

(** The four item handlers, each registered on the socket under a
    [wishlist:] event name and a legacy one; the list events have handlers
    of their own. *)
Definition onItemEvent (activeListId : option string) (e : Emit)
    (prev : list ClientItem) : list ClientItem :=
  match payload e with
  | BItem it =>
      if decide ((event e = "wishlist:item_added" ∨ event e = "item:added")
                 ∧ Some (shopListId (ei_item it)) = activeListId)
      then upsertItem it prev else prev
  | BIdOnly id =>
      if decide (event e = "wishlist:item_removed" ∨ event e = "item:removed")
      then clientRemoveItem id prev else prev
  | BReacted itemId0 likes dislikes =>
      if decide (event e = "wishlist:item_reacted" ∨ event e = "item:reaction")
      then onItemReacted itemId0 likes dislikes prev else prev
  | BSuggested sg =>
      if decide (event e = "wishlist:item_suggested" ∨ event e = "item:suggested")
      then onItemSuggested sg prev else prev
  | _ => prev
  end.

(** ** How the handlers edit the users and the lists

    The edits the handlers make to [store.users]: a user is pushed (by login
    or for an unknown phone number, always after a failed search for the
    number and with no memberships), renamed (login), given a list id
    ([if (!u.shopListIds.includes(id)) u.shopListIds.push(id)]), or all users
    lose a list id (delete list). *)
Inductive users_step : list User → list User → Prop :=
| us_new us u :
    list_find (λ x, phoneNumber x = phoneNumber u) us = None → shopListIds u = [] →
    users_step us (us ++ [u])
| us_rename us i n t :
    users_step us (alter (set_name n t) i us)
| us_push us i lid :
    users_step us (alter (λ u, set_shopListIds (push_absent lid (shopListIds u)) u) i us)
| us_strip us id :
    users_step us (strip_list id <$> us).

(** The edits the handlers make to [store.shopLists]: a list is unshifted
    (create list), the list at an index gets a participant and a new
    [updatedAt] (join list), or the lists with an id are filtered out. *)
Inductive lists_step : list ShopList → list ShopList → Prop :=
| ls_new ls l :
    ownerId l ∈ participantIds l → NoDup (participantIds l) →
    lists_step ls (l :: ls)
| ls_join ls i l uid now :
    ls !! i = Some l →
    lists_step ls
      (<[i := set_updatedAt now
                (set_participantIds (push_absent uid (participantIds l)) l)]> ls)
| ls_delete ls id :
    lists_step ls (filter (λ x, list_id x ≠ id) ls).

(** A stored user keeps its place and what no handler assigns to. *)
Definition same_user (u u' : User) : Prop :=
  user_id u' = user_id u ∧ phoneNumber u' = phoneNumber u
  ∧ email u' = email u ∧ profilePictureUrl u' = profilePictureUrl u
  ∧ user_createdAt u' = user_createdAt u.

(** Phone numbers are a key of the users. *)
Definition uniquePhones (s : Store) : Prop :=
  NoDup (phoneNumber <$> users s).

(** The participant and membership arrays are sets. *)
Definition arraysAreSets (s : Store) : Prop :=
  Forall (λ l, NoDup (participantIds l)) (shopLists s)
  ∧ Forall (λ u, NoDup (shopListIds u)) (users s).

Definition ownersParticipate (s : Store) : Prop :=
  Forall (λ l, ownerId l ∈ participantIds l) (shopLists s).

(** Every list id in a user's membership array is the id of a list that
    has the user among its participants. *)
Definition membersParticipate (s : Store) : Prop :=
  ∀ u lid, u ∈ users s → lid ∈ shopListIds u →
    ∃ l, l ∈ shopLists s ∧ list_id l = lid ∧ user_id u ∈ participantIds l.

(** The lists a [GET /lists] response shows. *)
Definition listed (uid : string) (s : Store) : list ShopList :=
  match body (out_response (getLists uid s)) with
  | BLists ls => fst <$> ls
  | _ => []
  end.

(** ** A session to run the handlers on

    Users A and B and product 7 are in the store; A creates the list
    "Gifts", adds product 7 to it, B joins and likes the item. *)

Definition demo_seed : Store :=
  mkStore
    [mkUser "A" "9000000001" "Asha" None None "t0" "t0" [];
     mkUser "B" "9000000002" "Bilal" None None "t0" "t0" []]
    [mkProduct 7 "Steel bottle" 34900 49900 430 true "/images/7.jpg"]
    [] [] [] [].

Definition no_fresh (k : nat) : string * string * string := ("", "", "").

Definition demo_ops : list Op :=
  [OpCreateList "A" (Some "Gifts") None None "L1" "t1" "t1" no_fresh;
   OpAddItem "L1" "A" (Some 7%Z) "I1" "t2";
   OpJoinList "L1" "B" "t3";
   OpReact "B" "I1" (Some "LIKE")].

Definition demo : Store := exec demo_seed demo_ops.

(** The session goes on: B suggests an alternative for the item, A opens a
    second list "Home" with an item of its own, a reaction and a suggestion. *)
Definition demo_ops2 : list Op :=
  demo_ops ++
  [OpSuggest "I1" "B" (Some 7%Z) "G1" "t4";
   OpCreateList "A" (Some "Home") (Some "PRIVATE") None "L2" "t5" "t5" no_fresh;
   OpAddItem "L2" "A" (Some 7%Z) "I2" "t6";
   OpReact "A" "I2" (Some "DISLIKE");
   OpSuggest "I2" "A" (Some 7%Z) "G2" "t7"].

Definition demo2 : Store := exec demo_seed demo_ops2.

(** The first session followed by an add-item request for a list id that
    no list has. *)
Definition demo_orphan : Store :=
  exec demo_seed (demo_ops ++ [OpAddItem "L9" "A" (Some 7%Z) "I3" "t9"]).

(** * Properties *)

(** ** Arrays: the first match, and editing at its index *)

Section first_match.
Context {A : Type} (P : A → Prop) `{∀ x, Decision (P x)}.

Lemma length_le_1_eq (l : list A) x y : length l ≤ 1 → x ∈ l → y ∈ l → x = y.
Proof.
  destruct l as [|a [|b l]]; simpl; intros Hlen Hx Hy; [|  |lia].
  - by apply elem_of_nil in Hx.
  - apply list_elem_of_singleton in Hx, Hy. congruence.
Qed.

Lemma filter_nil_Forall (l : list A) : filter P l = [] ↔ Forall (λ x, ¬ P x) l.
Proof.
  induction l as [|a l IH]; [by rewrite filter_nil|].
  rewrite filter_cons, Forall_cons. destruct (decide (P a)) as [Ha|Ha].
  - split; [done|]. by intros [? _].
  - rewrite IH. tauto.
Qed.

Lemma filter_not_id (l : list A) : Forall (λ x, ¬ P x) l → filter (λ x, ¬ P x) l = l.
Proof.
  induction 1 as [|a l Ha _ IH]; [done|].
  by rewrite filter_cons_True, IH.
Qed.

(** [findIndex] answers -1 exactly when nothing matches. *)
Lemma list_find_None_filter (l : list A) : list_find P l = None ↔ filter P l = [].
Proof. by rewrite list_find_None, filter_nil_Forall. Qed.

Lemma list_find_Some_P (l : list A) i x : list_find P l = Some (i, x) → P x ∧ x ∈ l.
Proof.
  intros (Hi & HP & _)%list_find_Some. split; [done|].
  by eapply list_elem_of_lookup_2.
Qed.

(** With at most one match, [splice] at the first match removes all of them. *)
Lemma delete_first_unique (l : list A) i x :
  list_find P l = Some (i, x) → length (filter P l) ≤ 1 →
  delete i l = filter (λ y, ¬ P y) l.
Proof.
  revert i. induction l as [|a l IH]; intros i; [done|].
  cbn [list_find]. destruct (decide (P a)) as [Ha|Ha].
  - intros [= <- <-]. rewrite filter_cons_True by done. simpl. intros Hlen.
    rewrite filter_cons_False by tauto.
    symmetry. apply filter_not_id, filter_nil_Forall.
    apply length_zero_iff_nil. lia.
  - destruct (list_find P l) as [[j y]|] eqn:Hf; [|done].
    intros [= <- <-]. rewrite filter_cons_False by done. intros Hlen.
    rewrite filter_cons_True by done. simpl. f_equal. by apply IH.
Qed.

(** With at most one match, a field assignment on the first match is the
    assignment on every match. *)
Lemma alter_first_unique (f : A → A) (l : list A) i x :
  list_find P l = Some (i, x) → length (filter P l) ≤ 1 →
  alter f i l = (λ y, if decide (P y) then f y else y) <$> l.
Proof.
  revert i. induction l as [|a l IH]; intros i; [done|].
  cbn [list_find]. destruct (decide (P a)) as [Ha|Ha].
  - intros [= <- <-]. rewrite filter_cons_True by done. simpl. intros Hlen.
    rewrite decide_True by done. f_equal.
    assert (Forall (λ y, ¬ P y) l) as Hall.
    { apply filter_nil_Forall, length_zero_iff_nil. lia. }
    clear -Hall. induction Hall as [|b l Hb _ IH]; [done|].
    simpl. rewrite decide_False by done. by f_equal.
  - destruct (list_find P l) as [[j y]|] eqn:Hf; [|done].
    intros [= <- <-]. rewrite filter_cons_False by done. intros Hlen.
    simpl. rewrite decide_False by done. f_equal. by apply IH.
Qed.

(** Overwriting the first match by another match keeps it the first match. *)
Lemma list_find_insert_same (l : list A) i x y :
  list_find P l = Some (i, x) → P y → list_find P (<[i:=y]> l) = Some (i, y).
Proof.
  intros (Hi & HP & Hmin)%list_find_Some Hy. apply list_find_Some.
  split_and!; [|done|].
  - apply list_lookup_insert_eq. by eapply lookup_lt_Some.
  - intros j z Hj Hlt. rewrite list_lookup_insert_ne in Hj by lia. eauto.
Qed.

Lemma list_find_alter_same (f : A → A) (l : list A) i x :
  (∀ y, P (f y) ↔ P y) →
  list_find P l = Some (i, x) → list_find P (alter f i l) = Some (i, f x).
Proof.
  intros Hf (Hi & HP & Hmin)%list_find_Some. apply list_find_Some.
  split_and!; [|by apply Hf|].
  - by rewrite list_lookup_alter_eq, Hi.
  - intros j z Hj Hlt. rewrite list_lookup_alter_ne in Hj by lia. eauto.
Qed.

Lemma filter_alter_length (f : A → A) (l : list A) i :
  (∀ y, P (f y) ↔ P y) → length (filter P (alter f i l)) = length (filter P l).
Proof.
  intros Hf. revert i. induction l as [|a l IH]; intros [|i]; simpl; [done..| |].
  - rewrite !filter_cons. destruct (decide (P a)) as [Ha|Ha].
    + by rewrite decide_True by by apply Hf.
    + by rewrite decide_False by by rewrite Hf.
  - rewrite !filter_cons. destruct (decide (P a)); simpl; by rewrite <- (IH i).
Qed.
End first_match.

(** ** Toggle reaction *)

Lemma parseKind_kindName k : parseKind (Some (kindName k)) = Some k.
Proof. by destruct k. Qed.

Lemma Reaction_eta r : mkReaction (userId r) (itemId r) (kind r) = r.
Proof. by destruct r. Qed.

(** What [findIndex] finds when user [uid] has at most one reaction on
    item [iid] and that reaction has kind [k0]. *)
Lemma find_the_reaction rs uid iid k0 :
  length (reactionsBy uid iid rs) ≤ 1 → mkReaction uid iid k0 ∈ rs →
  ∃ idx, list_find (λ r, userId r = uid ∧ itemId r = iid) rs
         = Some (idx, mkReaction uid iid k0).
Proof.
  intros Hone Hin.
  destruct (list_find (λ r, userId r = uid ∧ itemId r = iid) rs) as [[idx r]|] eqn:Hf.
  - exists idx. do 2 f_equal.
    apply list_find_Some_P in Hf as [Hr Hrin].
    apply (length_le_1_eq (reactionsBy uid iid rs)); [done|..];
      apply list_elem_of_filter; by split.
  - apply list_find_None in Hf. rewrite Forall_forall in Hf.
    by destruct (Hf _ Hin).
Qed.

(** C1. Toggle-reaction by user [uid] on item [iid] with kind [k], the user
    having at most one reaction on the item: with no reaction there, the
    reaction [{userId: uid, itemId: iid, kind: k}] is appended; with a
    reaction of kind [k] there, it is removed; with a reaction of the other
    kind there, it becomes [{userId: uid, itemId: iid, kind: k}] in place;
    the response is 200 with the number of reactions on [iid] of kind LIKE
    and of kind DISLIKE among the reactions after the transition, and
    nothing but the reactions changes. *)
Theorem react_follows_toggle_table (s : Store) (uid iid : string) (k : Kind) :
  length (reactionsBy uid iid (reactions s)) ≤ 1 →
  let o := react uid iid (Some (kindName k)) s in
  let rs := reactions s in
  let rs' := reactions (out_store o) in
  ((∀ k0, mkReaction uid iid k0 ∉ rs) → rs' = rs ++ [mkReaction uid iid k])
  ∧ (mkReaction uid iid k ∈ rs →
       rs' = filter (λ r, ¬ (userId r = uid ∧ itemId r = iid)) rs)
  ∧ (∀ k0, k0 ≠ k → mkReaction uid iid k0 ∈ rs →
       rs' = (λ r, if decide (userId r = uid ∧ itemId r = iid)
                   then mkReaction uid iid k else r) <$> rs)
  ∧ out_response o
    = mkResponse S200
        (BReacted iid
           (length (filter (λ r, itemId r = iid ∧ kind r = LIKE) rs'))
           (length (filter (λ r, itemId r = iid ∧ kind r = DISLIKE) rs')))
  ∧ out_store o
    = mkStore (users s) (products s) (shopLists s) (shopListItems s) rs' (suggestions s).
Proof.
  intros Hone. unfold react. rewrite parseKind_kindName. cbn zeta.
  cbn [out_store out_response reply reactions set_reactions].
  split_and!; [| | |done..].
  - intros Hnone. unfold toggle.
    destruct (list_find _ (reactions s)) as [[idx r]|] eqn:Hf; [|done].
    apply list_find_Some_P in Hf as [[<- <-] Hrin].
    destruct (Hnone (kind r)). by rewrite Reaction_eta.
  - intros Hin. unfold toggle.
    destruct (find_the_reaction _ _ _ _ Hone Hin) as [idx Hf]. rewrite Hf.
    cbn [kind]. rewrite decide_True by done.
    by eapply (delete_first_unique (λ r, userId r = uid ∧ itemId r = iid)).
  - intros k0 Hne Hin. unfold toggle.
    destruct (find_the_reaction _ _ _ _ Hone Hin) as [idx Hf]. rewrite Hf.
    cbn [kind]. rewrite decide_False by done.
    erewrite (alter_first_unique (λ r, userId r = uid ∧ itemId r = iid)) by done.
    apply list_fmap_ext. intros _ r _.
    destruct (decide _) as [[<- <-]|]; done.
Qed.

Lemma react_follows_toggle_table_witness :
  length (reactionsBy "B" "I1" (reactions demo)) ≤ 1
  ∧ reactions (out_store (react "B" "I1" (Some "DISLIKE") demo))
    = [mkReaction "B" "I1" DISLIKE]
  ∧ out_response (react "B" "I1" (Some "DISLIKE") demo)
    = mkResponse S200 (BReacted "I1" 0 1).
Proof.
  assert (length (reactionsBy "B" "I1" (reactions demo)) ≤ 1) as Hone
    by (vm_compute; lia).
  split; [exact Hone|].
  destruct (react_follows_toggle_table demo "B" "I1" DISLIKE Hone)
    as (_ & _ & Hupd & Hresp & _).
  cbn zeta in Hupd, Hresp. change (kindName DISLIKE) with "DISLIKE" in Hupd, Hresp.
  rewrite Hresp, (Hupd LIKE); [done|discriminate|]. vm_compute. constructor.
Defined.

(** The two-call sequences of the toggle table, from a user without a
    reaction on the item: the same kind twice gives the reactions back, two
    different kinds leave one reaction of the second kind. *)
Lemma toggle_fresh uid iid k rs :
  reactionsBy uid iid rs = [] →
  list_find (λ r, userId r = uid ∧ itemId r = iid) (toggle uid iid k rs)
  = Some (length rs, mkReaction uid iid k).
Proof.
  intros Hnone%list_find_None_filter. unfold toggle. rewrite Hnone.
  rewrite list_find_app_r by done. cbn [list_find userId itemId].
  by rewrite decide_True by done.
Qed.

Lemma toggle_twice_same uid iid k rs :
  reactionsBy uid iid rs = [] → toggle uid iid k (toggle uid iid k rs) = rs.
Proof.
  intros Hnone. unfold toggle at 1. rewrite toggle_fresh by done.
  cbn [kind]. rewrite decide_True by done.
  apply list_find_None_filter in Hnone. unfold toggle. rewrite Hnone.
  rewrite delete_middle. apply app_nil_r.
Qed.

Lemma toggle_twice_other uid iid k k' rs :
  reactionsBy uid iid rs = [] → k ≠ k' →
  toggle uid iid k' (toggle uid iid k rs) = rs ++ [mkReaction uid iid k'].
Proof.
  intros Hnone Hne. unfold toggle at 1. rewrite toggle_fresh by done.
  cbn [kind]. rewrite decide_False by done.
  apply list_find_None_filter in Hnone. unfold toggle. rewrite Hnone.
  rewrite alter_app_r_alt by done. by rewrite Nat.sub_diag.
Qed.

(** ** At most one reaction per user and item *)

Lemma sublist_filter_length {A} (P : A → Prop) `{∀ x, Decision (P x)} (l1 l2 : list A) :
  l1 `sublist_of` l2 → length (filter P l1) ≤ length (filter P l2).
Proof.
  induction 1 as [|x l1 l2 _ IH|x l1 l2 _ IH]; [done|..];
    rewrite ?filter_cons; destruct (decide (P x)); simpl; lia.
Qed.

Lemma toggle_unique uid iid k rs :
  (∀ u i, length (reactionsBy u i rs) ≤ 1) →
  ∀ u i, length (reactionsBy u i (toggle uid iid k rs)) ≤ 1.
Proof.
  intros Huniq u i. unfold toggle.
  destruct (list_find _ rs) as [[idx r]|] eqn:Hf.
  - destruct (decide (kind r = k)).
    + etrans; [|apply (Huniq u i)].
      apply sublist_filter_length, sublist_delete.
    + unfold reactionsBy. rewrite filter_alter_length; [apply Huniq|].
      by intros [].
  - unfold reactionsBy. rewrite filter_app, length_app.
    rewrite filter_cons, filter_nil. cbn [userId itemId].
    destruct (decide (uid = u ∧ iid = i)) as [[-> ->]|Hne]; simpl.
    + apply list_find_None_filter in Hf. rewrite Hf. simpl. lia.
    + specialize (Huniq u i). unfold reactionsBy in Huniq. lia.
Qed.

(** Every handler leaves the reactions alone, drops some, or toggles one. *)
Lemma run_reactions op s :
  reactions (out_store (run op s)) `sublist_of` reactions s
  ∨ ∃ uid iid k, reactions (out_store (run op s)) = toggle uid iid k (reactions s).
Proof.
  destruct op; simpl.
  - left. unfold login. destruct (parseLoginBody _ _) as [[ph n]|]; [|done].
    destruct (list_find _ _) as [[i u]|]; [|done]. by destruct (decide _).
  - left. unfold createList. destruct (parseCreateListBody _ _ _); [|done].
    by destruct (foldl _ _ _) as [[us1 parts1] added].
  - left. unfold deleteList. destruct (js_find _ _); [|done]. apply sublist_filter.
  - left. unfold joinList. by destruct (list_find _ _) as [[i l]|].
  - left. unfold addItem. destruct rawProductId as [[| |]|]; try done;
      by destruct (js_find _ _).
  - left. unfold removeItem. destruct (js_find _ _); [|done]. apply sublist_filter.
  - unfold react. destruct (parseKind rawKind) as [k|]; [|by left].
    right. by exists uid, iid, k.
  - left. unfold suggest. destruct rawProductId; [|done]. by destruct (js_find _ _).
Qed.

Lemma run_uniqueReactions op s :
  uniqueReactions s → uniqueReactions (out_store (run op s)).
Proof.
  intros Huniq uid iid.
  destruct (run_reactions op s) as [Hsub|(u & i & k & ->)].
  - etrans; [|apply (Huniq uid iid)]. by apply sublist_filter_length.
  - by apply toggle_unique.
Qed.

(** C3. From a store with at most one reaction per (user-id, item-id), every
    store reached by any sequence of the handlers' mutations has at most one
    reaction per (user-id, item-id). *)
Theorem uniqueReactions_reachable (s0 s : Store) :
  uniqueReactions s0 → reachable s0 s → uniqueReactions s.
Proof.
  intros H0. induction 1 as [|s op _ IH]; [done|].
  by apply run_uniqueReactions.
Qed.

Lemma exec_reachable (s0 : Store) (ops : list Op) : reachable s0 (exec s0 ops).
Proof.
  induction ops as [|op ops IH] using rev_ind; [constructor|].
  unfold exec. rewrite foldl_app. simpl. by constructor.
Qed.

Lemma uniqueReactions_reachable_witness :
  uniqueReactions demo_seed ∧ reachable demo_seed demo ∧ uniqueReactions demo.
Proof.
  assert (uniqueReactions demo_seed) as H0 by (intros ??; simpl; lia).
  split_and!; [exact H0|apply exec_reachable|].
  apply (uniqueReactions_reachable demo_seed); [exact H0|apply exec_reachable].
Defined.

(** ** Delete list *)

Lemma js_find_Some_Exists {A} (P : A → Prop) `{∀ x, Decision (P x)} (l : list A) :
  Exists P l → ∃ x, js_find P l = Some x.
Proof.
  intros (x & Hx & HP)%Exists_exists.
  destruct (list_find_elem_of P l x Hx HP) as [[i y] Hf].
  exists y. unfold js_find. by rewrite Hf.
Qed.

Lemma deleteList_found s id :
  listExists s id →
  deleteList id s
  = reply (mkStore (strip_list id <$> users s) (products s)
             (filter (λ x, list_id x ≠ id) (shopLists s))
             (filter (λ i, shopListId i ≠ id) (shopListItems s))
             (filter (λ r, Exists (λ i, item_id i = itemId r)
                             (filter (λ i, shopListId i ≠ id) (shopListItems s)))
                (reactions s))
             (filter (λ sg, Exists (λ i, item_id i = sg_itemId sg)
                              (filter (λ i, shopListId i ≠ id) (shopListItems s)))
                (suggestions s)))
      [mkEmit ("list:" +:+ id) "wishlist:list_deleted" (BIdOnly id)] S200 BOk.
Proof.
  intros Hex.
  destruct (js_find_Some_Exists (λ x, list_id x = id) (shopLists s) Hex) as [l Hl].
  unfold deleteList. by rewrite Hl.
Qed.

Lemma NoDup_fmap_eq {A B} (f : A → B) (l : list A) x y :
  NoDup (f <$> l) → x ∈ l → y ∈ l → f x = f y → x = y.
Proof.
  induction l as [|a l IH]; simpl; [by intros _ ?%elem_of_nil|].
  intros [Ha Hl]%NoDup_cons [->|Hx]%elem_of_cons [->|Hy]%elem_of_cons Heq;
    [done| | |by apply IH].
  - destruct Ha. rewrite Heq. by apply list_elem_of_fmap_2.
  - destruct Ha. rewrite <- Heq. by apply list_elem_of_fmap_2.
Qed.

(** C2. Deleting an existing list [id], item ids being unique: every item
    owned by [id] is gone, no reaction and no suggestion is left that
    references one of those items (each one left references an item that is
    left), no list has the id [id] any more, and no user has [id] in its
    membership set; so nothing in the store refers to [id]. *)
Theorem deleteList_cascades (s : Store) (id : string) :
  listExists s id →
  NoDup (item_id <$> shopListItems s) →
  let o := deleteList id s in
  let s' := out_store o in
  out_response o = mkResponse S200 BOk
  ∧ (∀ it, it ∈ shopListItems s → shopListId it = id → it ∉ shopListItems s')
  ∧ (∀ it, it ∈ shopListItems s' → shopListId it ≠ id)
  ∧ (∀ r it, r ∈ reactions s' →
       it ∈ shopListItems s → shopListId it = id → itemId r ≠ item_id it)
  ∧ (∀ r, r ∈ reactions s' → itemExists s' (itemId r))
  ∧ (∀ sg it, sg ∈ suggestions s' →
       it ∈ shopListItems s → shopListId it = id → sg_itemId sg ≠ item_id it)
  ∧ (∀ sg, sg ∈ suggestions s' → itemExists s' (sg_itemId sg))
  ∧ (∀ l, l ∈ shopLists s' → list_id l ≠ id)
  ∧ (∀ u, u ∈ users s' → id ∉ shopListIds u).
Proof.
  intros Hex Hnd. rewrite (deleteList_found s id Hex). unfold itemExists.
  cbn [out_store out_response reply users shopLists shopListItems reactions suggestions].
  assert (∀ iid it, Exists (λ i, item_id i = iid)
                      (filter (λ i, shopListId i ≠ id) (shopListItems s)) →
            it ∈ shopListItems s → shopListId it = id → iid ≠ item_id it) as Hkept.
  { intros iid it (it' & [Hne Hin']%list_elem_of_filter & Hid)%Exists_exists Hin Hown Heq.
    apply Hne. rewrite <- Hown. f_equal.
    apply (NoDup_fmap_eq item_id (shopListItems s)); congruence. }
  split_and!.
  - done.
  - intros it _ Hown [Hne _]%list_elem_of_filter. by apply Hne.
  - by intros it [Hne _]%list_elem_of_filter.
  - intros r it [Hr _]%list_elem_of_filter. by apply Hkept.
  - by intros r [Hr _]%list_elem_of_filter.
  - intros sg it [Hsg _]%list_elem_of_filter. by apply Hkept.
  - by intros sg [Hsg _]%list_elem_of_filter.
  - by intros l [Hne _]%list_elem_of_filter.
  - intros u (u0 & -> & _)%list_elem_of_fmap. simpl.
    by intros [Hne _]%list_elem_of_filter.
Qed.

Lemma deleteList_cascades_witness :
  listExists demo2 "L1" ∧ NoDup (item_id <$> shopListItems demo2)
  ∧ (∀ r it, r ∈ reactions (out_store (deleteList "L1" demo2)) →
       it ∈ shopListItems demo2 → shopListId it = "L1" → itemId r ≠ item_id it)
  ∧ (∀ u, u ∈ users (out_store (deleteList "L1" demo2)) → "L1" ∉ shopListIds u).
Proof.
  assert (listExists demo2 "L1") as Hex by compute_done.
  assert (NoDup (item_id <$> shopListItems demo2)) as Hnd by compute_done.
  split_and!; [exact Hex|exact Hnd|..];
    apply (deleteList_cascades demo2 "L1" Hex Hnd).
Defined.

(** C10. Deleting an existing list [id] leaves the products as they are;
    every list with another id, every item owned by another list, and every
    reaction and suggestion whose item is still there stays in the store,
    and each of these collections only loses entries (none is added, changed
    or reordered); the users correspond one to one, each differing from its
    former self only in that [id] is gone from its membership set. *)
Theorem deleteList_frame (s : Store) (id : string) :
  listExists s id →
  let s' := out_store (deleteList id s) in
  products s' = products s
  ∧ (∀ l, l ∈ shopLists s → list_id l ≠ id → l ∈ shopLists s')
  ∧ shopLists s' `sublist_of` shopLists s
  ∧ (∀ it, it ∈ shopListItems s → shopListId it ≠ id → it ∈ shopListItems s')
  ∧ shopListItems s' `sublist_of` shopListItems s
  ∧ (∀ r, r ∈ reactions s → itemExists s' (itemId r) → r ∈ reactions s')
  ∧ reactions s' `sublist_of` reactions s
  ∧ (∀ sg, sg ∈ suggestions s → itemExists s' (sg_itemId sg) → sg ∈ suggestions s')
  ∧ suggestions s' `sublist_of` suggestions s
  ∧ Forall2 (loses_list id) (users s) (users s').
Proof.
  intros Hex. rewrite (deleteList_found s id Hex). unfold itemExists.
  cbn [out_store reply users products shopLists shopListItems reactions suggestions].
  split_and!; try apply sublist_filter.
  - done.
  - intros l Hl Hne. by apply list_elem_of_filter.
  - intros it Hit Hne. by apply list_elem_of_filter.
  - intros r Hr Hit. by apply list_elem_of_filter.
  - intros sg Hsg Hit. by apply list_elem_of_filter.
  - apply Forall2_fmap_r, Forall_Forall2_diag, Forall_forall.
    intros u _. by repeat split.
Qed.

Lemma deleteList_frame_witness :
  listExists demo2 "L1"
  ∧ (∀ r, r ∈ reactions demo2 →
       itemExists (out_store (deleteList "L1" demo2)) (itemId r) →
       r ∈ reactions (out_store (deleteList "L1" demo2)))
  ∧ Forall2 (loses_list "L1") (users demo2) (users (out_store (deleteList "L1" demo2))).
Proof.
  assert (listExists demo2 "L1") as Hex by compute_done.
  split_and!; [exact Hex|..]; apply (deleteList_frame demo2 "L1" Hex).
Defined.

(** ** Join list *)

Lemma push_absent_elem x a : x ∈ push_absent x a.
Proof.
  unfold push_absent. destruct (decide (x ∈ a)); [done|].
  apply elem_of_app. right. by apply list_elem_of_singleton.
Qed.

Lemma push_absent_idemp x a : push_absent x (push_absent x a) = push_absent x a.
Proof.
  unfold push_absent at 1. by rewrite decide_True by apply push_absent_elem.
Qed.

Lemma alter_idemp {A} (f : A → A) i (l : list A) :
  (∀ x, f (f x) = f x) → alter f i (alter f i l) = alter f i l.
Proof.
  intros Hf. revert i. induction l as [|a l IH]; intros [|i]; simpl; [done..| |].
  - by rewrite Hf.
  - f_equal. apply IH.
Qed.

Lemma list_find_Some_Exists {A} (P : A → Prop) `{∀ x, Decision (P x)} (l : list A) :
  Exists P l → ∃ i x, list_find P l = Some (i, x).
Proof.
  intros (x & Hx & HP)%Exists_exists.
  destruct (list_find_elem_of P l x Hx HP) as [[i y] Hf]. by exists i, y.
Qed.

Lemma joinUsers_idemp listId uid us :
  joinUsers listId uid (joinUsers listId uid us) = joinUsers listId uid us.
Proof.
  destruct (list_find (λ x, user_id x = uid) us) as [[j u]|] eqn:Hf.
  - assert (joinUsers listId uid us
            = alter (λ u, set_shopListIds (push_absent listId (shopListIds u)) u) j us)
      as -> by (unfold joinUsers; by rewrite Hf).
    unfold joinUsers.
    rewrite (list_find_alter_same (λ x, user_id x = uid) _ us j u) by done.
    apply alter_idemp. intros x. unfold set_shopListIds. simpl.
    by rewrite push_absent_idemp.
  - assert (joinUsers listId uid us = us) as Hid
      by (unfold joinUsers; by rewrite Hf).
    by rewrite !Hid.
Qed.

Lemma joinList_found listId uid now s i l :
  list_find (λ l, list_id l = listId) (shopLists s) = Some (i, l) →
  out_store (joinList listId uid now s)
  = set_shopLists
      (<[i := set_updatedAt now
                (set_participantIds (push_absent uid (participantIds l)) l)]>
         (shopLists s))
      (set_users (joinUsers listId uid (users s)) s).
Proof.
  intros Hf. unfold joinList, joinUsers. rewrite Hf. cbn [out_store reply].
  by destruct (list_find _ (users s)) as [[j u]|].
Qed.

(** C6. For an existing list [listId] and an existing user [uid], joining a
    second time (at time [t2]) gives the very store that a single join at
    time [t2] gives, which is the store after the first join with the
    list's [updatedAt] set to [t2] and nothing else changed: the participant
    set and the membership set are those of the first join.  After the joins
    [uid] is
    a participant, the participant array being the old one when [uid] was in
    it and the old one with [uid] appended otherwise; and symmetrically
    [listId] is in the user's membership array. *)
Theorem joinList_idempotent (s : Store) (listId uid t1 t2 : string) :
  listExists s listId →
  Exists (λ u, user_id u = uid) (users s) →
  let s1 := out_store (joinList listId uid t1 s) in
  let s2 := out_store (joinList listId uid t2 s1) in
  s2 = out_store (joinList listId uid t2 s)
  ∧ (∃ i l1, list_find (λ l, list_id l = listId) (shopLists s1) = Some (i, l1)
       ∧ s2 = set_shopLists (<[i := set_updatedAt t2 l1]> (shopLists s1)) s1)
  ∧ participantsOf listId s2 = participantsOf listId s1
  ∧ membershipOf uid s2 = membershipOf uid s1
  ∧ (∃ ps0 ps, participantsOf listId s = Some ps0
       ∧ participantsOf listId s2 = Some ps
       ∧ uid ∈ ps ∧ (uid ∈ ps0 → ps = ps0) ∧ (uid ∉ ps0 → ps = ps0 ++ [uid]))
  ∧ (∃ ms0 ms, membershipOf uid s = Some ms0
       ∧ membershipOf uid s2 = Some ms
       ∧ listId ∈ ms ∧ (listId ∈ ms0 → ms = ms0) ∧ (listId ∉ ms0 → ms = ms0 ++ [listId])).
Proof.
  intros Hl Hu.
  destruct (list_find_Some_Exists (λ l, list_id l = listId) (shopLists s) Hl)
    as (i & l & Hfl).
  destruct (list_find_Some_Exists (λ u, user_id u = uid) (users s) Hu)
    as (j & u & Hfu).
  set (l1 := set_updatedAt t1 (set_participantIds (push_absent uid (participantIds l)) l)).
  set (l2 := set_updatedAt t2 (set_participantIds (push_absent uid (participantIds l)) l)).
  set (f := λ u, set_shopListIds (push_absent listId (shopListIds u)) u).
  assert (list_find (λ l, list_id l = listId) (<[i:=l1]> (shopLists s)) = Some (i, l1)) as Hfl1.
  { apply (list_find_insert_same _ _ _ l); [done|].
    by apply list_find_Some_P in Hfl as [? _]. }
  assert (list_find (λ l, list_id l = listId) (<[i:=l2]> (shopLists s)) = Some (i, l2)) as Hfl2.
  { apply (list_find_insert_same _ _ _ l); [done|].
    by apply list_find_Some_P in Hfl as [? _]. }
  assert (joinUsers listId uid (users s) = alter f j (users s)) as Hju.
  { unfold joinUsers. by rewrite Hfu. }
  assert (list_find (λ u, user_id u = uid) (alter f j (users s)) = Some (j, f u)) as Hfu1.
  { by apply (list_find_alter_same (λ u, user_id u = uid)). }
  assert (set_updatedAt t2 (set_participantIds (push_absent uid (participantIds l1)) l1)
          = l2) as El.
  { unfold l1, l2, set_updatedAt, set_participantIds. simpl.
    by rewrite push_absent_idemp. }
  pose proof (joinList_found listId uid t1 s i l Hfl) as E1. fold l1 in E1.
  pose proof (joinList_found listId uid t2 s i l Hfl) as E2. fold l2 in E2.
  pose proof (joinList_found listId uid t2
                (set_shopLists (<[i:=l1]> (shopLists s))
                   (set_users (joinUsers listId uid (users s)) s)) i l1 Hfl1) as E3.
  rewrite El in E3.
  cbn zeta. rewrite E1, E3, E2.
  unfold participantsOf, membershipOf, js_find, set_shopLists, set_users.
  cbn [shopLists users products shopListItems reactions suggestions].
  rewrite joinUsers_idemp, list_insert_insert_eq.
  rewrite Hfl, Hfl1, Hfl2, Hju, Hfu, Hfu1.
  cbn [fmap option_fmap option_map snd].
  split_and!; try done.
  - exists i, l1. split; [done|]. by rewrite list_insert_insert_eq.
  - exists (participantIds l), (push_absent uid (participantIds l)).
    split_and!; try done; [apply push_absent_elem|..];
      unfold push_absent; intros ?; by rewrite ?decide_True, ?decide_False by done.
  - exists (shopListIds u), (push_absent listId (shopListIds u)).
    split_and!; try done; [apply push_absent_elem|..];
      unfold push_absent; intros ?; by rewrite ?decide_True, ?decide_False by done.
Qed.

Lemma joinList_idempotent_witness :
  let s := exec demo_seed (take 2 demo_ops) in
  listExists s "L1" ∧ Exists (λ u, user_id u = "B") (users s)
  ∧ out_store (joinList "L1" "B" "t4" (out_store (joinList "L1" "B" "t3" s)))
    = out_store (joinList "L1" "B" "t4" s).
Proof.
  intros s.
  assert (listExists s "L1") as Hl by compute_done.
  assert (Exists (λ u, user_id u = "B") (users s)) as Hu by compute_done.
  split_and!; [exact Hl|exact Hu|].
  apply (joinList_idempotent s "L1" "B" "t3" "t4" Hl Hu).
Defined.

(** ** Missing lists and items *)

(** The routes that look their list or item up answer 404 when it is
    missing and leave the store alone. *)
Lemma deleteList_missing s id :
  ¬ listExists s id →
  deleteList id s = reply s [] S404 (BError "list not found").
Proof.
  intros Hno. unfold deleteList, js_find.
  destruct (list_find _ _) as [[i l]|] eqn:Hf; [|done].
  destruct Hno. apply Exists_exists. exists l.
  apply list_find_Some_P in Hf. tauto.
Qed.

Lemma joinList_missing s listId uid now :
  ¬ listExists s listId →
  joinList listId uid now s = reply s [] S404 (BError "list not found").
Proof.
  intros Hno. unfold joinList.
  destruct (list_find _ _) as [[i l]|] eqn:Hf; [|done].
  destruct Hno. apply Exists_exists. exists l.
  apply list_find_Some_P in Hf. tauto.
Qed.

Lemma removeItem_missing s id :
  ¬ itemExists s id →
  removeItem id s = reply s [] S404 (BError "item not found").
Proof.
  intros Hno. unfold removeItem, js_find.
  destruct (list_find _ _) as [[i l]|] eqn:Hf; [|done].
  destruct Hno. apply Exists_exists. exists l.
  apply list_find_Some_P in Hf. tauto.
Qed.

(** *** Referential integrity where the ids are checked or exist *)

Lemma noOrphans_same_entities s s' :
  shopLists s' = shopLists s → shopListItems s' = shopListItems s →
  reactions s' = reactions s → suggestions s' = suggestions s →
  noOrphans s → noOrphans s'.
Proof.
  unfold noOrphans, listExists, itemExists. by intros -> -> -> ->.
Qed.

Lemma Exists_insert_same {A} (P : A → Prop) (l : list A) i x y :
  l !! i = Some x → (P x → P y) → Exists P l → Exists P (<[i:=y]> l).
Proof.
  intros Hi Hxy (z & [k Hk]%list_elem_of_lookup & Hz)%Exists_exists.
  apply Exists_exists. destruct (decide (k = i)) as [->|Hne].
  - exists y. split; [|apply Hxy; congruence].
    apply list_elem_of_lookup. exists i.
    apply list_lookup_insert_eq. by eapply lookup_lt_Some.
  - exists z. split; [|done]. apply list_elem_of_lookup. exists k.
    by rewrite list_lookup_insert_ne.
Qed.

Lemma toggle_itemIds uid iid k rs r :
  r ∈ toggle uid iid k rs → itemId r = iid ∨ ∃ r0, r0 ∈ rs ∧ itemId r = itemId r0.
Proof.
  unfold toggle. destruct (list_find _ rs) as [[idx r1]|] eqn:Hf.
  - destruct (decide (kind r1 = k)).
    + intros Hr. right. exists r. split; [|done].
      eapply elem_of_sublist; [done|apply sublist_delete].
    + intros [j Hj]%list_elem_of_lookup. right.
      destruct (decide (idx = j)) as [->|Hne].
      * rewrite list_lookup_alter_eq in Hj.
        destruct (rs !! j) as [r0|] eqn:Hr0; [|done].
        injection Hj as <-. exists r0. split; [|done].
        by eapply list_elem_of_lookup_2.
      * rewrite list_lookup_alter_ne in Hj by done.
        exists r. split; [|done]. by eapply list_elem_of_lookup_2.
  - intros [Hr|Hr%list_elem_of_singleton]%elem_of_app.
    + right. by exists r.
    + left. by subst r.
Qed.

Lemma deleteList_noOrphans s id : noOrphans s → noOrphans (out_store (deleteList id s)).
Proof.
  intros (Hi & Hr & Hs).
  destruct (decide (listExists s id)) as [Hex|Hno];
    [|by rewrite deleteList_missing].
  rewrite deleteList_found by done. unfold noOrphans, listExists, itemExists.
  cbn [out_store reply shopLists shopListItems reactions suggestions].
  split_and!; apply Forall_forall.
  - intros it [Hne Hit]%list_elem_of_filter.
    rewrite Forall_forall in Hi.
    pose proof (Hi it Hit) as (l & Hl & Hid)%Exists_exists.
    apply Exists_exists. exists l. split; [|done].
    apply list_elem_of_filter. split; [congruence|done].
  - by intros r [Hkeep _]%list_elem_of_filter.
  - by intros sg [Hkeep _]%list_elem_of_filter.
Qed.

Lemma removeItem_noOrphans s id : noOrphans s → noOrphans (out_store (removeItem id s)).
Proof.
  intros (Hi & Hr & Hs). unfold removeItem.
  destruct (js_find _ _); [|done].
  unfold noOrphans, listExists, itemExists.
  cbn [out_store reply shopLists shopListItems reactions suggestions].
  rewrite Forall_forall in Hi. rewrite Forall_forall in Hr. rewrite Forall_forall in Hs.
  split_and!; apply Forall_forall.
  - intros it [_ Hit]%list_elem_of_filter. by apply Hi.
  - intros r [Hne Hin]%list_elem_of_filter.
    pose proof (Hr r Hin) as (it & Hit & Hid)%Exists_exists.
    apply Exists_exists. exists it. split; [|done].
    apply list_elem_of_filter. split; [congruence|done].
  - intros sg [Hne Hin]%list_elem_of_filter.
    pose proof (Hs sg Hin) as (it & Hit & Hid)%Exists_exists.
    apply Exists_exists. exists it. split; [|done].
    apply list_elem_of_filter. split; [congruence|done].
Qed.

Lemma joinList_noOrphans s listId uid now :
  noOrphans s → noOrphans (out_store (joinList listId uid now s)).
Proof.
  intros (Hi & Hr & Hs).
  destruct (list_find (λ l, list_id l = listId) (shopLists s)) as [[i l]|] eqn:Hf;
    [|unfold joinList; by rewrite Hf].
  rewrite (joinList_found _ _ _ _ i l) by done.
  unfold noOrphans, listExists, itemExists.
  cbn [set_shopLists set_users shopLists shopListItems reactions suggestions].
  split_and!; [|done..].
  eapply Forall_impl; [exact Hi|]. intros it Hex. cbn beta in *.
  apply list_find_Some in Hf as (Hl & _ & _).
  by eapply Exists_insert_same.
Qed.

Lemma createList_noOrphans owner n v phs uuid t1 t2 fresh s :
  noOrphans s → noOrphans (out_store (createList owner n v phs uuid t1 t2 fresh s)).
Proof.
  intros (Hi & Hr & Hs). unfold createList.
  destruct (parseCreateListBody _ _ _); [|done].
  destruct (foldl _ _ _) as [[us1 parts1] added].
  unfold noOrphans, listExists, itemExists.
  cbn [out_store reply set_shopLists set_users shopLists shopListItems
       reactions suggestions].
  split_and!; [|done..].
  eapply Forall_impl; [exact Hi|]. intros it Hex. by apply Exists_cons_tl.
Qed.

Lemma run_noOrphans op s :
  targetsExist op s → noOrphans s → noOrphans (out_store (run op s)).
Proof.
  destruct op; cbn [run targetsExist]; intros Ht Hinv.
  - apply (noOrphans_same_entities s); [..|done]; unfold login;
      destruct (parseLoginBody _ _) as [[ph nm]|]; try done;
      destruct (list_find _ _) as [[i u]|]; try done; by destruct (decide _).
  - by apply createList_noOrphans.
  - by apply deleteList_noOrphans.
  - by apply joinList_noOrphans.
  - unfold addItem. destruct rawProductId as [[|pid|pid]|]; try done;
      (destruct (js_find _ _); [|done]);
      destruct Hinv as (Hi & Hr & Hs);
      unfold noOrphans, listExists, itemExists;
      cbn [out_store reply set_shopListItems shopLists shopListItems
           reactions suggestions shopListId];
      (split_and!; [by apply Forall_cons| |]);
      (eapply Forall_impl; [eassumption|]); intros ? ?; by apply Exists_cons_tl.
  - by apply removeItem_noOrphans.
  - unfold react. destruct (parseKind rawKind) as [k|]; [|done].
    destruct Hinv as (Hi & Hr & Hs). unfold noOrphans, listExists, itemExists.
    cbn [out_store reply set_reactions shopLists shopListItems reactions suggestions].
    split_and!; [done| |done].
    apply Forall_forall. intros r [->|(r0 & Hr0 & ->)]%toggle_itemIds; [done|].
    rewrite Forall_forall in Hr. by apply Hr.
  - unfold suggest. destruct rawProductId as [pid|]; [|done].
    destruct (js_find _ _); [|done].
    destruct Hinv as (Hi & Hr & Hs). unfold noOrphans, listExists, itemExists.
    cbn [out_store reply set_suggestions shopLists shopListItems reactions suggestions].
    split_and!; [done..|].
    apply Forall_app. split; [done|]. by apply Forall_singleton.
Qed.

(** Along every sequence of requests in which add-item names an existing
    list, and react and suggest an existing item, a store without orphans
    leads only to stores without orphans. *)
Lemma noOrphans_reachable_checked (s0 s : Store) :
  noOrphans s0 → reachable_checked s0 s → noOrphans s.
Proof.
  intros H0. induction 1 as [|s op _ IH Ht]; [done|].
  by apply run_noOrphans.
Qed.

(** *** The three routes that do not look the list or item up *)

Lemma addItem_any_list s listId uid pid uuid now :
  pid ≠ 0%Z → Exists (λ p, product_id p = pid) (products s) →
  let o := addItem listId uid (Some pid) uuid now s in
  status (out_response o) = S201
  ∧ shopListItems (out_store o) = mkItem uuid pid listId uid now :: shopListItems s.
Proof.
  intros Hpid Hp.
  destruct (js_find_Some_Exists (λ p, product_id p = pid) (products s) Hp) as [p Hf].
  unfold addItem. rewrite Hf. by destruct pid.
Qed.

Lemma react_any_item s uid iid k :
  let o := react uid iid (Some (kindName k)) s in
  status (out_response o) = S200
  ∧ reactions (out_store o) = toggle uid iid k (reactions s).
Proof. unfold react. by rewrite parseKind_kindName. Qed.

Lemma suggest_any_item s iid uid pid uuid now :
  Exists (λ p, product_id p = pid) (products s) →
  let o := suggest iid uid (Some pid) uuid now s in
  status (out_response o) = S201
  ∧ suggestions (out_store o) = suggestions s ++ [mkSuggestion uuid iid pid uid now].
Proof.
  intros Hp.
  destruct (js_find_Some_Exists (λ p, product_id p = pid) (products s) Hp) as [p Hf].
  unfold suggest. by rewrite Hf.
Qed.

(** C5. Add-item, toggle-reaction and add-suggestion do not look their list
    or item up.  In the session store, where no list "L9" and no item "I9"
    exist, add-item to "L9" answers 201 and stores the item, a reaction on
    "I9" answers 200 and stores the reaction, a suggestion on "I9" answers
    201 and stores the suggestion: none is rejected as not found and each
    changes the store. *)
Theorem unchecked_ids_not_rejected :
  ¬ listExists demo "L9" ∧ ¬ itemExists demo "I9"
  ∧ (let o := addItem "L9" "A" (Some 7%Z) "I3" "t9" demo in
     status (out_response o) = S201
     ∧ shopListItems (out_store o)
       = mkItem "I3" 7 "L9" "A" "t9" :: shopListItems demo)
  ∧ (let o := react "A" "I9" (Some "LIKE") demo in
     out_response o = mkResponse S200 (BReacted "I9" 1 0)
     ∧ reactions (out_store o) = reactions demo ++ [mkReaction "A" "I9" LIKE])
  ∧ (let o := suggest "I9" "A" (Some 7%Z) "G9" "t9" demo in
     status (out_response o) = S201
     ∧ suggestions (out_store o)
       = suggestions demo ++ [mkSuggestion "G9" "I9" 7 "A" "t9"]).
Proof. cbn zeta. split_and!; compute_done. Qed.

(** C4. The same three requests break referential integrity: the session
    store has no orphan, and is reached from a store without orphans; after
    add-item to the missing list "L9" an item refers to no list, after a
    reaction on the missing item "I9" a reaction refers to no item, after a
    suggestion on "I9" a suggestion refers to no item. *)
Theorem unchecked_ids_leave_orphans :
  noOrphans demo_seed ∧ reachable demo_seed demo ∧ noOrphans demo
  ∧ ¬ noOrphans (out_store (run (OpAddItem "L9" "A" (Some 7%Z) "I3" "t9") demo))
  ∧ ¬ noOrphans (out_store (run (OpReact "A" "I9" (Some "LIKE")) demo))
  ∧ ¬ noOrphans (out_store (run (OpSuggest "I9" "A" (Some 7%Z) "G9" "t9") demo)).
Proof. split_and!; [compute_done|apply exec_reachable|compute_done..]. Qed.

(** ** Create list *)

Lemma createList_rejects_empty_name owner rawVisibility rawPhones uuid t1 t2 fresh s :
  createList owner (Some "") rawVisibility rawPhones uuid t1 t2 fresh s
  = reply s [] S400 BZodError.
Proof.
  unfold createList, parseCreateListBody.
  by destruct (parseVisibility rawVisibility).
Qed.

(** With a name that passes [min(1)] and no phone numbers: visibility
    defaults to LINK, the owner is the only participant, and the owner
    (when in the store) gets the list id; the stored name is the trimmed one. *)
Lemma createList_without_phones owner n uuid t1 t2 fresh s :
  1 ≤ String.length n →
  let o := createList owner (Some n) None None uuid t1 t2 fresh s in
  status (out_response o) = S201
  ∧ out_store o
    = set_shopLists
        (mkShopList uuid (trim n) LINK owner t1 t2 [owner] :: shopLists s)
        (set_users (joinUsers uuid owner (users s)) s).
Proof.
  intros Hn. unfold createList, parseCreateListBody. cbn [parseVisibility].
  rewrite decide_True by done. cbn. unfold joinUsers.
  by destruct (list_find _ (users s)) as [[i me]|].
Qed.

(** C8. The name is validated before it is trimmed: a name of one space
    passes [min(1)], and the list is stored, with status 201, under the
    empty name (visibility LINK, the owner its only participant). *)
Theorem createList_blank_name_stored_empty
    (owner uuid t1 t2 : string) (fresh : nat → string * string * string) (s : Store) :
  let o := createList owner (Some " ") None None uuid t1 t2 fresh s in
  status (out_response o) = S201
  ∧ head (shopLists (out_store o))
    = Some (mkShopList uuid "" LINK owner t1 t2 [owner]).
Proof.
  cbn zeta.
  destruct (createList_without_phones owner " " uuid t1 t2 fresh s) as [-> ->];
    [simpl; lia|done].
Qed.

(** ** Items in a list *)

(** C9, as stated, fails: after an add-item request for the list id "L9",
    which no list has, the listing for "L9" is not empty. *)
Lemma getItems_missing_list_not_empty :
  reachable demo_seed demo_orphan
  ∧ ¬ listExists demo_orphan "L9"
  ∧ out_response (getItems "L9" demo_orphan)
    = mkResponse S200
        (BItems [enrichItem demo_orphan (mkItem "I3" 7 "L9" "A" "t9")])
  ∧ body (out_response (getItems "L9" demo_orphan)) ≠ BItems [].
Proof. split_and!; [apply exec_reachable|compute_done|compute_done|done]. Qed.

(** C9, amended. For any list id, existing or not, the listing answers 200,
    never not found, and leaves the store alone; its body is the enrichment
    of a rearrangement of exactly the items whose owning list-id is that id;
    so it is empty whenever no stored item carries the id. *)
Theorem getItems_lists_owned_items `{ArraySort} (s : Store) (listId : string) :
  let o := getItems listId s in
  out_store o = s ∧ out_emits o = [] ∧ status (out_response o) = S200
  ∧ (∃ items, body (out_response o) = BItems (enrichItem s <$> items)
       ∧ items ≡ₚ filter (λ i, shopListId i = listId) (shopListItems s))
  ∧ ((∀ it, it ∈ shopListItems s → shopListId it ≠ listId) →
       body (out_response o) = BItems []).
Proof.
  cbn zeta. unfold getItems. cbn [out_store out_emits out_response reply status body].
  split_and!; try done.
  - eexists. split; [done|]. apply array_sort_perm.
  - intros Hnone.
    assert (filter (λ i, shopListId i = listId) (shopListItems s) = []) as ->.
    { apply filter_nil_Forall, Forall_forall. intros it Hit. by apply Hnone. }
    pose proof (array_sort_perm _ byAddedAtDesc (@nil ShopListItem)) as Hp.
    apply Permutation_nil_r in Hp. by rewrite Hp.
Qed.

(** ** Scenarios *)

(** A creates "Gifts" and adds product 7, B joins and likes the item: the
    listing shows one item with one LIKE, and the react response carries
    likes 1, dislikes 0 to the list's room. *)
Example scenario_gifts :
  (∃ ei, body (out_response (getItems "L1" demo)) = BItems [ei]
         ∧ ei_reactions ei = [mkReaction "B" "I1" LIKE])
  ∧ (let o := react "B" "I1" (Some "LIKE") (exec demo_seed (take 3 demo_ops)) in
     out_response o = mkResponse S200 (BReacted "I1" 1 0)
     ∧ out_emits o = [mkEmit "list:L1" "wishlist:item_reacted" (BReacted "I1" 1 0)]).
Proof. split; [eexists; split; compute_done|cbn zeta; split; compute_done]. Qed.

(** A LIKE by A and a DISLIKE by B on the same item, in either order, leave
    two reactions, counted as likes 1 and dislikes 1. *)
Example scenario_two_users :
  let s := exec demo_seed (take 3 demo_ops) in
  let ab := exec s [OpReact "A" "I1" (Some "LIKE"); OpReact "B" "I1" (Some "DISLIKE")] in
  let ba := exec s [OpReact "B" "I1" (Some "DISLIKE"); OpReact "A" "I1" (Some "LIKE")] in
  length (reactions ab) = 2 ∧ length (reactions ba) = 2
  ∧ (likesOf "I1" (reactions ab), dislikesOf "I1" (reactions ab)) = (1, 1)
  ∧ (likesOf "I1" (reactions ba), dislikesOf "I1" (reactions ba)) = (1, 1).
Proof. cbn zeta. split_and!; compute_done. Qed.

(** Removing an item id that no item has is answered 404 and changes nothing. *)
Example scenario_remove_missing :
  removeItem "I9" demo = reply demo [] S404 (BError "item not found").
Proof. compute_done. Qed.

(** * Further properties of the handlers *)

(** ** Rejected requests *)

(** A request answered 400 or 404 has left the store as it was and has
    emitted no event, whichever handler answered. *)
Theorem rejected_changes_nothing (op : Op) (s : Store) :
  status (out_response (run op s)) = S400 ∨ status (out_response (run op s)) = S404 →
  out_store (run op s) = s ∧ out_emits (run op s) = [].
Proof.
  destruct op; cbn [run].
  - unfold login. destruct (parseLoginBody _ _) as [[ph nm]|]; [|done].
    destruct (list_find _ _) as [[i u]|]; [destruct (decide _)|]; by intros [|].
  - unfold createList. destruct (parseCreateListBody _ _ _); [|done].
    destruct (foldl _ _ _) as [[us1 parts1] added]. by intros [|].
  - unfold deleteList. destruct (js_find _ _); [|done]. by intros [|].
  - unfold joinList. destruct (list_find _ _) as [[i l]|]; [|done]. by intros [|].
  - unfold addItem. destruct rawProductId as [[|pid|pid]|]; try done;
      (destruct (js_find _ _); [|done]); by intros [|].
  - unfold removeItem. destruct (js_find _ _); [|done]. by intros [|].
  - unfold react. destruct (parseKind _); [|done]. by intros [|].
  - unfold suggest. destruct rawProductId as [pid|]; [|done].
    destruct (js_find _ _); [|done]. by intros [|].
Qed.

Lemma rejected_changes_nothing_witness :
  status (out_response (run (OpAddItem "L1" "A" (Some 8%Z) "I3" "t9") demo)) = S404
  ∧ out_store (run (OpAddItem "L1" "A" (Some 8%Z) "I3" "t9") demo) = demo.
Proof.
  assert (status (out_response (run (OpAddItem "L1" "A" (Some 8%Z) "I3" "t9") demo)) = S404)
    as H404 by compute_done.
  split; [exact H404|].
  apply (rejected_changes_nothing (OpAddItem "L1" "A" (Some 8%Z) "I3" "t9") demo).
  by right.
Defined.

(** Delete-list and join-list on an id no list has, and remove-item on an
    id no item has, are answered 404 with the route's own message. *)
Theorem missing_target_is_404 (s : Store) (id uid now : string) :
  (¬ listExists s id →
     out_response (deleteList id s) = mkResponse S404 (BError "list not found")
     ∧ out_response (joinList id uid now s) = mkResponse S404 (BError "list not found"))
  ∧ (¬ itemExists s id →
     out_response (removeItem id s) = mkResponse S404 (BError "item not found")).
Proof.
  split.
  - intros Hno. by rewrite deleteList_missing, joinList_missing.
  - intros Hno. by rewrite removeItem_missing.
Qed.

(** ** Products *)

Lemma run_products op s : products (out_store (run op s)) = products s.
Proof.
  destruct op; cbn [run].
  - unfold login. destruct (parseLoginBody _ _) as [[ph nm]|]; [|done].
    destruct (list_find _ _) as [[i u]|]; [by destruct (decide _)|done].
  - unfold createList. destruct (parseCreateListBody _ _ _); [|done].
    by destruct (foldl _ _ _) as [[us1 parts1] added].
  - unfold deleteList. by destruct (js_find _ _).
  - unfold joinList. by destruct (list_find _ _) as [[i l]|].
  - unfold addItem. destruct rawProductId as [[|pid|pid]|]; try done;
      by destruct (js_find _ _).
  - unfold removeItem. by destruct (js_find _ _).
  - unfold react. by destruct (parseKind _).
  - unfold suggest. destruct rawProductId as [pid|]; [|done].
    by destruct (js_find _ _).
Qed.

(** No sequence of requests changes the product catalogue. *)
Theorem products_never_change (s0 s : Store) :
  reachable s0 s → products s = products s0.
Proof.
  induction 1 as [|s op _ IH]; [done|]. by rewrite run_products.
Qed.

Lemma products_never_change_witness :
  reachable demo_seed demo2 ∧ products demo2 = products demo_seed.
Proof.
  assert (reachable demo_seed demo2) as Hr by apply exec_reachable.
  split; [exact Hr|]. apply (products_never_change demo_seed demo2 Hr).
Defined.

(** ** Remove item *)

Lemma Store_eta s :
  mkStore (users s) (products s) (shopLists s) (shopListItems s)
          (reactions s) (suggestions s) = s.
Proof. by destruct s. Qed.

Lemma removeItem_found s id :
  itemExists s id →
  ∃ item, js_find (λ i, item_id i = id) (shopListItems s) = Some item
    ∧ item ∈ shopListItems s ∧ item_id item = id
    ∧ removeItem id s
      = reply (mkStore (users s) (products s) (shopLists s)
                 (filter (λ i, item_id i ≠ id) (shopListItems s))
                 (filter (λ r, itemId r ≠ id) (reactions s))
                 (filter (λ sg, sg_itemId sg ≠ id) (suggestions s)))
              [mkEmit ("list:" +:+ shopListId item) "wishlist:item_removed" (BIdOnly id)]
              S200 BOk.
Proof.
  intros Hex.
  destruct (list_find_Some_Exists (λ i, item_id i = id) (shopListItems s) Hex)
    as (k & item & Hf).
  exists item. unfold removeItem, js_find. rewrite Hf. cbn [fmap option_fmap option_map snd].
  apply list_find_Some_P in Hf as [? ?]. done.
Qed.

(** Removing an existing item [id]: no item has the id afterwards and no
    reaction or suggestion refers to it; every item with another id and
    every reaction and suggestion on another item stays, nothing is added or
    reordered; users, products and lists are untouched; and the one event
    goes to the room of the list that owned the (first) item with that id. *)
Theorem removeItem_cascades (s : Store) (id : string) :
  itemExists s id →
  let o := removeItem id s in
  let s' := out_store o in
  out_response o = mkResponse S200 BOk
  ∧ ¬ itemExists s' id
  ∧ (∀ r, r ∈ reactions s' → itemId r ≠ id)
  ∧ (∀ sg, sg ∈ suggestions s' → sg_itemId sg ≠ id)
  ∧ (∀ it, it ∈ shopListItems s → item_id it ≠ id → it ∈ shopListItems s')
  ∧ (∀ r, r ∈ reactions s → itemId r ≠ id → r ∈ reactions s')
  ∧ (∀ sg, sg ∈ suggestions s → sg_itemId sg ≠ id → sg ∈ suggestions s')
  ∧ shopListItems s' `sublist_of` shopListItems s
  ∧ reactions s' `sublist_of` reactions s
  ∧ suggestions s' `sublist_of` suggestions s
  ∧ users s' = users s ∧ products s' = products s ∧ shopLists s' = shopLists s
  ∧ (∃ item, js_find (λ i, item_id i = id) (shopListItems s) = Some item
       ∧ out_emits o
         = [mkEmit ("list:" +:+ shopListId item) "wishlist:item_removed" (BIdOnly id)]).
Proof.
  intros Hex. destruct (removeItem_found s id Hex) as (item & Hf & Hin & Hid & ->).
  cbn zeta. unfold itemExists.
  cbn [out_store out_response out_emits reply users products shopLists
       shopListItems reactions suggestions].
  split_and!; try done; try apply sublist_filter.
  - intros (it & [Hne _]%list_elem_of_filter & Heq)%Exists_exists. by apply Hne.
  - by intros r [Hne _]%list_elem_of_filter.
  - by intros sg [Hne _]%list_elem_of_filter.
  - intros it ? ?. by apply list_elem_of_filter.
  - intros r ? ?. by apply list_elem_of_filter.
  - intros sg ? ?. by apply list_elem_of_filter.
  - by exists item.
Qed.

Lemma removeItem_cascades_witness :
  itemExists demo2 "I1"
  ∧ ¬ itemExists (out_store (removeItem "I1" demo2)) "I1"
  ∧ (∀ r, r ∈ reactions (out_store (removeItem "I1" demo2)) → itemId r ≠ "I1").
Proof.
  assert (itemExists demo2 "I1") as Hex by compute_done.
  split_and!; [exact Hex|..]; apply (removeItem_cascades demo2 "I1" Hex).
Defined.

(** Removing the same item id a second time is answered 404 and changes
    nothing more, whether or not the first request found the item. *)
Theorem removeItem_twice (s : Store) (id : string) :
  let s1 := out_store (removeItem id s) in
  removeItem id s1 = reply s1 [] S404 (BError "item not found").
Proof.
  cbn zeta. apply removeItem_missing.
  destruct (decide (itemExists s id)) as [Hex|Hno].
  - destruct (removeItem_found s id Hex) as (item & _ & _ & _ & ->).
    unfold itemExists. cbn [out_store reply shopListItems].
    intros (it & [Hne _]%list_elem_of_filter & Heq)%Exists_exists. by apply Hne.
  - by rewrite removeItem_missing.
Qed.

(** Add-item followed by remove-item of the id just drawn gives the store
    back, when that id was not in use (by an item, or as the target of a
    reaction or suggestion); this holds whether or not the add-item request
    was accepted. *)
Theorem addItem_removeItem_roundtrip (s : Store) (listId uid : string)
    (rawProductId : option Z) (uuid now : string) :
  ¬ itemExists s uuid →
  Forall (λ r, itemId r ≠ uuid) (reactions s) →
  Forall (λ sg, sg_itemId sg ≠ uuid) (suggestions s) →
  out_store (removeItem uuid (out_store (addItem listId uid rawProductId uuid now s))) = s.
Proof.
  intros Hno Hr Hs.
  assert (out_store (addItem listId uid rawProductId uuid now s) = s
          ∨ out_store (addItem listId uid rawProductId uuid now s)
            = set_shopListItems
                (mkItem uuid (default 0%Z rawProductId) listId uid now :: shopListItems s) s)
    as [->| ->].
  { unfold addItem. destruct rawProductId as [[|pid|pid]|]; try (by left);
      (destruct (js_find _ _); [by right|by left]). }
  - by rewrite removeItem_missing.
  - unfold removeItem, js_find. cbn [shopListItems set_shopListItems list_find item_id].
    rewrite decide_True by done.
    cbn [fmap option_fmap option_map snd out_store reply users products shopLists
         reactions suggestions].
    rewrite filter_cons_False by (cbn; tauto).
    rewrite (filter_not_id (λ i, item_id i = uuid)).
    2:{ apply Forall_forall. intros it Hit Heq. apply Hno, Exists_exists. eauto. }
    rewrite (filter_not_id (λ r, itemId r = uuid)) by done.
    rewrite (filter_not_id (λ sg, sg_itemId sg = uuid)) by done.
    by destruct s.
Qed.

Lemma addItem_removeItem_roundtrip_witness :
  ¬ itemExists demo2 "I3"
  ∧ out_store (removeItem "I3" (out_store (addItem "L1" "B" (Some 7%Z) "I3" "t9" demo2)))
    = demo2.
Proof.
  assert (¬ itemExists demo2 "I3") as Hno by compute_done.
  split; [exact Hno|].
  apply (addItem_removeItem_roundtrip demo2 "L1" "B" (Some 7%Z) "I3" "t9" Hno);
    compute_done.
Defined.

(** ** React: what a request leaves alone *)

Section edit_at_match.
Context {A : Type} (P : A → Prop) `{∀ x, Decision (P x)}.

Lemma filter_not_delete (l : list A) i x :
  l !! i = Some x → P x → filter (λ y, ¬ P y) (delete i l) = filter (λ y, ¬ P y) l.
Proof.
  revert i. induction l as [|a l IH]; intros [|i]; simpl; try done.
  - intros [= ->] Hx. by rewrite filter_cons_False by tauto.
  - intros Hi Hx. rewrite !filter_cons, (IH i) by done. done.
Qed.

Lemma filter_not_alter (f : A → A) (l : list A) i x :
  l !! i = Some x → P x → P (f x) →
  filter (λ y, ¬ P y) (alter f i l) = filter (λ y, ¬ P y) l.
Proof.
  revert i. induction l as [|a l IH]; intros [|i]; simpl; try done.
  - intros [= ->] Hx Hfx. by rewrite !filter_cons_False by tauto.
  - intros Hi Hx Hfx.
    change (list_alter f i l) with (alter f i l).
    rewrite !filter_cons, (IH i) by done. done.
Qed.
End edit_at_match.

Lemma toggle_frame uid iid k rs :
  filter (λ r, ¬ (userId r = uid ∧ itemId r = iid)) (toggle uid iid k rs)
  = filter (λ r, ¬ (userId r = uid ∧ itemId r = iid)) rs.
Proof.
  unfold toggle.
  destruct (list_find _ rs) as [[idx r]|] eqn:Hf.
  - apply list_find_Some in Hf as (Hidx & Hr & _).
    destruct (decide (kind r = k)).
    + by apply (filter_not_delete (λ r, userId r = uid ∧ itemId r = iid) rs idx r).
    + by apply (filter_not_alter (λ r, userId r = uid ∧ itemId r = iid) _ rs idx r).
  - rewrite filter_app, filter_cons_False, filter_nil by (cbn; tauto).
    apply app_nil_r.
Qed.

Lemma count_other_item (Q : Reaction → Prop) `{∀ r, Decision (Q r)} uid iid
    (rs : list Reaction) :
  (∀ r, Q r → itemId r ≠ iid) →
  filter Q rs = filter Q (filter (λ r, ¬ (userId r = uid ∧ itemId r = iid)) rs).
Proof.
  intros HQ. rewrite list_filter_filter. apply list_filter_iff.
  intros r. split; [|tauto]. intros Hr. split; [done|].
  intros [_ Heq]. by apply (HQ r).
Qed.


(** From a store in which [uid] has no reaction on [iid]: the same kind
    twice gives the store back; a kind and then the other one leaves, at the
    end of the array, one reaction of the second kind. *)
Theorem react_twice (s : Store) (uid iid : string) (k k' : Kind) :
  reactionsBy uid iid (reactions s) = [] →
  out_store (react uid iid (Some (kindName k))
               (out_store (react uid iid (Some (kindName k)) s))) = s
  ∧ (k ≠ k' →
     reactions (out_store (react uid iid (Some (kindName k'))
                             (out_store (react uid iid (Some (kindName k)) s))))
     = reactions s ++ [mkReaction uid iid k']).
Proof.
  intros Hnone. unfold react. rewrite !parseKind_kindName.
  cbn [out_store reply reactions set_reactions].
  split.
  - rewrite toggle_twice_same by done. by destruct s.
  - intros Hne. by rewrite toggle_twice_other.
Qed.

Lemma react_twice_witness :
  reactionsBy "A" "I1" (reactions demo) = []
  ∧ out_store (react "A" "I1" (Some "LIKE") (out_store (react "A" "I1" (Some "LIKE") demo)))
    = demo.
Proof.
  assert (reactionsBy "A" "I1" (reactions demo) = []) as Hnone by compute_done.
  split; [exact Hnone|].
  apply (react_twice demo "A" "I1" LIKE DISLIKE Hnone).
Defined.

(** The counts a react response reports are the numbers of LIKE and of
    DISLIKE reactions that the enrichment of the item shows afterwards. *)
Theorem react_counts_match_enrichment (s : Store) (uid : string) (k : Kind)
    (it : ShopListItem) :
  let o := react uid (item_id it) (Some (kindName k)) s in
  let ei := enrichItem (out_store o) it in
  out_response o
  = mkResponse S200
      (BReacted (item_id it)
         (length (filter (λ r, kind r = LIKE) (ei_reactions ei)))
         (length (filter (λ r, kind r = DISLIKE) (ei_reactions ei)))).
Proof.
  cbn zeta. unfold react. rewrite parseKind_kindName.
  cbn [out_response out_store reply enrichItem ei_reactions reactions set_reactions].
  unfold likesOf, dislikesOf. rewrite !list_filter_filter.
  do 3 f_equal; f_equal; apply list_filter_iff; intros r; tauto.
Qed.

(** ** The loop over the phone numbers of create-list *)

Lemma foldl_invariant {A B} (f : A → B → A) (I : list B → A → Prop) a0 (l : list B) :
  I [] a0 → (∀ pre x a, I pre a → I (pre ++ [x]) (f a x)) → I l (foldl f a0 l).
Proof.
  intros H0 Hstep. induction l as [|x l IH] using rev_ind; [done|].
  rewrite foldl_app. by apply Hstep.
Qed.

(** One turn: the phone number's user is found or pushed, sits at index
    [i], and gets the list id; its id joins the participants. *)
Lemma addPhone_turn lid fresh us parts added k ph :
  ∃ us1 i u,
    (us1 = us
     ∨ ∃ new, us1 = us ++ [new] ∧ phoneNumber new = ph ∧ shopListIds new = []
              ∧ list_find (λ x, phoneNumber x = ph) us = None)
    ∧ us1 !! i = Some u ∧ phoneNumber u = ph
    ∧ addPhone lid fresh (us, parts, added) (k, ph)
      = (alter (λ u, set_shopListIds (push_absent lid (shopListIds u)) u) i us1,
         push_absent (user_id u) parts, added ++ [user_id u]).
Proof.
  unfold addPhone, findOrCreateUserByPhone.
  destruct (list_find (λ x, phoneNumber x = ph) us) as [[i u]|] eqn:Hf.
  - apply list_find_Some in Hf as (Hi & Hph & _).
    exists us, i, u. rewrite Hi. split_and!; [by left|done..].
  - destruct (fresh k) as [[uuid t1] t2].
    set (new := mkUser uuid ph _ None None t1 t2 []).
    assert ((us ++ [new]) !! length us = Some new) as Hi.
    { rewrite lookup_app_r by done. by rewrite Nat.sub_diag. }
    exists (us ++ [new]), (length us), new. rewrite Hi.
    split_and!; [right; by exists new|done..].
Qed.

Lemma push_absent_mono x y a : x ∈ a → x ∈ push_absent y a.
Proof.
  unfold push_absent. destruct (decide (y ∈ a)); [done|].
  intros ?. apply elem_of_app. by left.
Qed.

Lemma push_absent_NoDup y a : NoDup a → NoDup (push_absent y a).
Proof.
  unfold push_absent. destruct (decide (y ∈ a)) as [|Hy]; [done|].
  intros Ha. apply NoDup_app. split_and!; [done| |apply NoDup_singleton].
  intros x Hx ->%list_elem_of_singleton. done.
Qed.

(** The loop only makes the edits of [users_step], and only pushes absent
    ids to the participants. *)
Lemma createList_loop lid fresh us0 parts0 (kphs : list (nat * string)) :
  let st := foldl (addPhone lid fresh) (us0, parts0, []) kphs in
  rtc users_step us0 st.1.1
  ∧ (∀ x, x ∈ parts0 → x ∈ st.1.2)
  ∧ (NoDup parts0 → NoDup st.1.2).
Proof.
  cbn zeta.
  apply (foldl_invariant (addPhone lid fresh)
           (λ _ st, rtc users_step us0 st.1.1
                    ∧ (∀ x, x ∈ parts0 → x ∈ st.1.2)
                    ∧ (NoDup parts0 → NoDup st.1.2))).
  - done.
  - intros _ [k ph] [[us parts] added] (Hrtc & Hsub & Hnd). cbn [fst snd] in *.
    destruct (addPhone_turn lid fresh us parts added k ph)
      as (us1 & i & u & Hus1 & Hi & Hph & ->).
    cbn [fst snd]. split_and!.
    + etrans; [exact Hrtc|].
      apply rtc_r with us1; [|apply us_push].
      destruct Hus1 as [->|(new & -> & Hnph & Hnew & Hnone)]; [done|].
      apply rtc_once. apply us_new; [by rewrite Hnph|done].
    + intros x Hx. by apply push_absent_mono, Hsub.
    + intros ?. by apply push_absent_NoDup, Hnd.
Qed.

Lemma run_users_evolve op s : rtc users_step (users s) (users (out_store (run op s))).
Proof.
  destruct op; cbn [run].
  - unfold login. destruct (parseLoginBody _ _) as [[ph nm]|]; [|done].
    destruct (list_find _ _) as [[i u]|] eqn:Hf.
    + destruct (decide _); [|done]. apply rtc_once, us_rename.
    + apply rtc_once. by apply us_new.
  - unfold createList. destruct (parseCreateListBody _ _ _) as [b|]; [|done].
    set (us0 := match list_find _ (users s) with Some _ => _ | None => _ end).
    pose proof (createList_loop uuid fresh us0 (push_absent owner [])
                  (imap pair (default [] (cl_participantPhoneNumbers b)))) as (H1 & _).
    destruct (foldl _ _ _) as [[us1 parts1] added]. cbn [fst snd] in H1.
    cbn [out_store reply users set_shopLists set_users].
    etrans; [|exact H1]. subst us0.
    destruct (list_find _ (users s)) as [[i me]|]; [|done].
    apply rtc_once, us_push.
  - unfold deleteList. destruct (js_find _ _); [|done]. apply rtc_once, us_strip.
  - unfold joinList. destruct (list_find _ (shopLists s)) as [[i l]|]; [|done].
    cbn [out_store reply users set_shopLists set_users].
    destruct (list_find _ (users s)) as [[j u]|]; [|done].
    apply rtc_once, us_push.
  - unfold addItem. destruct rawProductId as [[|pid|pid]|]; try done;
      by destruct (js_find _ _).
  - unfold removeItem. by destruct (js_find _ _).
  - unfold react. by destruct (parseKind _).
  - unfold suggest. destruct rawProductId as [pid|]; [|done].
    by destruct (js_find _ _).
Qed.

Lemma run_lists_evolve op s :
  rtc lists_step (shopLists s) (shopLists (out_store (run op s))).
Proof.
  destruct op; cbn [run].
  - unfold login. destruct (parseLoginBody _ _) as [[ph nm]|]; [|done].
    destruct (list_find _ _) as [[i u]|]; [by destruct (decide _)|done].
  - unfold createList. destruct (parseCreateListBody _ _ _) as [b|]; [|done].
    set (us0 := match list_find _ (users s) with Some _ => _ | None => _ end).
    pose proof (createList_loop uuid fresh us0 (push_absent owner [])
                  (imap pair (default [] (cl_participantPhoneNumbers b))))
      as (_ & Hsub & Hnd).
    destruct (foldl _ _ _) as [[us1 parts1] added]. cbn [fst snd] in Hsub, Hnd.
    cbn [out_store reply shopLists set_shopLists set_users].
    apply rtc_once, ls_new; cbn [ownerId participantIds].
    + apply Hsub, push_absent_elem.
    + apply Hnd, push_absent_NoDup, NoDup_nil_2.
  - unfold deleteList. destruct (js_find _ _); [|done]. apply rtc_once, ls_delete.
  - unfold joinList. destruct (list_find _ (shopLists s)) as [[i l]|] eqn:Hf; [|done].
    cbn [out_store reply shopLists set_shopLists set_users].
    apply rtc_once, ls_join. by apply list_find_Some in Hf as (? & _).
  - unfold addItem. destruct rawProductId as [[|pid|pid]|]; try done;
      by destruct (js_find _ _).
  - unfold removeItem. by destruct (js_find _ _).
  - unfold react. by destruct (parseKind _).
  - unfold suggest. destruct rawProductId as [pid|]; [|done].
    by destruct (js_find _ _).
Qed.

Lemma reachable_evolve s0 s :
  reachable s0 s →
  rtc users_step (users s0) (users s) ∧ rtc lists_step (shopLists s0) (shopLists s).
Proof.
  induction 1 as [|s op _ [IHu IHl]]; [done|]. split.
  - etrans; [exact IHu|apply run_users_evolve].
  - etrans; [exact IHl|apply run_lists_evolve].
Qed.

(** ** Users are never deleted *)

Lemma users_step_same_user us us' :
  users_step us us' →
  ∀ i u, us !! i = Some u → ∃ u', us' !! i = Some u' ∧ same_user u u'.
Proof.
  destruct 1 as [us new _ _|us j n t|us j lid|us id]; intros i u Hi.
  - exists u. split; [by apply lookup_app_l_Some|done].
  - destruct (decide (j = i)) as [->|Hne].
    + exists (set_name n t u). by rewrite list_lookup_alter_eq, Hi.
    + exists u. by rewrite list_lookup_alter_ne.
  - destruct (decide (j = i)) as [->|Hne].
    + eexists. by rewrite list_lookup_alter_eq, Hi.
    + exists u. by rewrite list_lookup_alter_ne.
  - exists (strip_list id u). by rewrite list_lookup_fmap, Hi.
Qed.

Lemma users_evolve_same_user us us' :
  rtc users_step us us' →
  ∀ i u, us !! i = Some u → ∃ u', us' !! i = Some u' ∧ same_user u u'.
Proof.
  induction 1 as [us|us us1 us2 Hstep _ IH]; intros i u Hi.
  - by exists u.
  - destruct (users_step_same_user _ _ Hstep i u Hi) as (u1 & Hi1 & Hs1).
    destruct (IH i u1 Hi1) as (u2 & Hi2 & Hs2).
    exists u2. split; [done|]. unfold same_user in *.
    destruct Hs1 as (? & ? & ? & ? & ?), Hs2 as (? & ? & ? & ? & ?).
    repeat split; congruence.
Qed.

(** Whatever requests follow, a stored user stays at its index with the
    same id, phone number, e-mail, picture and creation time: no handler
    deletes a user or moves one. *)
Theorem users_never_deleted (s0 s : Store) (i : nat) (u : User) :
  reachable s0 s → users s0 !! i = Some u →
  ∃ u', users s !! i = Some u' ∧ same_user u u'.
Proof.
  intros [Hu _]%reachable_evolve. by apply users_evolve_same_user.
Qed.

Lemma users_never_deleted_witness :
  reachable demo_seed demo2 ∧ users demo_seed !! 1 = Some (mkUser "B" "9000000002" "Bilal" None None "t0" "t0" [])
  ∧ ∃ u', users demo2 !! 1 = Some u'
          ∧ same_user (mkUser "B" "9000000002" "Bilal" None None "t0" "t0" []) u'.
Proof.
  assert (reachable demo_seed demo2) as Hr by apply exec_reachable.
  split_and!; [exact Hr|done|].
  by apply (users_never_deleted demo_seed demo2 1 _ Hr).
Defined.

(** ** Phone numbers stay unique *)

Lemma fmap_alter_same {A B} (g : A → B) (f : A → A) i (l : list A) :
  (∀ x, g (f x) = g x) → g <$> alter f i l = g <$> l.
Proof.
  intros Hf. rewrite (list_fmap_alter g f id) by (apply Forall_forall; intros; apply Hf).
  by apply list_alter_id.
Qed.

Lemma users_step_phones us us' :
  users_step us us' → NoDup (phoneNumber <$> us) → NoDup (phoneNumber <$> us').
Proof.
  destruct 1 as [us new Hnone _|us j n t|us j lid|us id]; intros Hnd.
  - rewrite fmap_app. apply NoDup_app. split_and!; [done| |apply NoDup_singleton].
    intros ph (x & -> & Hx)%list_elem_of_fmap Heq%list_elem_of_singleton.
    apply list_find_None in Hnone. rewrite Forall_forall in Hnone.
    by apply (Hnone x).
  - by rewrite fmap_alter_same.
  - by rewrite fmap_alter_same.
  - rewrite <- list_fmap_compose. done.
Qed.

(** From a store in which no two users share a phone number, no sequence
    of requests leads to one in which two do: login and create-list search
    for the number before they push a user. *)
Theorem uniquePhones_reachable (s0 s : Store) :
  uniquePhones s0 → reachable s0 s → uniquePhones s.
Proof.
  unfold uniquePhones. intros H0 [Hu _]%reachable_evolve.
  induction Hu as [|us us1 us2 Hstep _ IH]; [done|].
  by apply IH, (users_step_phones us).
Qed.

Lemma uniquePhones_reachable_witness :
  uniquePhones demo_seed ∧ reachable demo_seed demo2 ∧ uniquePhones demo2.
Proof.
  assert (uniquePhones demo_seed) as H0 by compute_done.
  assert (reachable demo_seed demo2) as Hr by apply exec_reachable.
  split_and!; [exact H0|exact Hr|].
  apply (uniquePhones_reachable demo_seed demo2 H0 Hr).
Defined.

(** ** Participant and membership arrays *)

Lemma users_step_sets us us' :
  users_step us us' →
  Forall (λ u, NoDup (shopListIds u)) us → Forall (λ u, NoDup (shopListIds u)) us'.
Proof.
  destruct 1 as [us new _ Hnew|us j n t|us j lid|us id]; intros Hall.
  - apply Forall_app. split; [done|]. apply Forall_singleton. rewrite Hnew. constructor.
  - apply Forall_alter; [done|]. by intros u _ Hu.
  - apply Forall_alter; [done|]. intros u _ Hu. by apply push_absent_NoDup.
  - apply Forall_fmap. eapply Forall_impl; [exact Hall|].
    intros u Hu. by apply NoDup_filter.
Qed.

Lemma lists_step_sets ls ls' :
  lists_step ls ls' →
  Forall (λ l, NoDup (participantIds l)) ls → Forall (λ l, NoDup (participantIds l)) ls'.
Proof.
  destruct 1 as [ls l _ Hnd|ls i l uid now Hi|ls id]; intros Hall.
  - by apply Forall_cons.
  - apply Forall_insert; [done|]. cbn. apply push_absent_NoDup.
    rewrite Forall_forall in Hall. apply Hall. by eapply list_elem_of_lookup_2.
  - apply Forall_forall. intros l [_ Hl]%list_elem_of_filter.
    rewrite Forall_forall in Hall. by apply Hall.
Qed.

(** The participant array of every list and the membership array of every
    user stay free of duplicates under every sequence of requests. *)
Theorem arraysAreSets_reachable (s0 s : Store) :
  arraysAreSets s0 → reachable s0 s → arraysAreSets s.
Proof.
  intros [Hl0 Hu0] [Hu Hl]%reachable_evolve. split.
  - induction Hl as [|ls ls1 ls2 Hstep _ IH]; [done|].
    by apply IH, (lists_step_sets ls).
  - induction Hu as [|us us1 us2 Hstep _ IH]; [done|].
    by apply IH, (users_step_sets us).
Qed.

Lemma arraysAreSets_reachable_witness :
  arraysAreSets demo_seed ∧ reachable demo_seed demo2 ∧ arraysAreSets demo2.
Proof.
  assert (arraysAreSets demo_seed) as H0 by compute_done.
  assert (reachable demo_seed demo2) as Hr by apply exec_reachable.
  split_and!; [exact H0|exact Hr|].
  apply (arraysAreSets_reachable demo_seed demo2 H0 Hr).
Defined.

Lemma lists_step_owners ls ls' :
  lists_step ls ls' →
  Forall (λ l, ownerId l ∈ participantIds l) ls →
  Forall (λ l, ownerId l ∈ participantIds l) ls'.
Proof.
  destruct 1 as [ls l Hown _|ls i l uid now Hi|ls id]; intros Hall.
  - by apply Forall_cons.
  - apply Forall_insert; [done|]. cbn. apply push_absent_mono.
    rewrite Forall_forall in Hall. apply Hall. by eapply list_elem_of_lookup_2.
  - apply Forall_forall. intros l [_ Hl]%list_elem_of_filter.
    rewrite Forall_forall in Hall. by apply Hall.
Qed.

(** The owner of every list is among its participants, and stays there
    under every sequence of requests: create-list pushes the owner first and
    no handler removes a participant. *)
Theorem ownersParticipate_reachable (s0 s : Store) :
  ownersParticipate s0 → reachable s0 s → ownersParticipate s.
Proof.
  unfold ownersParticipate. intros H0 [_ Hl]%reachable_evolve.
  induction Hl as [|ls ls1 ls2 Hstep _ IH]; [done|].
  by apply IH, (lists_step_owners ls).
Qed.

Lemma ownersParticipate_reachable_witness :
  ownersParticipate demo_seed ∧ reachable demo_seed demo2 ∧ ownersParticipate demo2.
Proof.
  assert (ownersParticipate demo_seed) as H0 by compute_done.
  assert (reachable demo_seed demo2) as Hr by apply exec_reachable.
  split_and!; [exact H0|exact Hr|].
  apply (ownersParticipate_reachable demo_seed demo2 H0 Hr).
Defined.

(** ** Memberships point at lists the user participates in *)

Lemma elem_of_alter {A} (f : A → A) i (l : list A) x :
  x ∈ alter f i l → x ∈ l ∨ ∃ y, l !! i = Some y ∧ x = f y.
Proof.
  intros [k Hk]%list_elem_of_lookup. destruct (decide (i = k)) as [->|Hne].
  - rewrite list_lookup_alter_eq in Hk. destruct (l !! k) as [y|] eqn:Hy; [|done].
    injection Hk as <-. right. by exists y.
  - rewrite list_lookup_alter_ne in Hk by done. left. by eapply list_elem_of_lookup_2.
Qed.

Lemma elem_of_push_absent x y a : x ∈ push_absent y a → x ∈ a ∨ x = y.
Proof.
  unfold push_absent. destruct (decide (y ∈ a)); [by left|].
  intros [?|?%list_elem_of_singleton]%elem_of_app; auto.
Qed.

Lemma membersParticipate_same s s' :
  users s' = users s → shopLists s' = shopLists s →
  membersParticipate s → membersParticipate s'.
Proof. unfold membersParticipate. by intros -> ->. Qed.

Lemma login_membersParticipate ph n uuid t1 t2 s :
  membersParticipate s → membersParticipate (out_store (login ph n uuid t1 t2 s)).
Proof.
  intros HM. unfold login. destruct (parseLoginBody _ _) as [[p nm]|]; [|done].
  destruct (list_find _ _) as [[i u]|] eqn:Hf.
  - destruct (decide _); [|done]. intros u' lid.
    cbn [out_store reply users shopLists set_users].
    intros [Hu'|(u0 & Hu0 & ->)]%elem_of_alter Hlid; [by apply HM|].
    apply (HM u0 lid); [by eapply list_elem_of_lookup_2|done].
  - intros u' lid. cbn [out_store reply users shopLists set_users].
    intros [Hu'| ->%list_elem_of_singleton]%elem_of_app Hlid; [by apply HM|].
    by apply elem_of_nil in Hlid.
Qed.

Lemma deleteList_membersParticipate id s :
  membersParticipate s → membersParticipate (out_store (deleteList id s)).
Proof.
  intros HM. unfold deleteList. destruct (js_find _ _); [|done].
  intros u' lid. cbn [out_store reply users shopLists].
  intros (u & -> & Hu)%list_elem_of_fmap [Hne Hlid]%list_elem_of_filter.
  destruct (HM u lid Hu Hlid) as (l & Hl & Hid & Hin).
  exists l. split_and!; [|done..]. apply list_elem_of_filter. split; [congruence|done].
Qed.

Lemma joinList_membersParticipate listId uid now s :
  membersParticipate s → membersParticipate (out_store (joinList listId uid now s)).
Proof.
  intros HM.
  destruct (list_find (λ l, list_id l = listId) (shopLists s)) as [[i l]|] eqn:Hf;
    [|unfold joinList; by rewrite Hf].
  rewrite (joinList_found _ _ _ _ i l Hf).
  apply list_find_Some in Hf as (Hi & Hid & _).
  set (l' := set_updatedAt now (set_participantIds (push_absent uid (participantIds l)) l)).
  assert (∀ l0 x, l0 ∈ shopLists s → x ∈ participantIds l0 →
            ∃ l1, l1 ∈ <[i:=l']> (shopLists s) ∧ list_id l1 = list_id l0
                  ∧ x ∈ participantIds l1) as Hkeep.
  { intros l0 x [k Hk]%list_elem_of_lookup Hx. destruct (decide (i = k)) as [->|Hne].
    - exists l'. split_and!.
      + apply list_elem_of_lookup. exists k.
        apply list_lookup_insert_eq. by eapply lookup_lt_Some.
      + cbn. congruence.
      + cbn. apply push_absent_mono. congruence.
    - exists l0. split_and!; [|done..]. apply list_elem_of_lookup. exists k.
      by rewrite list_lookup_insert_ne. }
  assert (∀ u lid, u ∈ users s → lid ∈ shopListIds u →
            ∃ l1, l1 ∈ <[i:=l']> (shopLists s) ∧ list_id l1 = lid
                  ∧ user_id u ∈ participantIds l1) as Hold.
  { intros u lid Hu Hlid. destruct (HM u lid Hu Hlid) as (l0 & Hl0 & <- & Hin).
    by apply Hkeep. }
  intros u' lid. cbn [users shopLists set_shopLists set_users]. unfold joinUsers.
  destruct (list_find (λ x, user_id x = uid) (users s)) as [[j u]|] eqn:Hfu;
    [|by apply Hold].
  apply list_find_Some in Hfu as (Hj & Huid & _).
  intros [Hu'|(u0 & Hu0 & ->)]%elem_of_alter; [by apply Hold|].
  assert (u0 = u) as -> by congruence. cbn [shopListIds set_shopListIds user_id].
  intros [Hlid| ->]%elem_of_push_absent.
  - apply Hold; [by eapply list_elem_of_lookup_2|done].
  - exists l'. split_and!.
    + apply list_elem_of_lookup. exists i.
      apply list_lookup_insert_eq. by eapply lookup_lt_Some.
    + done.
    + cbn. rewrite Huid. apply push_absent_elem.
Qed.

Lemma createList_membersParticipate owner n v phs uuid t1 t2 fresh s :
  membersParticipate s →
  membersParticipate (out_store (createList owner n v phs uuid t1 t2 fresh s)).
Proof.
  intros HM. unfold createList. destruct (parseCreateListBody _ _ _) as [b|]; [|done].
  set (us0 := match list_find _ (users s) with Some _ => _ | None => _ end).
  (* what every turn of the loop keeps: a membership is the new list id, its
     user among the participants so far, or an old one *)
  set (J := λ (st : list User * list string * list string),
         ∀ u lid, u ∈ st.1.1 → lid ∈ shopListIds u →
           (lid = uuid ∧ user_id u ∈ st.1.2)
           ∨ ∃ l, l ∈ shopLists s ∧ list_id l = lid ∧ user_id u ∈ participantIds l).
  assert (J (foldl (addPhone uuid fresh) (us0, push_absent owner [], [])
               (imap pair (default [] (cl_participantPhoneNumbers b))))) as HJ.
  { apply (foldl_invariant (addPhone uuid fresh) (λ _ st, J st)).
    - intros u lid. cbn [fst snd]. subst us0.
      destruct (list_find _ (users s)) as [[i me]|] eqn:Hf;
        [|intros; right; by apply HM].
      apply list_find_Some in Hf as (Hi & Hid & _).
      intros [Hu|(u0 & Hu0 & ->)]%elem_of_alter; [intros; right; by apply HM|].
      assert (u0 = me) as -> by congruence.
      cbn [shopListIds set_shopListIds user_id].
      intros [Hlid| ->]%elem_of_push_absent.
      + right. apply HM; [by eapply list_elem_of_lookup_2|done].
      + left. split; [done|]. rewrite Hid. apply push_absent_elem.
    - intros _ [k ph] [[us parts] added] HJst.
      destruct (addPhone_turn uuid fresh us parts added k ph)
        as (us1 & i & u0 & Hus1 & Hi & Hph & ->).
      assert (∀ u lid, u ∈ us1 → lid ∈ shopListIds u →
                (lid = uuid ∧ user_id u ∈ push_absent (user_id u0) parts)
                ∨ ∃ l, l ∈ shopLists s ∧ list_id l = lid
                       ∧ user_id u ∈ participantIds l) as Hus.
      { intros u lid Hu Hlid.
        assert (u ∈ us ∨ shopListIds u = []) as [Hin|Hnil].
        { destruct Hus1 as [->|(new & -> & _ & Hnew & _)]; [by left|].
          apply elem_of_app in Hu as [?| ->%list_elem_of_singleton]; auto. }
        - destruct (HJst u lid Hin Hlid) as [[-> Hp]|?]; [left|by right].
          split; [done|]. by apply push_absent_mono.
        - rewrite Hnil in Hlid. by apply elem_of_nil in Hlid. }
      intros u lid. cbn [fst snd].
      intros [Hu|(u1 & Hu1 & ->)]%elem_of_alter; [by apply Hus|].
      assert (u1 = u0) as -> by congruence.
      cbn [shopListIds set_shopListIds user_id].
      intros [Hlid| ->]%elem_of_push_absent.
      + apply Hus; [by eapply list_elem_of_lookup_2|done].
      + left. split; [done|]. apply push_absent_elem. }
  destruct (foldl _ _ _) as [[us1 parts1] added]. subst J. cbn [fst snd] in HJ.
  intros u lid. cbn [out_store reply users shopLists set_shopLists set_users].
  intros Hu Hlid. destruct (HJ u lid Hu Hlid) as [[-> Hp]|(l & Hl & Hid & Hin)].
  - eexists. split; [by left|]. done.
  - exists l. split; [by right|done].
Qed.

Lemma run_membersParticipate op s :
  membersParticipate s → membersParticipate (out_store (run op s)).
Proof.
  intros HM. destruct op; cbn [run].
  - by apply login_membersParticipate.
  - by apply createList_membersParticipate.
  - by apply deleteList_membersParticipate.
  - by apply joinList_membersParticipate.
  - apply (membersParticipate_same s); [..|done]; unfold addItem;
      destruct rawProductId as [[|pid|pid]|]; try done; by destruct (js_find _ _).
  - apply (membersParticipate_same s); [..|done]; unfold removeItem;
      by destruct (js_find _ _).
  - apply (membersParticipate_same s); [..|done]; unfold react;
      by destruct (parseKind _).
  - apply (membersParticipate_same s); [..|done]; unfold suggest;
      (destruct rawProductId as [pid|]; [|done]); by destruct (js_find _ _).
Qed.

(** The membership side of the participant relation is kept by every
    sequence of requests: whenever a user's membership array holds a list
    id, a list with that id exists and has the user among its participants
    (join and create-list write both sides, delete-list strips the id from
    every user). *)
Theorem membersParticipate_reachable (s0 s : Store) :
  membersParticipate s0 → reachable s0 s → membersParticipate s.
Proof.
  intros H0. induction 1 as [|s op _ IH]; [done|].
  by apply run_membersParticipate.
Qed.

Lemma membersParticipate_reachable_witness :
  membersParticipate demo_seed ∧ reachable demo_seed demo2 ∧ membersParticipate demo2.
Proof.
  assert (membersParticipate demo_seed) as H0.
  { intros u lid Hu Hlid. exfalso. revert Hlid.
    apply list_elem_of_In in Hu. simpl in Hu.
    destruct Hu as [<-|[<-|[]]]; apply not_elem_of_nil. }
  assert (reachable demo_seed demo2) as Hr by apply exec_reachable.
  split_and!; [exact H0|exact Hr|].
  apply (membersParticipate_reachable demo_seed demo2 H0 Hr).
Defined.

(** ** Login *)

Lemma list_find_app_new {A} (P : A → Prop) `{∀ x, Decision (P x)} (l : list A) x :
  list_find P l = None → P x → list_find P (l ++ [x]) = Some (length l, x).
Proof.
  intros Hnone Hx. rewrite list_find_app_r by done.
  cbn [list_find]. by rewrite decide_True by done.
Qed.

Lemma login_valid rawPhone rawName ph n uuid t1 t2 s :
  parseLoginBody rawPhone rawName = Some (ph, n) →
  ∃ u, out_response (login rawPhone rawName uuid t1 t2 s) = mkResponse S200 (BLogin u)
       ∧ out_emits (login rawPhone rawName uuid t1 t2 s) = []
       ∧ js_find (λ x, phoneNumber x = ph)
           (users (out_store (login rawPhone rawName uuid t1 t2 s))) = Some u
       ∧ phoneNumber u = ph ∧ user_name u = n.
Proof.
  intros Hparse. unfold login. rewrite Hparse.
  destruct (list_find _ (users s)) as [[i u]|] eqn:Hf.
  - pose proof Hf as (Hi & Hph & _)%list_find_Some.
    destruct (decide (user_name u ≠ n)) as [Hne|Heq].
    + exists (set_name n t1 u). split_and!; try done.
      cbn [out_store reply users set_users]. unfold js_find.
      by rewrite (list_find_alter_same (λ x, phoneNumber x = ph) _ _ i u).
    + exists u. split_and!; try done.
      * unfold js_find. cbn [out_store reply]. by rewrite Hf.
      * by apply dec_stable.
  - eexists. split_and!; try done.
    cbn [out_store reply users set_users]. unfold js_find.
    by rewrite list_find_app_new.
Qed.

(** A valid login answers 200 with the user that is afterwards the first
    stored user with the phone number, and that user bears the name given;
    an invalid body (phone number shorter than 5 code units, empty name, or
    a missing field) answers 400. *)
Theorem login_returns_stored_user (rawPhone rawName : option string)
    (uuid t1 t2 : string) (s : Store) :
  let o := login rawPhone rawName uuid t1 t2 s in
  match rawPhone, rawName with
  | Some ph, Some n =>
      if decide (5 ≤ js_length ph ∧ 1 ≤ String.length n)
      then ∃ u, out_response o = mkResponse S200 (BLogin u)
                ∧ js_find (λ x, phoneNumber x = ph) (users (out_store o)) = Some u
                ∧ phoneNumber u = ph ∧ user_name u = n
      else o = reply s [] S400 BZodError
  | _, _ => o = reply s [] S400 BZodError
  end.
Proof.
  cbn zeta.
  destruct rawPhone as [ph|], rawName as [n|]; try done.
  destruct (decide _) as [Hok|Hbad].
  - destruct (login_valid (Some ph) (Some n) ph n uuid t1 t2 s) as (u & ? & _ & ? & ? & ?).
    { unfold parseLoginBody. by rewrite decide_True. }
    by exists u.
  - unfold login, parseLoginBody. by rewrite decide_False.
Qed.

(** Logging in again with the same phone number and name, whatever ids and
    times are drawn, changes nothing and returns the same user. *)
Theorem login_again_is_noop (rawPhone rawName : option string)
    (uuid t1 t2 uuid' t1' t2' : string) (s : Store) :
  let o1 := login rawPhone rawName uuid t1 t2 s in
  let o2 := login rawPhone rawName uuid' t1' t2' (out_store o1) in
  out_store o2 = out_store o1 ∧ out_response o2 = out_response o1.
Proof.
  cbn zeta.
  destruct (parseLoginBody rawPhone rawName) as [[ph n]|] eqn:Hparse;
    [|unfold login; by rewrite Hparse].
  destruct (login_valid rawPhone rawName ph n uuid t1 t2 s Hparse)
    as (u & -> & _ & Hfind & _ & Hname).
  generalize dependent (out_store (login rawPhone rawName uuid t1 t2 s)).
  intros s1 Hfind. unfold login. rewrite Hparse. unfold js_find in Hfind.
  destruct (list_find _ (users s1)) as [[j u1]|]; [|done].
  injection Hfind as ->. by rewrite decide_False by (intros Hne; by apply Hne).
Qed.

(** ** Create list: the stored name, the phone numbers, the listing *)

Lemma string_app_cons (x : ascii) (a b : string) : String x a +:+ b = String x (a +:+ b).
Proof. reflexivity. Qed.

Lemma skip_space_shorter s r : skip_space s = Some r → String.length r < String.length s.
Proof.
  destruct s as [|a [|b [|c r3]]]; cbn [skip_space]; try done;
    repeat case_match; intros ?; simplify_eq; cbn [String.length]; try lia.
Qed.

Lemma trimStart_skip s :
  trimStart s = match skip_space s with Some r => trimStart r | None => s end.
Proof.
  destruct s as [|a [|b [|c r3]]]; cbn [skip_space trimStart]; [done|..];
    (destruct (is_space a); [done|]); [done|..];
    (destruct (is_space2 a b); [done|]); [done|].
  by destruct (is_space3 a b c).
Qed.

Lemma all_space_skip s :
  all_space s = match s with
                | EmptyString => true
                | _ => match skip_space s with Some r => all_space r | None => false end
                end.
Proof.
  destruct s as [|a [|b [|c r3]]]; cbn [skip_space all_space]; [done|..];
    (destruct (is_space a); [done|]); [done|..];
    (destruct (is_space2 a b); [done|]); [done|].
  by destruct (is_space3 a b c).
Qed.

(** Induction along the white space a string begins with. *)
Lemma skip_space_ind (P : string → Prop) :
  (∀ s, skip_space s = None → P s) →
  (∀ s r, skip_space s = Some r → P r → P s) →
  ∀ s, P s.
Proof.
  intros Hstop Hskip s.
  remember (String.length s) as n eqn:Hn. revert s Hn.
  induction (lt_wf n) as [n _ IH]. intros s ->.
  destruct (skip_space s) as [r|] eqn:Hs; [|by apply Hstop].
  apply (Hskip s r Hs). eapply IH; [|done]. by apply skip_space_shorter.
Qed.

Lemma skip_space_app p q r : skip_space p = Some r → skip_space (p +:+ q) = Some (r +:+ q).
Proof.
  destruct p as [|a [|b [|c r3]]]; cbn [skip_space]; [done|..];
    rewrite ?string_app_cons; cbn [skip_space];
    (destruct (is_space a); [by intros [= <-]|]); [done|..];
    rewrite ?string_app_cons;
    (destruct (is_space2 a b); [by intros [= <-]|]); [done|].
  destruct (is_space3 a b c); [by intros [= <-]|done].
Qed.

Lemma trimStart_empty s : trimStart s = "" ↔ all_space s = true.
Proof.
  induction s as [s Hs|s r Hs IH] using skip_space_ind;
    rewrite trimStart_skip, all_space_skip, Hs; [|by destruct s].
  destruct s; [done|]. split; discriminate.
Qed.

(** What [trimStart] leaves does not begin with white space. *)
Lemma skip_space_trimStart s : skip_space (trimStart s) = None.
Proof.
  induction s as [s Hs|s r Hs IH] using skip_space_ind;
    rewrite trimStart_skip, Hs; done.
Qed.

Lemma trimStart_fixed s : skip_space s = None → trimStart s = s.
Proof. intros Hs. by rewrite trimStart_skip, Hs. Qed.

Lemma trimStart_idemp s : trimStart (trimStart s) = trimStart s.
Proof. apply trimStart_fixed, skip_space_trimStart. Qed.

Lemma all_space_app p q : all_space p = true → all_space q = true → all_space (p +:+ q) = true.
Proof.
  intros Hp Hq. induction p as [p Hs|p r Hs IH] using skip_space_ind.
  - rewrite all_space_skip, Hs in Hp. by destruct p.
  - rewrite all_space_skip, Hs in Hp. destruct p as [|a p]; [done|].
    rewrite all_space_skip, (skip_space_app _ _ _ Hs). rewrite string_app_cons. by apply IH.
Qed.

Lemma trimEnd_unfold c r :
  trimEnd (String c r) = if all_space (String c r) then "" else String c (trimEnd r).
Proof. reflexivity. Qed.

Lemma trimEnd_empty s : trimEnd s = "" ↔ all_space s = true.
Proof. destruct s as [|c r]; [done|]. rewrite trimEnd_unfold. by destruct (all_space _). Qed.

(** [trimEnd] cuts off a tail of white space. *)
Lemma trimEnd_tail s : ∃ t, s = trimEnd s +:+ t ∧ all_space t = true.
Proof.
  induction s as [|c r (t & Ht & Hall)]; [by exists ""|].
  rewrite trimEnd_unfold. destruct (all_space (String c r)) eqn:Hs.
  - by exists (String c r).
  - exists t. by rewrite string_app_cons, <- Ht.
Qed.

Lemma trimEnd_idemp s : trimEnd (trimEnd s) = trimEnd s.
Proof.
  induction s as [|c r IH]; [done|]. rewrite trimEnd_unfold.
  destruct (all_space (String c r)) eqn:Hs; [done|].
  rewrite trimEnd_unfold. destruct (all_space (String c (trimEnd r))) eqn:Hs'.
  - destruct (trimEnd_tail r) as (t & Ht & Hall).
    rewrite Ht, <- string_app_cons, all_space_app in Hs; done.
  - by rewrite IH.
Qed.

Lemma skip_space_trimEnd s : skip_space s = None → skip_space (trimEnd s) = None.
Proof.
  intros Hs. destruct (skip_space (trimEnd s)) as [r|] eqn:Hr; [|done].
  destruct (trimEnd_tail s) as (t & Ht & _).
  rewrite Ht, (skip_space_app _ _ _ Hr) in Hs. done.
Qed.

Lemma trim_empty s : trim s = "" ↔ all_space s = true.
Proof.
  unfold trim. by rewrite trimEnd_empty, <- trimStart_empty, trimStart_idemp, trimStart_empty.
Qed.

Lemma trim_idemp s : trim (trim s) = trim s.
Proof.
  unfold trim. rewrite (trimStart_fixed (trimEnd _)).
  - apply trimEnd_idemp.
  - apply skip_space_trimEnd, skip_space_trimStart.
Qed.

Lemma createList_accepted owner rawName rawVisibility rawPhones uuid t1 t2 fresh s b :
  parseCreateListBody rawName rawVisibility rawPhones = Some b →
  ∃ us1 parts1 added,
    foldl (addPhone uuid fresh)
      (match list_find (λ u, user_id u = owner) (users s) with
       | Some (i, _) =>
           alter (λ u, set_shopListIds (push_absent uuid (shopListIds u)) u) i (users s)
       | None => users s
       end, push_absent owner [], [])
      (imap pair (default [] (cl_participantPhoneNumbers b)))
    = (us1, parts1, added)
    ∧ status (out_response
                (createList owner rawName rawVisibility rawPhones uuid t1 t2 fresh s)) = S201
    ∧ out_store (createList owner rawName rawVisibility rawPhones uuid t1 t2 fresh s)
      = set_shopLists
          (mkShopList uuid (trim (cl_name b)) (default LINK (cl_visibility b))
             owner t1 t2 parts1 :: shopLists s)
          (set_users us1 s).
Proof.
  intros Hb. unfold createList. rewrite Hb.
  destruct (foldl _ _ _) as [[us1 parts1] added]. by exists us1, parts1, added.
Qed.

Lemma elem_of_alter_keep {A} (f : A → A) i (l : list A) x :
  x ∈ l → x ∈ alter f i l ∨ f x ∈ alter f i l.
Proof.
  intros [k Hk]%list_elem_of_lookup. destruct (decide (i = k)) as [->|Hne].
  - right. apply list_elem_of_lookup. exists k. by rewrite list_lookup_alter_eq, Hk.
  - left. apply list_elem_of_lookup. exists k. by rewrite list_lookup_alter_ne.
Qed.

Lemma createList_loop_phones lid fresh us0 parts0 (kphs : list (nat * string)) :
  let st := foldl (addPhone lid fresh) (us0, parts0, []) kphs in
  ∀ k ph, (k, ph) ∈ kphs →
    ∃ u, u ∈ st.1.1 ∧ phoneNumber u = ph ∧ user_id u ∈ st.1.2 ∧ lid ∈ shopListIds u.
Proof.
  cbn zeta.
  apply (foldl_invariant (addPhone lid fresh)
           (λ pre st, ∀ k ph, (k, ph) ∈ pre →
              ∃ u, u ∈ st.1.1 ∧ phoneNumber u = ph ∧ user_id u ∈ st.1.2
                   ∧ lid ∈ shopListIds u)).
  - intros k ph Hin. by apply elem_of_nil in Hin.
  - intros pre [k0 ph0] [[us parts] added] IH k ph.
    destruct (addPhone_turn lid fresh us parts added k0 ph0)
      as (us1 & i & u0 & Hus1 & Hi & Hph & ->).
    cbn [fst snd] in *.
    intros [Hin|[= -> ->]%list_elem_of_singleton]%elem_of_app.
    + destruct (IH k ph Hin) as (u & Hu & Hphu & Hid & Hlid).
      assert (u ∈ us1) as Hu1.
      { destruct Hus1 as [->|(new & -> & _)]; [done|]. apply elem_of_app. by left. }
      destruct (elem_of_alter_keep
                  (λ u, set_shopListIds (push_absent lid (shopListIds u)) u) i us1 u Hu1)
        as [Hkeep|Hkeep].
      * exists u. split_and!; [done|done|by apply push_absent_mono|done].
      * eexists. split_and!; [exact Hkeep|done|by apply push_absent_mono|].
        cbn. by apply push_absent_mono.
    + eexists. split_and!.
      * apply list_elem_of_lookup. exists i. by rewrite list_lookup_alter_eq, Hi.
      * done.
      * apply push_absent_elem.
      * cbn. apply push_absent_elem.
Qed.

(** Every phone number sent with an accepted create-list request ends up
    as the phone number of a stored user who is a participant of the new
    list and has the new list id in its membership array; the owner is a
    participant too, whether or not it is a stored user. *)
Theorem createList_phones_participate (owner n : string) (rawVisibility : option string)
    (vis : option Visibility) (phones : list string) (uuid t1 t2 : string)
    (fresh : nat → string * string * string) (s : Store) :
  1 ≤ String.length n → parseVisibility rawVisibility = Some vis →
  let s' := out_store (createList owner (Some n) rawVisibility (Some phones)
                         uuid t1 t2 fresh s) in
  ∃ l, shopLists s' = l :: shopLists s
       ∧ owner ∈ participantIds l
       ∧ ∀ ph, ph ∈ phones →
           ∃ u, u ∈ users s' ∧ phoneNumber u = ph
                ∧ user_id u ∈ participantIds l ∧ uuid ∈ shopListIds u.
Proof.
  intros Hn Hvis.
  destruct (createList_accepted owner (Some n) rawVisibility (Some phones) uuid t1 t2
              fresh s (mkCreateListBody n vis (Some phones)))
    as (us1 & parts1 & added & Hloop & _ & Hs).
  { unfold parseCreateListBody. rewrite Hvis. by rewrite decide_True. }
  cbn zeta. rewrite Hs. cbn [shopLists users set_shopLists set_users].
  eexists. split; [done|]. cbn [participantIds].
  change (default [] (cl_participantPhoneNumbers _)) with phones in Hloop.
  match type of Hloop with
  | foldl _ (?us0, ?parts0, _) _ = _ =>
      pose proof (createList_loop uuid fresh us0 parts0 (imap pair phones))
        as (_ & Hsub & _);
      pose proof (createList_loop_phones uuid fresh us0 parts0 (imap pair phones)) as Hph
  end.
  cbn zeta in Hsub, Hph. rewrite Hloop in Hsub, Hph. cbn [fst snd] in Hsub, Hph.
  split; [apply Hsub, push_absent_elem|].
  intros ph [k Hk]%list_elem_of_lookup. apply (Hph k ph).
  apply list_elem_of_lookup. exists k. by rewrite list_lookup_imap, Hk.
Qed.

Lemma createList_phones_participate_witness :
  1 ≤ String.length "Trip" ∧ parseVisibility None = Some None
  ∧ ∃ l, shopLists (out_store (createList "A" (Some "Trip") None
                                 (Some ["9000000002"; "9000000003"])
                                 "L3" "t8" "t8" (λ k, ("U3", "t8", "t8")) demo))
         = l :: shopLists demo
         ∧ "A" ∈ participantIds l.
Proof.
  assert (1 ≤ String.length "Trip") as Hn by (simpl; lia).
  assert (parseVisibility None = Some None) as Hv by reflexivity.
  split_and!; [exact Hn|exact Hv|].
  destruct (createList_phones_participate "A" "Trip" None None
              ["9000000002"; "9000000003"] "L3" "t8" "t8" (λ k, ("U3", "t8", "t8"))
              demo Hn Hv) as (l & ? & ? & _).
  by exists l.
Defined.

(** ** The lists a user is shown *)

Lemma listed_filter uid s :
  listed uid s = filter (λ l, uid ∈ participantIds l) (shopLists s).
Proof.
  unfold listed, getLists. cbn [out_response reply body].
  rewrite <- list_fmap_compose. apply list_fmap_id.
Qed.

(** After an accepted create-list request the owner's listing is the new
    list followed by what the owner was shown before. *)
Theorem getLists_after_createList (owner n : string) (rawVisibility : option string)
    (vis : option Visibility) (rawPhones : option (list string)) (uuid t1 t2 : string)
    (fresh : nat → string * string * string) (s : Store) :
  1 ≤ String.length n → parseVisibility rawVisibility = Some vis →
  let s' := out_store (createList owner (Some n) rawVisibility rawPhones
                         uuid t1 t2 fresh s) in
  ∃ l, shopLists s' = l :: shopLists s ∧ list_id l = uuid
       ∧ listed owner s' = l :: listed owner s.
Proof.
  intros Hn Hvis.
  destruct (createList_accepted owner (Some n) rawVisibility rawPhones uuid t1 t2
              fresh s (mkCreateListBody n vis rawPhones))
    as (us1 & parts1 & added & Hloop & _ & Hs).
  { unfold parseCreateListBody. rewrite Hvis. by rewrite decide_True. }
  cbn zeta. rewrite Hs, !listed_filter. cbn [shopLists set_shopLists set_users].
  eexists. split_and!; [done..|].
  rewrite filter_cons_True; [done|]. cbn [participantIds].
  match type of Hloop with
  | foldl _ (?us0, ?parts0, _) ?kphs = _ =>
      pose proof (createList_loop uuid fresh us0 parts0 kphs) as (_ & Hsub & _)
  end.
  cbn zeta in Hsub. rewrite Hloop in Hsub. apply Hsub, push_absent_elem.
Qed.

Lemma getLists_after_createList_witness :
  1 ≤ String.length "Trip" ∧ parseVisibility None = Some None
  ∧ ∃ l, list_id l = "L3"
         ∧ listed "B" (out_store (createList "B" (Some "Trip") None None
                                    "L3" "t8" "t8" no_fresh demo2))
           = l :: listed "B" demo2.
Proof.
  assert (1 ≤ String.length "Trip") as Hn by (simpl; lia).
  assert (parseVisibility None = Some None) as Hv by reflexivity.
  split_and!; [exact Hn|exact Hv|].
  destruct (getLists_after_createList "B" "Trip" None None None "L3" "t8" "t8"
              no_fresh demo2 Hn Hv) as (l & _ & ? & ?).
  by exists l.
Defined.

Lemma filter_insert_fmap {A B} (P : A → Prop) `{∀ x, Decision (P x)} (g : A → B)
    (l : list A) i x y :
  l !! i = Some x → (P x ↔ P y) → g x = g y →
  g <$> filter P (<[i:=y]> l) = g <$> filter P l.
Proof.
  revert i. induction l as [|a l IH]; intros [|i]; simpl; try done.
  - intros [= ->] HP Hg. rewrite !filter_cons.
    destruct (decide (P x)), (decide (P y)); try tauto; try done.
    rewrite !fmap_cons. by f_equal.
  - intros Hi HP Hg. change (list_insert i y l) with (<[i:=y]> l).
    rewrite !filter_cons. destruct (decide (P a)); [|by eapply IH].
    rewrite !fmap_cons. f_equal. by eapply IH.
Qed.

(** After a join of an existing list the user is shown a list with that id
    of which it is a participant, and every other user is shown lists with
    the same ids, in the same order, as before. *)
Theorem getLists_after_joinList (s : Store) (listId uid now : string) :
  listExists s listId →
  let s' := out_store (joinList listId uid now s) in
  (∃ l, l ∈ listed uid s' ∧ list_id l = listId ∧ uid ∈ participantIds l)
  ∧ (∀ v, v ≠ uid → list_id <$> listed v s' = list_id <$> listed v s).
Proof.
  intros Hex.
  destruct (list_find_Some_Exists (λ l, list_id l = listId) (shopLists s) Hex)
    as (i & l & Hf).
  cbn zeta. rewrite (joinList_found _ _ _ _ i l Hf).
  apply list_find_Some in Hf as (Hi & Hid & _).
  split.
  - exists (set_updatedAt now (set_participantIds (push_absent uid (participantIds l)) l)).
    rewrite listed_filter. cbn [shopLists set_shopLists set_users].
    assert (uid ∈ push_absent uid (participantIds l)) as Hin by apply push_absent_elem.
    split_and!; [|done..]. apply list_elem_of_filter. split; [done|].
    apply list_elem_of_lookup. exists i.
    apply list_lookup_insert_eq. by eapply lookup_lt_Some.
  - intros v Hv. rewrite !listed_filter. cbn [shopLists set_shopLists set_users].
    apply (filter_insert_fmap (λ l, v ∈ participantIds l) list_id _ i l); [done| |done].
    cbn. split; [apply push_absent_mono|].
    intros [?|?]%elem_of_push_absent; [done|congruence].
Qed.

Lemma getLists_after_joinList_witness :
  listExists demo2 "L2"
  ∧ ∃ l, l ∈ listed "B" (out_store (joinList "L2" "B" "t9" demo2)) ∧ list_id l = "L2".
Proof.
  assert (listExists demo2 "L2") as Hex by compute_done.
  split; [exact Hex|].
  destruct (getLists_after_joinList demo2 "L2" "B" "t9" Hex) as [(l & ? & ? & _) _].
  by exists l.
Defined.

(** After a delete-list request for [id], found or not, every user is
    shown exactly the lists it was shown before that have another id. *)
Theorem getLists_after_deleteList (s : Store) (id uid : string) :
  listed uid (out_store (deleteList id s))
  = filter (λ l, list_id l ≠ id) (listed uid s).
Proof.
  rewrite !listed_filter.
  destruct (decide (listExists s id)) as [Hex|Hno].
  - rewrite deleteList_found by done. cbn [out_store reply shopLists].
    rewrite !list_filter_filter. apply list_filter_iff. intros l. tauto.
  - rewrite deleteList_missing by done. cbn [out_store reply].
    symmetry. apply (filter_not_id (λ l, list_id l = id)), Forall_forall.
    intros l [_ Hl]%list_elem_of_filter Heq. apply Hno, Exists_exists. eauto.
Qed.

(** ** Suggestions and item counts *)

(** Suggestions are only ever appended: for a product in the catalogue,
    the same request sent twice (even with the same id drawn) is answered
    201 both times and leaves two suggestions at the end of the array, the
    earlier ones untouched; nothing else in the store changes. *)
Theorem suggest_never_dedups (s : Store) (iid uid : string) (pid : Z) (uuid now : string) :
  Exists (λ p, product_id p = pid) (products s) →
  let o1 := suggest iid uid (Some pid) uuid now s in
  let o2 := suggest iid uid (Some pid) uuid now (out_store o1) in
  status (out_response o1) = S201 ∧ status (out_response o2) = S201
  ∧ suggestions (out_store o2)
    = suggestions s ++ [mkSuggestion uuid iid pid uid now; mkSuggestion uuid iid pid uid now]
  ∧ out_store o2 = set_suggestions (suggestions (out_store o2)) s.
Proof.
  intros Hp.
  destruct (js_find_Some_Exists (λ p, product_id p = pid) (products s) Hp) as [p Hf].
  cbn zeta. unfold suggest. rewrite Hf.
  cbn [out_store reply products set_suggestions]. rewrite Hf.
  cbn [out_store out_response reply status suggestions set_suggestions].
  split_and!; try done. by rewrite <- app_assoc.
Qed.

Lemma suggest_never_dedups_witness :
  Exists (λ p, product_id p = 7%Z) (products demo)
  ∧ length (suggestions (out_store (suggest "I1" "B" (Some 7%Z) "G1" "t4"
              (out_store (suggest "I1" "B" (Some 7%Z) "G1" "t4" demo))))) = 2.
Proof.
  assert (Exists (λ p, product_id p = 7%Z) (products demo)) as Hp by compute_done.
  split; [exact Hp|].
  destruct (suggest_never_dedups demo "I1" "B" 7 "G1" "t4" Hp) as (_ & _ & -> & _).
  reflexivity.
Defined.

(** An accepted add-item request puts the item first in [store.shopListItems]
    and raises the item count that [GET /lists] reports for that list id by
    one; the counts for every other list id, and every participant count,
    are as before. *)
Theorem addItem_counts (s : Store) (listId uid : string) (pid : Z) (uuid now : string) :
  pid ≠ 0%Z → Exists (λ p, product_id p = pid) (products s) →
  let s' := out_store (addItem listId uid (Some pid) uuid now s) in
  shopListItems s' = mkItem uuid pid listId uid now :: shopListItems s
  ∧ c_items (listCounts s' listId) = S (c_items (listCounts s listId))
  ∧ (∀ other, other ≠ listId →
       c_items (listCounts s' other) = c_items (listCounts s other))
  ∧ (∀ any, c_participants (listCounts s' any) = c_participants (listCounts s any)).
Proof.
  intros Hpid Hp.
  destruct (js_find_Some_Exists (λ p, product_id p = pid) (products s) Hp) as [p Hf].
  assert (out_store (addItem listId uid (Some pid) uuid now s)
          = set_shopListItems (mkItem uuid pid listId uid now :: shopListItems s) s) as ->.
  { unfold addItem. rewrite Hf. by destruct pid. }
  cbn zeta. unfold listCounts.
  cbn [shopListItems shopLists set_shopListItems c_items c_participants].
  split_and!; [done| | |done].
  - by rewrite filter_cons_True.
  - intros other Hne. by rewrite filter_cons_False by (cbn; congruence).
Qed.

Lemma addItem_counts_witness :
  7%Z ≠ 0%Z ∧ Exists (λ p, product_id p = 7%Z) (products demo)
  ∧ c_items (listCounts (out_store (addItem "L1" "B" (Some 7%Z) "I3" "t9" demo)) "L1") = 2.
Proof.
  assert (7%Z ≠ 0%Z) as Hpid by done.
  assert (Exists (λ p, product_id p = 7%Z) (products demo)) as Hp by compute_done.
  split_and!; [exact Hpid|exact Hp|].
  destruct (addItem_counts demo "L1" "B" 7 "I3" "t9" Hpid Hp) as (_ & -> & _).
  reflexivity.
Defined.

Lemma noOrphans_reachable_checked_witness :
  noOrphans demo_seed ∧ noOrphans demo2.
Proof.
  assert (noOrphans demo_seed) as H0 by compute_done.
  split; [exact H0|].
  apply (noOrphans_reachable_checked demo_seed demo2 H0).
  unfold demo2, exec, demo_ops2, demo_ops. cbn [app foldl].
  repeat (apply reach_checked_step; [|compute_done]).
  apply reach_checked_here.
Defined.

(** ** CORS *)

Lemma startsWith_app p s : startsWith p s = true ↔ ∃ r, s = p +:+ r.
Proof.
  revert s. induction p as [|a p IH]; intros s; simpl.
  - split; [by exists s|done].
  - destruct s as [|b s]; [split; [done|by intros [r ?]]|].
    rewrite andb_true_iff, IH. split.
    + intros [Hab%Ascii.eqb_eq [r ->]]. exists r. by rewrite Hab.
    + intros [r [= -> ->]]. split; [apply Ascii.eqb_refl|by exists r].
Qed.

Lemma slice_from_app p r : slice_from (String.length p) (p +:+ r) = r.
Proof. induction p as [|a p IH]; simpl; [by destruct r|done]. Qed.

Lemma port_suffix_iff s :
  port_suffix s = true ↔ ∃ d, s = ":" +:+ d ∧ d ≠ "" ∧ all_digits d = true.
Proof.
  unfold port_suffix. split.
  - destruct s as [|c d]; [done|].
    destruct (decide (c = ":"%char)) as [->|Hne].
    + destruct d as [|c' d']; [done|]. intros Hd. by eexists.
    + destruct c as [[] [] [] [] [] [] [] []]; done.
  - intros (d & -> & Hd & Hall). simpl. by destruct d.
Qed.

Lemma LOCALHOST_REGEX_test_iff s :
  LOCALHOST_REGEX_test s = true ↔
  ∃ host port, (host = "localhost" ∨ host = "127.0.0.1")
    ∧ port ≠ "" ∧ all_digits port = true
    ∧ s = "http://" +:+ (host +:+ (":" +:+ port)).
Proof.
  unfold LOCALHOST_REGEX_test. rewrite andb_true_iff, orb_true_iff, !andb_true_iff.
  split.
  - intros [[r ->]%startsWith_app Hhost].
    change (slice_from 7 ("http://" +:+ r)) with r in Hhost.
    change (slice_from 16 ("http://" +:+ r)) with (slice_from 9 r) in Hhost.
    destruct Hhost as [[[r' ->]%startsWith_app Hport]|[[r' ->]%startsWith_app Hport]].
    + change (slice_from 9 ("localhost" +:+ r')) with r' in Hport.
      apply port_suffix_iff in Hport as (d & -> & ? & ?).
      exists "localhost", d. auto.
    + change (slice_from 9 ("127.0.0.1" +:+ r')) with r' in Hport.
      apply port_suffix_iff in Hport as (d & -> & ? & ?).
      exists "127.0.0.1", d. auto.
  - intros (host & port & [-> | ->] & Hne & Hall & ->).
    + split; [done|]. left. split; [done|].
      change (slice_from 16 _) with (":" +:+ port). apply port_suffix_iff. eauto.
    + split; [done|]. right. split; [done|].
      change (slice_from 16 _) with (":" +:+ port). apply port_suffix_iff. eauto.
Qed.

Lemma ENV_LIST_elem env o :
  o ∈ ENV_LIST env ↔ o ≠ "" ∧ ∃ e, e ∈ split_comma (default "" env) ∧ trim e = o.
Proof.
  unfold ENV_LIST. rewrite list_elem_of_filter, list_elem_of_fmap.
  split; intros [? (e & ? & ?)]; eauto.
Qed.

(** An origin is let through exactly when the request has none (or an empty
    one), or it is one of the six defaults, or it is, trimmed and not empty,
    one of the comma-separated pieces of [CORS_ORIGINS], or it is
    [http://localhost:PORT] or [http://127.0.0.1:PORT] with a port of one or
    more digits; every other origin gets the CORS error. *)
Theorem originChecker_allowed_iff (env origin : option string) :
  (originChecker env origin = CorsAllowed ↔
   origin = None ∨ origin = Some ""
   ∨ ∃ o, origin = Some o
       ∧ (o ∈ DEFAULTS
          ∨ (o ≠ "" ∧ ∃ e, e ∈ split_comma (default "" env) ∧ trim e = o)
          ∨ ∃ host port, (host = "localhost" ∨ host = "127.0.0.1")
              ∧ port ≠ "" ∧ all_digits port = true
              ∧ o = "http://" +:+ (host +:+ (":" +:+ port))))
  ∧ (originChecker env origin ≠ CorsAllowed →
     originChecker env origin = CorsError "Not allowed by CORS").
Proof.
  assert (∀ o, bool_decide (o ∈ ALLOW env) || LOCALHOST_REGEX_test o = true ↔
            (o ∈ DEFAULTS
             ∨ (o ≠ "" ∧ ∃ e, e ∈ split_comma (default "" env) ∧ trim e = o)
             ∨ ∃ host port, (host = "localhost" ∨ host = "127.0.0.1")
                 ∧ port ≠ "" ∧ all_digits port = true
                 ∧ o = "http://" +:+ (host +:+ (":" +:+ port)))) as Hiff.
  { intros o. rewrite orb_true_iff, bool_decide_eq_true, LOCALHOST_REGEX_test_iff.
    unfold ALLOW. rewrite elem_of_app, ENV_LIST_elem. tauto. }
  destruct origin as [[|c o]|]; cbn [originChecker].
  - split; [|done]. split; auto.
  - specialize (Hiff (String c o)).
    destruct (bool_decide _ || _) eqn:Hb.
    + split; [|done]. split; [|done]. intros _. right. right.
      exists (String c o). split; [done|]. by apply Hiff.
    + split; [|done]. split; [done|].
      intros [?|[?|(o' & [= <-] & Ho)]]; try done.
      apply Hiff in Ho. congruence.
  - split; [|done]. split; auto.
Qed.

(** [split] loses nothing: its pieces hold no comma, and put back together
    with commas they are the string. *)
Lemma split_comma_join s :
  foldr (λ piece rest, match rest with
                       | None => Some piece
                       | Some r => Some (piece +:+ ("," +:+ r))
                       end) None (split_comma s) = Some s.
Proof.
  induction s as [|c s IH]; [done|]. cbn [split_comma].
  destruct (Ascii.eqb c ",") eqn:Hc.
  - apply Ascii.eqb_eq in Hc as ->. cbn [foldr]. by rewrite IH.
  - destruct (split_comma s) as [|h t]; [done|].
    cbn [foldr] in *. destruct (foldr _ None t) as [r|].
    + injection IH as <-. done.
    + injection IH as <-. done.
Qed.

(** ** The [auth] middleware *)

Lemma bearerToken_Some hdr tok :
  bearerToken hdr = Some tok ↔ hdr = "Bearer " +:+ tok.
Proof.
  unfold bearerToken. destruct (startsWith "Bearer " hdr) eqn:Hs.
  - apply startsWith_app in Hs as [r ->].
    change (slice_from 7 ("Bearer " +:+ r)) with r. split; [by intros [= ->]|].
    intros Heq. by simplify_eq/=.
  - split; [done|]. intros ->.
    assert (startsWith "Bearer " ("Bearer " +:+ tok) = true) by (apply startsWith_app; eauto).
    congruence.
Qed.

Lemma auth_cases verify authorization :
  (∃ tok, authorization = Some ("Bearer " +:+ tok) ∧ tok ≠ ""
     ∧ auth verify authorization
       = match verify tok with
         | Some uid => AuthNext uid
         | None => Auth401 "Invalid token"
         end)
  ∨ ((¬ ∃ tok, authorization = Some ("Bearer " +:+ tok) ∧ tok ≠ "")
     ∧ auth verify authorization = Auth401 "No token").
Proof.
  unfold auth.
  destruct (bearerToken (default "" authorization)) as [tok|] eqn:Hb.
  - apply bearerToken_Some in Hb. destruct tok as [|c tok].
    + right. split; [|done]. intros (tok' & -> & Hne).
      change ("Bearer " +:+ tok' = "Bearer " +:+ "") in Hb. by simplify_eq/=.
    + left. exists (String c tok). split_and!; [|done..].
      destruct authorization as [h|]; [by f_equal|done].
  - right. split; [|done]. intros (tok & -> & _).
    change (bearerToken ("Bearer " +:+ tok) = None) in Hb.
    assert (bearerToken ("Bearer " +:+ tok) = Some tok) by by apply bearerToken_Some.
    congruence.
Qed.

(** A request gets past [auth] exactly when its Authorization header is
    "Bearer " followed by a non-empty token that the library verifies, and
    then runs as the [uid] of that token; it is answered 401 "No token"
    exactly when the header is absent or is not "Bearer " followed by at
    least one character, and 401 "Invalid token" otherwise. *)
Theorem auth_passes_iff (verify : string → option string)
    (authorization : option string) (uid : string) :
  (auth verify authorization = AuthNext uid ↔
   ∃ tok, authorization = Some ("Bearer " +:+ tok) ∧ tok ≠ "" ∧ verify tok = Some uid)
  ∧ (auth verify authorization = Auth401 "No token" ↔
     ¬ ∃ tok, authorization = Some ("Bearer " +:+ tok) ∧ tok ≠ "")
  ∧ (auth verify authorization = Auth401 "Invalid token" ↔
     ∃ tok, authorization = Some ("Bearer " +:+ tok) ∧ tok ≠ "" ∧ verify tok = None).
Proof.
  destruct (auth_cases verify authorization) as [(tok & -> & Hne & ->)|[Hno ->]].
  - assert (∀ tok', Some ("Bearer " +:+ tok) = Some ("Bearer " +:+ tok') → tok' = tok)
      as Hinj by (intros tok' ?; by simplify_eq/=).
    split_and!.
    + split.
      * destruct (verify tok) as [u|] eqn:Hv; [|done]. intros [= ->]. by exists tok.
      * intros (tok' & ->%Hinj & _ & ->). done.
    + split.
      * by destruct (verify tok).
      * intros Hno. destruct Hno. by exists tok.
    + split.
      * destruct (verify tok) as [u|] eqn:Hv; [done|]. intros _. by exists tok.
      * intros (tok' & ->%Hinj & _ & ->). done.
  - split_and!.
    + split; [done|]. intros (tok & ? & ? & _). destruct Hno. by exists tok.
    + done.
    + split; [done|]. intros (tok & ? & ? & _). destruct Hno. by exists tok.
Qed.

(** ** Socket rooms *)

Lemma elem_of_push_absent_iff x y a : x ∈ push_absent y a ↔ x ∈ a ∨ x = y.
Proof.
  split; [apply elem_of_push_absent|].
  intros [?| ->]; [by apply push_absent_mono|apply push_absent_elem].
Qed.

Lemma rooms_fold {A} (g : A → string) (ls : list A) (rooms0 : list string) :
  let rs := foldl (λ rooms l, join (g l) rooms) rooms0 ls in
  (NoDup rooms0 → NoDup rs) ∧ ∀ r, r ∈ rs ↔ r ∈ rooms0 ∨ ∃ l, l ∈ ls ∧ r = g l.
Proof.
  cbn zeta. revert rooms0. induction ls as [|x ls IH]; intros rooms0; cbn [foldl].
  - split; [done|]. intros r. split; [by left|].
    intros [?|(l & Hl & _)]; [done|]. by apply elem_of_nil in Hl.
  - destruct (IH (join (g x) rooms0)) as [IHnd IHin]. split.
    + intros Hnd. by apply IHnd, push_absent_NoDup.
    + intros r. rewrite IHin. unfold join. rewrite elem_of_push_absent_iff. split.
      * intros [[?| ->]|(l & Hl & ->)]; [by left| |].
        -- right. exists x. split; [by left|done].
        -- right. exists l. split; [by right|done].
      * intros [?|(l & [-> |Hl]%elem_of_cons & ->)]; [by left; left|by left; right|].
        right. by exists l.
Qed.

Lemma connect_Connected verify h s uid rooms :
  connect verify h s = Connected uid rooms →
  (∃ tok, socketToken h = Some tok ∧ tok ≠ "" ∧ verify tok = Some uid)
  ∧ NoDup rooms
  ∧ ∀ r, r ∈ rooms ↔
      r = "user:" +:+ uid
      ∨ ∃ l, l ∈ shopLists s ∧ uid ∈ participantIds l ∧ r = "list:" +:+ list_id l.
Proof.
  unfold connect. destruct (socketToken h) as [[|c tok]|]; try done.
  destruct (verify (String c tok)) as [u|] eqn:Hv; [|done].
  intros [= -> <-]. split; [by eexists|].
  destruct (rooms_fold (λ l, "list:" +:+ list_id l)
              (filter (λ l, uid ∈ participantIds l) (shopLists s))
              (join ("user:" +:+ uid) [])) as [Hnd Hin].
  split; [apply Hnd, push_absent_NoDup, NoDup_nil_2|].
  intros r. rewrite Hin. unfold join at 1. rewrite elem_of_push_absent_iff.
  split.
  - intros [[Hr| ->]|(l & [? ?]%list_elem_of_filter & ->)];
      [by apply elem_of_nil in Hr|by left|right; by exists l].
  - intros [->|(l & ? & ? & ->)]; [by left; right|].
    right. exists l. split; [|done]. by apply list_elem_of_filter.
Qed.



Lemma room_names_differ uid listId : "user:" +:+ uid ≠ "list:" +:+ listId.
Proof. done. Qed.

Lemma list_room_inj a b : "list:" +:+ a = "list:" +:+ b → a = b.
Proof. intros ?. by simplify_eq/=. Qed.

(** Whatever join and leave events a connection sends afterwards, it stays
    in its personal room, and its rooms stay free of repetition. *)
Theorem personal_room_kept (verify : string → option string) (h : Handshake) (s : Store)
    (uid : string) (rooms : list string) (evs : list SocketEvent) :
  connect verify h s = Connected uid rooms →
  "user:" +:+ uid ∈ foldl onSocketEvent rooms evs
  ∧ NoDup (foldl onSocketEvent rooms evs).
Proof.
  intros (_ & Hnd & Hin)%connect_Connected.
  assert ("user:" +:+ uid ∈ rooms) as Hu by (apply Hin; by left).
  clear Hin. revert rooms Hnd Hu. induction evs as [|ev evs IH]; intros rooms Hnd Hu;
    cbn [foldl]; [done|].
  apply IH; destruct ev as [L|L]; cbn [onSocketEvent]; unfold join, leave.
  - by apply push_absent_NoDup.
  - by apply NoDup_filter.
  - by apply push_absent_mono.
  - apply list_elem_of_filter. split; [apply room_names_differ|done].
Qed.

Lemma personal_room_kept_witness :
  connect (λ tok, if decide (tok = "tokB") then Some "B" else None)
          (mkHandshake None (Some "Bearer tokB")) demo2
  = Connected "B" ["user:B"; "list:L1"]
  ∧ "user:B" ∈ foldl onSocketEvent ["user:B"; "list:L1"]
                 [LeaveListEv "L1"; JoinListEv "L2"; LeaveListEv "B"].
Proof.
  assert (connect (λ tok, if decide (tok = "tokB") then Some "B" else None)
            (mkHandshake None (Some "Bearer tokB")) demo2
          = Connected "B" ["user:B"; "list:L1"]) as Hc by reflexivity.
  split; [exact Hc|].
  by apply (personal_room_kept _ _ _ _ _ [LeaveListEv "L1"; JoinListEv "L2"; LeaveListEv "B"] Hc).
Defined.

Lemma list_room_after_events (rooms : list string) (L : string) (evs : list SocketEvent) :
  "list:" +:+ L ∈ foldl onSocketEvent rooms evs
  ↔ subscribed L (bool_decide ("list:" +:+ L ∈ rooms)) evs = true.
Proof.
  unfold subscribed. revert rooms. induction evs as [|ev evs IH]; intros rooms;
    cbn [foldl].
  - by rewrite bool_decide_eq_true.
  - rewrite IH. clear IH.
    match goal with |- foldl ?f ?b1 evs = true ↔ foldl ?f ?b2 evs = true =>
      assert (b1 = b2) as ->; [|done] end.
    destruct ev as [x|x]; cbn [onSocketEvent]; unfold join, leave.
    + destruct (decide (x = L)) as [->|Hne].
      * apply bool_decide_eq_true, push_absent_elem.
      * apply bool_decide_ext. rewrite elem_of_push_absent_iff.
        split; [|by left]. intros [?|?%list_room_inj]; [done|congruence].
    + destruct (decide (x = L)) as [->|Hne].
      * apply bool_decide_eq_false. by intros [? _]%list_elem_of_filter.
      * apply bool_decide_ext. rewrite list_elem_of_filter.
        split; [tauto|]. intros ?. split; [|done]. intros ?%list_room_inj. congruence.
Qed.

(** Whether a socket is in the room of list [L] after a run of events is
    decided by its last join or leave for [L] (by where it started, if there
    is none): events for other list ids never change it. *)
Theorem list_room_follows_last_event (rooms : list string) (L : string)
    (evs : list SocketEvent) :
  "list:" +:+ L ∈ foldl onSocketEvent rooms evs
  ↔ subscribed L (bool_decide ("list:" +:+ L ∈ rooms)) evs = true.
Proof. apply list_room_after_events. Qed.

(** ** From the HTTP handlers to the rooms *)

Lemma joinList_participant s listId uid now :
  listExists s listId →
  ∃ l, l ∈ shopLists (out_store (joinList listId uid now s))
       ∧ list_id l = listId ∧ uid ∈ participantIds l.
Proof.
  intros Hex.
  destruct (list_find_Some_Exists (λ l, list_id l = listId) (shopLists s) Hex)
    as (i & l & Hf).
  rewrite (joinList_found _ _ _ _ i l Hf).
  apply list_find_Some in Hf as (Hi & Hid & _).
  eexists. cbn [shopLists set_shopLists set_users]. split_and!.
  - apply list_elem_of_lookup. exists i.
    apply list_lookup_insert_eq. by eapply lookup_lt_Some.
  - done.
  - cbn. apply push_absent_elem.
Qed.

(** A user who has joined an existing list over HTTP is put in that
    list's room by its next connection. *)
Theorem joined_user_gets_room (verify : string → option string) (h : Handshake)
    (s : Store) (listId uid now : string) (rooms : list string) :
  listExists s listId →
  connect verify h (out_store (joinList listId uid now s)) = Connected uid rooms →
  "list:" +:+ listId ∈ rooms.
Proof.
  intros Hex (_ & _ & Hin)%connect_Connected.
  destruct (joinList_participant s listId uid now Hex) as (l & Hl & <- & Hp).
  apply Hin. right. by exists l.
Qed.

Lemma joined_user_gets_room_witness :
  listExists demo2 "L2"
  ∧ "list:L2" ∈ ["user:B"; "list:L2"; "list:L1"].
Proof.
  assert (listExists demo2 "L2") as Hex by compute_done.
  split; [exact Hex|].
  apply (joined_user_gets_room
           (λ tok, if decide (tok = "tokB") then Some "B" else None)
           (mkHandshake (Some "tokB") None) demo2 "L2" "B" "t9" _ Hex).
  reflexivity.
Defined.

(** After a delete-list request for [listId] no connection is put in the
    room of that list id any more. *)
Theorem deleted_list_has_no_room (verify : string → option string) (h : Handshake)
    (s : Store) (listId uid : string) (rooms : list string) :
  connect verify h (out_store (deleteList listId s)) = Connected uid rooms →
  "list:" +:+ listId ∉ rooms.
Proof.
  intros (_ & _ & Hin)%connect_Connected Hroom.
  apply Hin in Hroom as [Hu|(l & Hl & _ & Heq%list_room_inj)].
  - by apply (room_names_differ uid listId).
  - destruct (decide (listExists s listId)) as [Hex|Hno].
    + rewrite deleteList_found in Hl by done. cbn [out_store reply shopLists] in Hl.
      apply list_elem_of_filter in Hl as [Hne _]. congruence.
    + rewrite deleteList_missing in Hl by done. cbn [out_store reply] in Hl.
      apply Hno, Exists_exists. exists l. split; [done|congruence].
Qed.

Lemma deleted_list_has_no_room_witness :
  connect (λ tok, if decide (tok = "tokB") then Some "B" else None)
          (mkHandshake (Some "tokB") None) (out_store (deleteList "L1" demo2))
  = Connected "B" ["user:B"]
  ∧ "list:L1" ∉ ["user:B"].
Proof.
  assert (connect (λ tok, if decide (tok = "tokB") then Some "B" else None)
            (mkHandshake (Some "tokB") None) (out_store (deleteList "L1" demo2))
          = Connected "B" ["user:B"]) as Hc by reflexivity.
  split; [exact Hc|].
  apply (deleted_list_has_no_room _ _ _ _ _ _ Hc).
Defined.

(** A reaction on a stored item is broadcast once, as
    [wishlist:item_reacted] with the payload of the response, to the room of
    the item's list.  A connection made on the store [s0] as user [v], which
    has sent the events [evs] since, receives it exactly when it is in that
    room: when its last join or leave for the list id was a join, or, with
    no such event, when [v] participated in a list with that id in [s0].
    The participants at the time of the reaction play no part. *)
Theorem react_reaches_subscribers (verify : string → option string) (h : Handshake)
    (s0 s : Store) (uid iid : string) (k : Kind) (it : ShopListItem)
    (v : string) (rooms0 : list string) (evs : list SocketEvent) :
  js_find (λ i, item_id i = iid) (shopListItems s) = Some it →
  connect verify h s0 = Connected v rooms0 →
  let o := react uid iid (Some (kindName k)) s in
  let e := mkEmit ("list:" +:+ shopListId it) "wishlist:item_reacted"
             (body (out_response o)) in
  out_emits o = [e]
  ∧ (receives (foldl onSocketEvent rooms0 evs) e
     ↔ subscribed (shopListId it)
         (bool_decide (Exists (λ l, list_id l = shopListId it ∧ v ∈ participantIds l)
                         (shopLists s0)))
         evs = true).
Proof.
  intros Hit (_ & _ & Hin)%connect_Connected. cbn zeta. split.
  - unfold react. rewrite parseKind_kindName.
    cbn [out_emits out_response reply shopListItems set_reactions body]. by rewrite Hit.
  - unfold receives. cbn [room]. rewrite list_room_after_events.
    match goal with |- subscribed _ ?b1 _ = true ↔ subscribed _ ?b2 _ = true =>
      assert (b1 = b2) as ->; [|done] end.
    apply bool_decide_ext. rewrite Hin, Exists_exists. split.
    + intros [Hu|(l & Hl & Hv & Heq%list_room_inj)].
      * by destruct (room_names_differ v (shopListId it)).
      * by exists l.
    + intros (l & Hl & Hid & Hv). right. exists l. by rewrite Hid.
Qed.

Lemma react_reaches_subscribers_witness :
  let verify := λ tok, if decide (tok = "tokB") then Some "B" else None in
  let early := exec demo_seed (take 2 demo_ops) in
  connect verify (mkHandshake (Some "tokB") None) early = Connected "B" ["user:B"]
  ∧ (∃ l, l ∈ shopLists demo ∧ list_id l = "L1" ∧ "B" ∈ participantIds l)
  ∧ out_emits (react "A" "I1" (Some "LIKE") demo)
    = [mkEmit "list:L1" "wishlist:item_reacted" (BReacted "I1" 2 0)]
  ∧ ¬ receives ["user:B"] (mkEmit "list:L1" "wishlist:item_reacted" (BReacted "I1" 2 0))
  ∧ receives (foldl onSocketEvent ["user:B"] [JoinListEv "L1"])
      (mkEmit "list:L1" "wishlist:item_reacted" (BReacted "I1" 2 0)).
Proof.
  intros verify early.
  assert (connect verify (mkHandshake (Some "tokB") None) early = Connected "B" ["user:B"])
    as Hc by reflexivity.
  assert (js_find (λ i, item_id i = "I1") (shopListItems demo)
          = Some (mkItem "I1" 7 "L1" "A" "t2")) as Hit by reflexivity.
  destruct (react_reaches_subscribers verify _ early demo "A" "I1" LIKE _ "B" _ [] Hit Hc)
    as [Hemit Hnone].
  destruct (react_reaches_subscribers verify _ early demo "A" "I1" LIKE _ "B" _
              [JoinListEv "L1"] Hit Hc) as [_ Hjoined].
  split_and!.
  - exact Hc.
  - exists (mkShopList "L1" "Gifts" LINK "A" "t1" "t3" ["A"; "B"]).
    split_and!; [compute_done|reflexivity|compute_done].
  - exact Hemit.
  - intros Hr. apply Hnone in Hr. discriminate Hr.
  - apply Hjoined. reflexivity.
Defined.

(** A reaction on an id that no item has is stored without any broadcast. *)
Lemma react_orphan_is_silent s uid iid k :
  ¬ itemExists s iid → out_emits (react uid iid (Some (kindName k)) s) = [].
Proof.
  intros Hno. unfold react, js_find. rewrite parseKind_kindName.
  cbn [out_emits reply shopListItems set_reactions].
  destruct (list_find _ (shopListItems s)) as [[i it]|] eqn:Hf; [|done].
  destruct Hno. apply Exists_exists. apply list_find_Some_P in Hf as [? ?]. eauto.
Qed.

(** ** Lazy saves *)

Lemma run_rejected_store op s :
  reachesScheduleSave (out_response (run op s)) = false → out_store (run op s) = s.
Proof.
  destruct op; cbn [run].
  - unfold login. destruct (parseLoginBody _ _) as [[ph nm]|]; [|done].
    destruct (list_find _ _) as [[i u]|]; [by destruct (decide _)|done].
  - unfold createList. destruct (parseCreateListBody _ _ _); [|done].
    by destruct (foldl _ _ _) as [[us1 parts1] added].
  - unfold deleteList. by destruct (js_find _ _).
  - unfold joinList. by destruct (list_find _ _) as [[i l]|].
  - unfold addItem. destruct rawProductId as [[|pid|pid]|]; try done;
      by destruct (js_find _ _).
  - unfold removeItem. by destruct (js_find _ _).
  - unfold react. by destruct (parseKind _).
  - unfold suggest. destruct rawProductId as [pid|]; [|done].
    by destruct (js_find _ _).
Qed.

Lemma scheduleSave_pending t :
  (pending t = [] ∨ ∃ h, pending t = [h] ∧ saveTimer t = Some h) →
  ∃ h, pending (scheduleSave t) = [h] ∧ saveTimer (scheduleSave t) = Some h.
Proof.
  intros Hinv. unfold scheduleSave, setTimeout, clearTimeout.
  destruct Hinv as [Hnil|(h & Hp & Hs)].
  - exists (next_handle t). destruct (saveTimer t); cbn; rewrite Hnil; done.
  - exists (next_handle t). rewrite Hs. cbn. rewrite Hp.
    rewrite filter_cons_False by (intros Hne; by apply Hne). done.
Qed.

Lemma serve_saves_in_step s0 sv ev : saves_in_step s0 sv → saves_in_step s0 (serve sv ev).
Proof.
  intros Hinv. destruct ev as [op|h]; cbn [serve].
  - destruct (reachesScheduleSave _) eqn:Hsched.
    + right. cbn [srv_timers]. apply scheduleSave_pending.
      destruct Hinv as [[? _]|?]; auto.
    + unfold saves_in_step. cbn [srv_store srv_timers srv_saved].
      by rewrite run_rejected_store.
  - destruct (decide _) as [Hin|]; [|done]. left.
    cbn [srv_store srv_timers srv_saved clearTimeout pending]. split.
    + destruct Hinv as [[Hnil _]|(h' & Hp & _)].
      * rewrite Hnil in Hin. by apply elem_of_nil in Hin.
      * rewrite Hp in Hin |- *. apply list_elem_of_singleton in Hin as ->.
        by rewrite filter_cons_False by (intros Hne; by apply Hne).
    + left. apply last_snoc.
Qed.

Lemma served_saves_in_step s0 evs : saves_in_step s0 (foldl serve (boot s0) evs).
Proof.
  induction evs as [|ev evs IH] using rev_ind.
  - left. split; [done|]. by right.
  - rewrite foldl_app. by apply serve_saves_in_step.
Qed.

(** However many requests have been served and timers have fired since
    boot, at most one save is pending, and it is the one whose handle
    [saveTimer] holds: a burst of mutations leads to a single write. *)
Theorem at_most_one_save_pending (s0 : Store) (evs : list ServerEvent) :
  let sv := foldl serve (boot s0) evs in
  length (pending (srv_timers sv)) ≤ 1
  ∧ ∀ h, h ∈ pending (srv_timers sv) → saveTimer (srv_timers sv) = Some h.
Proof.
  cbn zeta. destruct (served_saves_in_step s0 evs) as [[-> _]|(h & -> & Hs)].
  - split; [simpl; lia|]. by intros h ?%elem_of_nil.
  - split; [simpl; lia|]. by intros h' ->%list_elem_of_singleton.
Qed.

(** A store that differs from the last one handed to [saveStore] (from the
    one loaded at boot, before the first save) always has a save pending:
    whenever no timer is pending, nothing is unsaved. *)
Theorem nothing_unsaved_without_timer (s0 : Store) (evs : list ServerEvent) :
  let sv := foldl serve (boot s0) evs in
  pending (srv_timers sv) = [] →
  last (srv_saved sv) = Some (srv_store sv)
  ∨ (srv_saved sv = [] ∧ srv_store sv = s0).
Proof.
  cbn zeta. intros Hnil.
  destruct (served_saves_in_step s0 evs) as [[_ ?]|(h & Hp & _)]; [done|].
  by rewrite Hp in Hnil.
Qed.

Lemma nothing_unsaved_without_timer_witness :
  let evs := [Request (OpLogin (Some "9000000003") (Some "Chitra") "C" "t1" "t1");
              Request (OpReact "A" "I9" (Some "LOVE"));
              Request (OpLogin (Some "9000000003") (Some "Chitra D") "x" "t2" "t2");
              TimerFires 1] in
  pending (srv_timers (foldl serve (boot demo_seed) evs)) = []
  ∧ last (srv_saved (foldl serve (boot demo_seed) evs))
    = Some (srv_store (foldl serve (boot demo_seed) evs)).
Proof.
  intros evs.
  assert (pending (srv_timers (foldl serve (boot demo_seed) evs)) = []) as Hnil
    by reflexivity.
  split; [exact Hnil|].
  destruct (nothing_unsaved_without_timer demo_seed evs Hnil) as [?|[Hsaved _]];
    [done|discriminate Hsaved].
Defined.

(** ** The web client *)

(** A list created through the form is stored under the trimmed name typed
    in, which is never empty, with visibility LINK: the form drops a blank
    name before anything is sent, so what the handler trims again is
    already trimmed. *)
Theorem form_stores_typed_name (owner name phones uuid t1 t2 : string)
    (fresh : nat → string * string * string) (s : Store) (o : Outcome) :
  formCreateList owner name phones uuid t1 t2 fresh s = Some o →
  status (out_response o) = S201
  ∧ ∃ l, shopLists (out_store o) = l :: shopLists s
         ∧ list_name l = trim name ∧ list_name l ≠ "" ∧ visibility l = LINK
         ∧ ownerId l = owner ∧ owner ∈ participantIds l.
Proof.
  unfold formCreateList, handleCreate.
  destruct (decide (trim name = "")) as [|Hne]; [done|]. intros [= <-].
  assert (1 ≤ String.length (trim name)) as Hlen.
  { destruct (trim name); [done|simpl; lia]. }
  destruct (createList_accepted owner (Some (trim name)) (Some "LINK")
              (Some (filter (λ e, e ≠ "") (trim <$> split_comma phones)))
              uuid t1 t2 fresh s
              (mkCreateListBody (trim name) (Some LINK)
                 (Some (filter (λ e, e ≠ "") (trim <$> split_comma phones)))))
    as (us1 & parts1 & added & Hloop & Hst & Hs).
  { unfold parseCreateListBody. cbn [parseVisibility]. by rewrite decide_True. }
  rewrite Hst, Hs. split; [done|].
  eexists. split; [done|].
  cbn [list_name visibility ownerId participantIds cl_name cl_visibility].
  rewrite trim_idemp. split_and!; try done.
  match type of Hloop with
  | foldl _ (?us0, ?parts0, _) ?kphs = _ =>
      pose proof (createList_loop uuid fresh us0 parts0 kphs) as (_ & Hsub & _)
  end.
  cbn zeta in Hsub. rewrite Hloop in Hsub. apply Hsub, push_absent_elem.
Qed.

Lemma form_stores_typed_name_witness :
  ∃ o, formCreateList "A" "  Trip " "9000000002, ,9000000003" "L3" "t8" "t8"
         (λ k, ("U3", "t8", "t8")) demo = Some o
       ∧ ∃ l, shopLists (out_store o) = l :: shopLists demo ∧ list_name l = "Trip".
Proof.
  eexists. split; [reflexivity|].
  edestruct (form_stores_typed_name "A" "  Trip " "9000000002, ,9000000003"
               "L3" "t8" "t8" (λ k, ("U3", "t8", "t8")) demo)
    as (_ & l & Hl & Hname & _); [reflexivity|].
  exists l. by split.
Defined.

Lemma toggle_counts_other uid iid k rs j (kd : Kind) :
  j ≠ iid →
  length (filter (λ r, itemId r = j ∧ kind r = kd) (toggle uid iid k rs))
  = length (filter (λ r, itemId r = j ∧ kind r = kd) rs).
Proof.
  intros Hj.
  rewrite (count_other_item (λ r, itemId r = j ∧ kind r = kd) uid iid (toggle _ _ _ _))
    by (intros r [-> _]; done).
  rewrite toggle_frame.
  by rewrite <- (count_other_item (λ r, itemId r = j ∧ kind r = kd) uid iid)
    by (intros r [-> _]; done).
Qed.

Lemma enriched_count s it (kd : Kind) :
  length (filter (λ r, kind r = kd) (ei_reactions (enrichItem s it)))
  = length (filter (λ r, itemId r = item_id it ∧ kind r = kd) (reactions s)).
Proof.
  cbn [enrichItem ei_reactions]. rewrite list_filter_filter.
  f_equal. apply list_filter_iff. intros r. tauto.
Qed.

(** A client that has fetched items and then handles the broadcast of a
    reaction shows, for each of those items, the like and dislike counts
    that a fresh fetch would show: the reacted item takes the counts of the
    payload, and the reactions it holds for the other items are still
    right. *)
Theorem client_counts_follow_react (s : Store) (uid iid : string) (k : Kind)
    (its : list ShopListItem) (active : option string) (e : Emit) :
  out_emits (react uid iid (Some (kindName k)) s) = [e] →
  let s' := out_store (react uid iid (Some (kindName k)) s) in
  let view := onItemEvent active e (fetched (enrichItem s <$> its)) in
  likeCount <$> view = likeCount <$> fetched (enrichItem s' <$> its)
  ∧ dislikeCount <$> view = dislikeCount <$> fetched (enrichItem s' <$> its).
Proof.
  unfold react. rewrite parseKind_kindName.
  cbn [out_emits out_store reply shopListItems set_reactions reactions].
  destruct (js_find _ _) as [item|]; [|done]. intros [= <-]. cbn zeta.
  unfold onItemEvent. cbn [payload event]. rewrite decide_True by by left.
  unfold onItemReacted, fetched. rewrite <- !list_fmap_compose.
  assert (∀ it,
            let rs' := toggle uid iid k (reactions s) in
            let c' := if decide (item_id it = iid)
                      then mkClientItem (enrichItem s it) (Some (likesOf iid rs'))
                             (Some (dislikesOf iid rs'))
                      else mkClientItem (enrichItem s it) None None in
            let fresh := mkClientItem (enrichItem (set_reactions rs' s) it) None None in
            likeCount c' = likeCount fresh ∧ dislikeCount c' = dislikeCount fresh) as Hpt.
  { intros it. cbn zeta. unfold likeCount, dislikeCount.
    destruct (decide (item_id it = iid)) as [<-|Hne];
      cbn [ci_likes ci_dislikes ci_item default from_option id];
      rewrite !enriched_count; cbn [reactions set_reactions]; [done|].
    by rewrite !toggle_counts_other. }
  split; apply list_fmap_ext; intros _ it _; apply (Hpt it).
Qed.

Lemma client_counts_follow_react_witness :
  ∃ e, out_emits (react "A" "I1" (Some "DISLIKE") demo2) = [e]
       ∧ likeCount <$> onItemEvent (Some "L1") e
                         (fetched (enrichItem demo2 <$> shopListItems demo2))
         = [0; 1]
       ∧ dislikeCount <$> onItemEvent (Some "L1") e
                            (fetched (enrichItem demo2 <$> shopListItems demo2))
         = [1; 1].
Proof.
  eexists. split; [reflexivity|].
  edestruct (client_counts_follow_react demo2 "A" "I1" DISLIKE (shopListItems demo2)
               (Some "L1")) as [-> ->]; [reflexivity|].
  split; reflexivity.
Defined.

(** A suggestion for a stored item of a known product is broadcast to the
    item's list room.  A client that handles the broadcast appends it once
    to the item; the client that sent the request appends it a second time
    when the response arrives, and so shows it twice. *)
Theorem suggestion_shown_twice_to_sender (s : Store) (iid uid : string) (pid : Z)
    (uuid now : string) (it : ShopListItem) :
  Exists (λ p, product_id p = pid) (products s) →
  js_find (λ i, item_id i = iid) (shopListItems s) = Some it →
  let o := suggest iid uid (Some pid) uuid now s in
  ∃ sg e,
    out_response o = mkResponse S201 (BSuggested sg)
    ∧ out_emits o = [e] ∧ room e = "list:" +:+ shopListId it
    ∧ ∀ active c, ci_id c = iid →
        (ei_suggestions ∘ ci_item) <$> onItemEvent active e [c]
        = [ei_suggestions (ci_item c) ++ [sg]]
        ∧ (ei_suggestions ∘ ci_item) <$> onItemSuggested sg (onItemEvent active e [c])
          = [ei_suggestions (ci_item c) ++ [sg; sg]].
Proof.
  intros Hp Hit.
  destruct (js_find_Some_Exists (λ p, product_id p = pid) (products s) Hp) as [p Hf].
  cbn zeta. unfold suggest. rewrite Hf.
  cbn [out_response out_emits reply shopListItems set_suggestions]. rewrite Hit.
  do 2 eexists. split_and!; [done..|].
  intros active c Hc. unfold onItemEvent. cbn [payload event].
  rewrite decide_True by by left.
  unfold onItemSuggested. cbn [fmap list_fmap enrichSuggestion es_suggestion sg_itemId].
  rewrite decide_True by done. cbn [ci_id ci_item add_suggestion ei_item].
  rewrite decide_True by done.
  cbn [compose ci_item add_suggestion ei_suggestions].
  split; [done|]. by rewrite <- app_assoc.
Qed.

Lemma suggestion_shown_twice_to_sender_witness :
  Exists (λ p, product_id p = 7%Z) (products demo)
  ∧ js_find (λ i, item_id i = "I1") (shopListItems demo)
    = Some (mkItem "I1" 7 "L1" "A" "t2")
  ∧ ∃ e, out_emits (suggest "I1" "B" (Some 7%Z) "G1" "t4" demo) = [e]
         ∧ room e = "list:L1".
Proof.
  assert (Exists (λ p, product_id p = 7%Z) (products demo)) as Hp by compute_done.
  assert (js_find (λ i, item_id i = "I1") (shopListItems demo)
          = Some (mkItem "I1" 7 "L1" "A" "t2")) as Hit by reflexivity.
  split_and!; [exact Hp|exact Hit|].
  destruct (suggestion_shown_twice_to_sender demo "I1" "B" 7 "G1" "t4" _ Hp Hit)
    as (sg & e & _ & He & Hroom & _).
  by exists e.
Defined.

(** ** Persistence: what is saved is what is loaded *)

Lemma string_app_nil_l (a : string) : "" +:+ a = a.
Proof. reflexivity. Qed.

Lemma string_app_assoc (a b c : string) : (a +:+ b) +:+ c = a +:+ (b +:+ c).
Proof.
  induction a as [|x a IH]; [done|]. rewrite !string_app_cons. by f_equal.
Qed.

Lemma string_app_nil_r (a : string) : a +:+ "" = a.
Proof. induction a as [|x a IH]; [done|]. rewrite string_app_cons. by f_equal. Qed.

Lemma string_app_length (a b : string) :
  String.length (a +:+ b) = String.length a + String.length b.
Proof.
  induction a as [|x a IH]; [done|]. rewrite string_app_cons. simpl. by rewrite IH.
Qed.

Lemma bind_Value {A B} (a : A) (f : A → Result B) : Value a ≫= f = f a.
Proof. reflexivity. Qed.

Lemma JSON_ind' (P : JSON → Prop) :
  P JNull → (∀ b, P (JBool b)) → (∀ n, P (JNumber n)) → (∀ s, P (JString s)) →
  (∀ l, Forall P l → P (JArray l)) →
  (∀ m, Forall (λ kv, P kv.2) m → P (JObject m)) →
  ∀ v, P v.
Proof.
  intros Hnull Hbool Hnum Hstr Harr Hobj. fix IH 1.
  intros [|b|n|s|l|m]; [done..| |].
  - apply Harr. induction l as [|x l IHl]; constructor; [apply IH|exact IHl].
  - apply Hobj. induction m as [|[k x] m IHm]; constructor; [apply IH|exact IHm].
Qed.

(** Strings *)

Lemma parse_chars_quote_char c t :
  parse_chars (quote_char c +:+ t)
  = '(str, rest) ← parse_chars t; Value (String c str, rest).
Proof.
  destruct c as [[] [] [] [] [] [] [] []]; reflexivity.
Qed.

Lemma parse_chars_quote_chars s rest :
  parse_chars (quote_chars s +:+ String QUOTE rest) = Value (s, rest).
Proof.
  induction s as [|c s IH]; [done|].
  change (quote_chars (String c s)) with (quote_char c +:+ quote_chars s).
  by rewrite string_app_assoc, parse_chars_quote_char, IH.
Qed.

(** Numbers *)

Lemma read_digits_string_of_uint u rest :
  number_ends rest →
  read_digits (NilEmpty.string_of_uint u +:+ rest) = (u, rest).
Proof.
  intros Hend. induction u as [|u IH|u IH|u IH|u IH|u IH|u IH|u IH|u IH|u IH|u IH];
    cbn [NilEmpty.string_of_uint]; rewrite ?string_app_cons, ?string_app_nil_l;
    [|cbn [read_digits]; change (digit_of_char _) with (Some Decimal.D0) at 1 || idtac; simpl; by rewrite IH..].
  destruct rest as [|c r]; [done|]. cbn [read_digits]. by destruct Hend as [-> _].
Qed.

Lemma canonical_to_uint p : canonical (Pos.to_uint p) ∧ Pos.to_uint p ≠ Decimal.D0 Decimal.Nil.
Proof.
  split; [|apply DecimalPos.Unsigned.to_uint_nonzero].
  pose proof (DecimalPos.Unsigned.to_of (Pos.to_uint p)) as Hn.
  rewrite DecimalPos.Unsigned.of_to in Hn. cbn [N.to_uint] in Hn. rewrite Hn.
  generalize (Pos.to_uint p). intros u. unfold Decimal.unorm.
  induction u; cbn [Decimal.nzhead]; try done.
Qed.

Lemma numeral_canonical negative u rest :
  canonical u → number_ends rest →
  numeral negative u rest
  = if negative
    then (if decide (Z.of_uint u = 0%Z) then Unmodelled else Value ((- Z.of_uint u)%Z, rest))
    else Value (Z.of_uint u, rest).
Proof.
  intros Hcan Hend.
  assert (fraction_or_exponent rest = false) as Hfe.
  { destruct rest; [done|]. by destruct Hend. }
  unfold numeral. destruct u as [|[]| | | | | | | | |]; try done; by rewrite Hfe.
Qed.

Lemma expect_minus_digits u rest :
  u ≠ Decimal.Nil → expect "-" (NilEmpty.string_of_uint u +:+ rest) = None.
Proof. by destruct u. Qed.

Lemma parse_number_toString n rest :
  number_ends rest → parse_number (Number_toString n +:+ rest) = Value (n, rest).
Proof.
  intros Hend. unfold Number_toString, parse_number. destruct n as [|p|p].
  - change (NilZero.string_of_int (Z.to_int 0))
      with (NilEmpty.string_of_uint (Decimal.D0 Decimal.Nil)).
    rewrite expect_minus_digits by done.
    rewrite read_digits_string_of_uint by done. by rewrite numeral_canonical.
  - cbn [Z.to_int NilZero.string_of_int].
    destruct (canonical_to_uint p) as [Hcan Hnz].
    assert (NilZero.string_of_uint (Pos.to_uint p) = NilEmpty.string_of_uint (Pos.to_uint p)) as ->.
    { by destruct (Pos.to_uint p). }
    rewrite expect_minus_digits by by destruct (Pos.to_uint p).
    rewrite read_digits_string_of_uint, numeral_canonical by done.
    do 2 f_equal. unfold Z.of_uint. by rewrite DecimalPos.Unsigned.of_to.
  - cbn [Z.to_int NilZero.string_of_int].
    destruct (canonical_to_uint p) as [Hcan Hnz].
    assert (NilZero.string_of_uint (Pos.to_uint p) = NilEmpty.string_of_uint (Pos.to_uint p)) as ->.
    { by destruct (Pos.to_uint p). }
    rewrite string_app_cons.
    change (expect "-" (String "-" ?t)) with (Some t). cbv beta iota.
    rewrite read_digits_string_of_uint, numeral_canonical by done.
    unfold Z.of_uint. rewrite DecimalPos.Unsigned.of_to. cbn [Z.of_N].
    by rewrite decide_False by done.
Qed.

(** White space and the first character of a value *)

Lemma skip_ws_app w t : ws_only w → skip_ws (w +:+ t) = skip_ws t.
Proof.
  unfold ws_only. induction w as [|c w IH]; [done|].
  rewrite string_app_cons. cbn [skip_ws]. destruct (is_json_ws c); [done|discriminate].
Qed.

Lemma ws_only_gap indent : ws_only indent → ws_only (indent +:+ gap).
Proof. intros Hw. unfold ws_only. by rewrite skip_ws_app. Qed.

Lemma ws_only_LF indent : ws_only indent → ws_only (String LF indent).
Proof. done. Qed.

Lemma Number_toString_start n : ∃ c r, Number_toString n = String c r ∧ number_start c = true.
Proof.
  unfold Number_toString. destruct n as [|p|p]; cbn [Z.to_int NilZero.string_of_int].
  - by eexists _, _.
  - pose proof (DecimalPos.Unsigned.to_uint_nonnil p).
    destruct (Pos.to_uint p); try done; by eexists _, _.
  - by eexists _, _.
Qed.

Lemma Serialize_start indent v :
  ∃ c r, SerializeJSONProperty indent v = String c r ∧ value_start c = true.
Proof.
  destruct v as [|[]|n|s|[|x l]|[|[k x] m]]; try by eexists _, _.
  destruct (Number_toString_start n) as (c & r & Hn & Hc).
  exists c, r. split; [done|]. unfold value_start, number_start in *.
  destruct (Ascii.eqb c "-"); [by rewrite !orb_true_r|].
  destruct (digit_of_char c); [by rewrite !orb_true_r|done].
Qed.

Lemma value_start_not_ws c : value_start c = true → is_json_ws c = false.
Proof. destruct c as [[] [] [] [] [] [] [] []]; done. Qed.

Lemma skip_ws_value indent v rest :
  skip_ws (SerializeJSONProperty indent v +:+ rest) = SerializeJSONProperty indent v +:+ rest.
Proof.
  destruct (Serialize_start indent v) as (c & r & -> & Hc).
  rewrite string_app_cons. cbn [skip_ws]. by rewrite value_start_not_ws.
Qed.

Lemma expect_value c' indent v rest :
  value_start c' = false → expect c' (SerializeJSONProperty indent v +:+ rest) = None.
Proof.
  intros Hc'. destruct (Serialize_start indent v) as (c & r & -> & Hc).
  rewrite string_app_cons. cbn [expect].
  destruct (Ascii.eqb_spec c c') as [->|]; [congruence|done].
Qed.

Lemma parse_value_skip fuel w t : ws_only w → parse_value fuel (w +:+ t) = parse_value fuel t.
Proof. intros Hw. destruct fuel; [done|]. cbn [parse_value]. by rewrite skip_ws_app. Qed.

Lemma obj_set_new k v obj : k ∉ obj.*1 → obj_set k v obj = obj ++ [(k, v)].
Proof.
  induction obj as [|[k' v'] obj IH]; [done|]. cbn [fmap list_fmap fst obj_set app].
  intros Hk. apply not_elem_of_cons in Hk as [Hne Hk].
  rewrite decide_False by done. by rewrite IH.
Qed.

Lemma foldl_obj_set acc m :
  NoDup (acc.*1 ++ m.*1) →
  foldl (λ o kv, obj_set kv.1 kv.2 o) acc m = acc ++ m.
Proof.
  revert acc. induction m as [|[k v] m IH]; intros acc Hnd; cbn [foldl].
  - by rewrite app_nil_r.
  - cbn [fmap list_fmap fst] in Hnd.
    rewrite obj_set_new.
    + rewrite IH; [by rewrite <- app_assoc|].
      rewrite fmap_app. cbn [fmap list_fmap fst]. by rewrite <- app_assoc.
    + apply NoDup_app in Hnd as (_ & Hdisj & _). intros Hin.
      apply (Hdisj _ Hin). by left.
Qed.

(** What the text may go on with after a value inside an array or object,
    or at the end. *)
Lemma number_ends_comma t : number_ends (String "," t).
Proof. done. Qed.
Lemma number_ends_LF t : number_ends (String LF t).
Proof. done. Qed.

Lemma parse_value_leaf_number n indent : parses indent (JNumber n).
Proof.
  intros [|fuel] rest Hfuel Hend; [simpl in Hfuel; lia|].
  cbn [parse_value]. rewrite skip_ws_value. cbn [SerializeJSONProperty].
  destruct (Number_toString_start n) as (c & r & Hn & Hc).
  rewrite Hn, string_app_cons.
  assert (Ascii.eqb c "[" = false ∧ Ascii.eqb c "{" = false ∧ Ascii.eqb c QUOTE = false
          ∧ Ascii.eqb c "n" = false ∧ Ascii.eqb c "t" = false ∧ Ascii.eqb c "f" = false)
    as (-> & -> & -> & Hn1 & Ht & Hf).
  { clear -Hc. destruct c as [[] [] [] [] [] [] [] []]; done. }
  cbn [startsWith]. rewrite (Ascii.eqb_sym "n"), (Ascii.eqb_sym "t"), (Ascii.eqb_sym "f").
  rewrite Hn1, Ht, Hf. cbn [andb].
  rewrite <- string_app_cons, <- Hn. by rewrite parse_number_toString.
Qed.

Lemma parse_elements_join indent stepback l :
  ws_only indent → ws_only stepback →
  Forall (parses indent) l → l ≠ [] →
  ∀ fuel w rest,
    foldr (λ x n, S (weight x + n)) 0 l ≤ fuel → ws_only w →
    parse_elements fuel
      (w +:+ join_with (String "," (String LF indent))
               (map (SerializeJSONProperty indent) l)
         +:+ String LF stepback +:+ String "]" rest)
    = Value (l, rest).
Proof.
  intros Hind Hstep Hall. induction Hall as [|x l Hx Hl IH]; [done|]. intros _.
  intros [|fuel] w rest Hfuel Hw; [simpl in Hfuel; lia|].
  cbn [foldr] in Hfuel. cbn [parse_elements]. rewrite parse_value_skip by done.
  destruct l as [|y l].
  - cbn [map join_with]. rewrite Hx; [|lia|apply number_ends_LF].
    rewrite ?bind_Value. rewrite (skip_ws_app (String LF stepback)) by done. done.
  - change (join_with ?sep (map ?f (x :: y :: l)))
      with (f x +:+ sep +:+ join_with sep (map f (y :: l))).
    rewrite !string_app_assoc. rewrite string_app_cons.
    rewrite Hx; [|lia|apply number_ends_comma]. rewrite ?bind_Value; cbn [skip_ws].
    change (is_json_ws ",") with false. cbn iota.
    change (Ascii.eqb "," ",") with true. cbn iota.
    rewrite (IH ltac:(done) fuel (String LF indent) rest); [done|lia|done].
Qed.

Lemma parse_members_step fuel indent w k x R obj :
  ws_only w → parses indent x → weight x ≤ fuel → number_ends R →
  is_array_index k = false →
  parse_members (S fuel) (w +:+ member_text indent (k, x) +:+ R) obj
  = match skip_ws R with
    | String c r2 =>
        if Ascii.eqb c "," then parse_members fuel r2 (obj_set k x obj)
        else if Ascii.eqb c "}" then Value (obj_set k x obj, r2)
        else Throw
    | EmptyString => Throw
    end.
Proof.
  intros Hw Hx Hfuel Hend Hk. cbn [parse_members]. rewrite skip_ws_app by done.
  cbn [member_text]. unfold QuoteJSONString.
  rewrite !string_app_assoc, !string_app_cons, !string_app_assoc, !string_app_cons.
  rewrite !string_app_nil_l.
  change (skip_ws (String QUOTE ?t)) with (String QUOTE t).
  change (expect QUOTE (String QUOTE ?t)) with (Some t). cbv beta iota.
  rewrite parse_chars_quote_chars. rewrite ?bind_Value.
  change (skip_ws (String ":" ?t)) with (String ":" t).
  change (expect ":" (String ":" ?t)) with (Some t). cbv beta iota.
  change (String " " ?t) with (" " +:+ t).
  rewrite (parse_value_skip _ " ") by done.
  rewrite Hx by done. rewrite ?bind_Value. by rewrite Hk.
Qed.

Lemma parse_members_join indent stepback m :
  ws_only indent → ws_only stepback →
  Forall (λ kv, parses indent kv.2) m → m ≠ [] →
  Forall (λ k, is_array_index k = false) m.*1 →
  ∀ fuel w rest obj,
    foldr (λ kv n, S (weight kv.2 + n)) 0 m ≤ fuel → ws_only w →
    parse_members fuel
      (w +:+ join_with (String "," (String LF indent)) (map (member_text indent) m)
         +:+ String LF stepback +:+ String "}" rest) obj
    = Value (foldl (λ o kv, obj_set kv.1 kv.2 o) obj m, rest).
Proof.
  intros Hind Hstep Hall. induction Hall as [|[k x] m Hx Hm IH]; [done|]. intros _ Hidx.
  apply Forall_cons in Hidx as [Hk Hidx]. cbn [fst snd] in *.
  intros [|fuel] w rest obj Hfuel Hw; [simpl in Hfuel; lia|].
  cbn [foldr snd] in Hfuel.
  destruct m as [|y m].
  - cbn [map join_with].
    rewrite parse_members_step; [|done|done|lia|apply number_ends_LF|done].
    rewrite (skip_ws_app (String LF stepback)) by done. done.
  - change (join_with ?sep (map ?f ((k, x) :: y :: m)))
      with (f (k, x) +:+ sep +:+ join_with sep (map f (y :: m))).
    rewrite !string_app_assoc.
    rewrite parse_members_step; [|done|done|lia|apply number_ends_comma|done].
    rewrite string_app_cons.
    cbn [skip_ws]. change (is_json_ws ",") with false. cbn iota.
    change (Ascii.eqb "," ",") with true. cbn iota.
    rewrite (IH ltac:(done) Hidx fuel (String LF indent) rest); [done|lia|done].
Qed.

Lemma Serialize_array indent x l :
  SerializeJSONProperty indent (JArray (x :: l))
  = "[" +:+ String LF (indent +:+ gap)
    +:+ join_with (String "," (String LF (indent +:+ gap)))
          (map (SerializeJSONProperty (indent +:+ gap)) (x :: l))
    +:+ String LF indent +:+ "]".
Proof. reflexivity. Qed.

Lemma Serialize_object indent kv m :
  SerializeJSONProperty indent (JObject (kv :: m))
  = "{" +:+ String LF (indent +:+ gap)
    +:+ join_with (String "," (String LF (indent +:+ gap)))
          (map (member_text (indent +:+ gap)) (kv :: m))
    +:+ String LF indent +:+ "}".
Proof. reflexivity. Qed.

Lemma join_with_head {A} (f : A → string) sep x (l : list A) t :
  ∃ t', join_with sep (map f (x :: l)) +:+ t = f x +:+ t'.
Proof.
  destruct l as [|y l]; [by exists t|].
  exists (sep +:+ join_with sep (map f (y :: l)) +:+ t).
  change (join_with sep (map f (x :: y :: l)))
    with (f x +:+ sep +:+ join_with sep (map f (y :: l))).
  by rewrite !string_app_assoc.
Qed.

(** Every value without array index keys and without repeated keys is read
    back from its text, whatever follows the text. *)
Lemma parse_value_Serialize v :
  JSON_plain v → ∀ indent, ws_only indent → parses indent v.
Proof.
  induction v as [|b|n|s|l IH|m IH] using JSON_ind'; intros Hplain indent Hind.
  - intros [|fuel] rest Hfuel Hend; [simpl in Hfuel; lia|]. done.
  - intros [|fuel] rest Hfuel Hend; [simpl in Hfuel; lia|]. by destruct b.
  - apply parse_value_leaf_number.
  - intros [|fuel] rest Hfuel Hend; [simpl in Hfuel; lia|].
    cbn [SerializeJSONProperty]. unfold QuoteJSONString.
    rewrite string_app_cons, string_app_assoc, string_app_cons, string_app_nil_l.
    cbn [parse_value]. change (skip_ws (String QUOTE ?t)) with (String QUOTE t).
    cbv beta iota.
    change (Ascii.eqb QUOTE "[") with false. change (Ascii.eqb QUOTE "{") with false.
    change (Ascii.eqb QUOTE QUOTE) with true. cbv beta iota.
    by rewrite parse_chars_quote_chars.
  - intros [|fuel] rest Hfuel Hend; [simpl in Hfuel; lia|].
    destruct l as [|x l]; [done|].
    assert (Forall (parses (indent +:+ gap)) (x :: l)) as Hall.
    { cbn [JSON_plain] in Hplain. clear Hfuel.
      induction IH as [|y l' Hy _ IHl]; [done|]. cbn [foldr] in Hplain.
      destruct Hplain as [Hpy Hpl]. constructor; [|by apply IHl].
      apply Hy; [done|by apply ws_only_gap]. }
    cbn [weight] in Hfuel.
    rewrite Serialize_array, !string_app_assoc, !string_app_cons, !string_app_nil_l.
    cbn [parse_value]. change (skip_ws (String "[" ?t)) with (String "[" t).
    cbv beta iota. change (Ascii.eqb "[" "[") with true. cbv beta iota.
    assert (∀ t, expect "]" (skip_ws (String LF (indent +:+ gap)
               +:+ join_with (String "," (String LF (indent +:+ gap)))
                     (map (SerializeJSONProperty (indent +:+ gap)) (x :: l)) +:+ t))
                 = None) as Hnot.
    { intros t. rewrite skip_ws_app by by apply ws_only_LF, ws_only_gap.
      destruct (join_with_head (SerializeJSONProperty (indent +:+ gap))
                  (String "," (String LF (indent +:+ gap))) x l t) as [t' ->].
      rewrite skip_ws_value. by apply expect_value. }
    specialize (Hnot (String LF indent +:+ String "]" rest)).
    pose proof (parse_elements_join (indent +:+ gap) indent (x :: l)
                  (ws_only_gap _ Hind) Hind Hall ltac:(done) fuel
                  (String LF (indent +:+ gap)) rest ltac:(lia)
                  (ws_only_LF _ (ws_only_gap _ Hind))) as Hel.
    rewrite ?string_app_assoc, ?string_app_cons in Hnot, Hel.
    by rewrite Hnot, Hel.
  - intros [|fuel] rest Hfuel Hend; [simpl in Hfuel; lia|].
    destruct m as [|kv m]; [done|].
    cbn [JSON_plain] in Hplain. destruct Hplain as (Hnd & Hidx & Hplain).
    assert (Forall (λ kv, parses (indent +:+ gap) kv.2) (kv :: m)) as Hall.
    { clear Hfuel Hnd Hidx.
      induction IH as [|y l' Hy _ IHl]; [done|]. cbn [foldr] in Hplain.
      destruct Hplain as [Hpy Hpl]. constructor; [|by apply IHl].
      apply Hy; [done|by apply ws_only_gap]. }
    cbn [weight] in Hfuel.
    rewrite Serialize_object, !string_app_assoc, !string_app_cons, !string_app_nil_l.
    cbn [parse_value]. change (skip_ws (String "{" ?t)) with (String "{" t).
    cbv beta iota. change (Ascii.eqb "{" "[") with false.
    change (Ascii.eqb "{" "{") with true. cbv beta iota.
    assert (∀ t, expect "}" (skip_ws (String LF (indent +:+ gap)
               +:+ join_with (String "," (String LF (indent +:+ gap)))
                     (map (member_text (indent +:+ gap)) (kv :: m)) +:+ t))
                 = None) as Hnot.
    { intros t. rewrite skip_ws_app by by apply ws_only_LF, ws_only_gap.
      destruct (join_with_head (member_text (indent +:+ gap))
                  (String "," (String LF (indent +:+ gap))) kv m t) as [t' ->].
      by destruct kv. }
    specialize (Hnot (String LF indent +:+ String "}" rest)).
    pose proof (parse_members_join (indent +:+ gap) indent (kv :: m)
                  (ws_only_gap _ Hind) Hind Hall ltac:(done) Hidx fuel
                  (String LF (indent +:+ gap)) rest [] ltac:(lia)
                  (ws_only_LF _ (ws_only_gap _ Hind))) as Hel.
    rewrite ?string_app_assoc, ?string_app_cons in Hnot, Hel.
    rewrite Hnot, Hel. rewrite ?bind_Value. by rewrite (foldl_obj_set [] (kv :: m)).
Qed.

(** The fuel [JSON.parse] starts with is enough for every text
    [JSON.stringify] writes. *)
Lemma join_with_weight {A} (f : A → string) (wt : A → nat) sep (l : list A) :
  1 ≤ String.length sep → Forall (λ x, wt x ≤ String.length (f x)) l → l ≠ [] →
  foldr (λ x n, S (wt x + n)) 0 l ≤ S (String.length (join_with sep (map f l))).
Proof.
  intros Hsep Hall. induction Hall as [|x l Hx Hl IH]; [done|]. intros _.
  destruct l as [|y l].
  - cbn [foldr map join_with]. lia.
  - change (join_with sep (map f (x :: y :: l)))
      with (f x +:+ sep +:+ join_with sep (map f (y :: l))).
    rewrite !string_app_length. cbn [foldr] in *. specialize (IH ltac:(done)). lia.
Qed.

Lemma weight_le_length v : ∀ indent, weight v ≤ String.length (SerializeJSONProperty indent v).
Proof.
  induction v as [|b|n|s|l IH|m IH] using JSON_ind'; intros indent.
  - simpl. lia.
  - destruct b; simpl; lia.
  - destruct (Serialize_start indent (JNumber n)) as (c & r & -> & _). simpl. lia.
  - simpl. lia.
  - destruct l as [|x l]; [simpl; lia|].
    rewrite Serialize_array, !string_app_length. cbn [weight].
    pose proof (join_with_weight (SerializeJSONProperty (indent +:+ gap)) weight
                  (String "," (String LF (indent +:+ gap))) (x :: l)) as Hj.
    cbn [String.length] in *.
    specialize (Hj ltac:(lia)).
    assert (Forall (λ x, weight x ≤ String.length (SerializeJSONProperty (indent +:+ gap) x))
              (x :: l)) as Hall.
    { eapply Forall_impl; [exact IH|]. intros y Hy. apply Hy. }
    specialize (Hj Hall ltac:(done)). lia.
  - destruct m as [|kv m]; [simpl; lia|].
    rewrite Serialize_object, !string_app_length. cbn [weight].
    pose proof (join_with_weight (member_text (indent +:+ gap)) (λ kv, weight kv.2)
                  (String "," (String LF (indent +:+ gap))) (kv :: m)) as Hj.
    cbn [String.length] in *.
    specialize (Hj ltac:(lia)).
    assert (Forall (λ kv, weight kv.2 ≤ String.length (member_text (indent +:+ gap) kv))
              (kv :: m)) as Hall.
    { eapply Forall_impl; [exact IH|]. intros [k y] Hy. cbn [snd member_text].
      rewrite !string_app_length. specialize (Hy (indent +:+ gap)). cbn [snd] in Hy. lia. }
    specialize (Hj Hall ltac:(done)). lia.
Qed.

(** [JSON.parse(JSON.stringify(value, null, 2))] is [value]. *)
Lemma JSON_parse_stringify v : JSON_plain v → JSON_parse (JSON_stringify v) = Value v.
Proof.
  intros Hplain. unfold JSON_parse, JSON_stringify.
  rewrite <- (string_app_nil_r (SerializeJSONProperty "" v)) at 2.
  rewrite (parse_value_Serialize v Hplain "" eq_refl); [done| |done].
  pose proof (weight_le_length v ""). lia.
Qed.

(** The store as a JS value, and back *)

Lemma JSON_plain_array {A} (f : A → JSON) (l : list A) :
  (∀ x, JSON_plain (f x)) → JSON_plain (JArray (f <$> l)).
Proof.
  intros Hf. cbn [JSON_plain]. induction l as [|x l IH]; [done|].
  cbn [fmap list_fmap foldr]. by split.
Qed.

Lemma as_array_fmap {A} (f : JSON → option A) (g : A → JSON) (l : list A) :
  (∀ x, f (g x) = Some x) → as_array f (JArray (g <$> l)) = Some l.
Proof. intros Hfg. cbn [as_array]. by apply mapM_fmap_Some. Qed.

Lemma JS_nullable_plain o : JSON_plain (JS_nullable o).
Proof. by destruct o. Qed.

Lemma JS_strings_plain l : JSON_plain (JS_strings l).
Proof. by apply JSON_plain_array. Qed.

Ltac plain_object :=
  split_and!; [compute_done|by repeat constructor|];
  cbn [foldr snd]; split_and!;
  first [exact I | apply JS_nullable_plain | apply JS_strings_plain].

Lemma User_toJS_plain u : JSON_plain (User_toJS u).
Proof. plain_object. Qed.
Lemma Product_toJS_plain p : JSON_plain (Product_toJS p).
Proof. plain_object. Qed.
Lemma ShopList_toJS_plain l : JSON_plain (ShopList_toJS l).
Proof. plain_object. Qed.
Lemma ShopListItem_toJS_plain i : JSON_plain (ShopListItem_toJS i).
Proof. plain_object. Qed.
Lemma Reaction_toJS_plain r : JSON_plain (Reaction_toJS r).
Proof. plain_object. Qed.
Lemma Suggestion_toJS_plain g : JSON_plain (Suggestion_toJS g).
Proof. plain_object. Qed.

Lemma Store_toJS_plain s : JSON_plain (Store_toJS s).
Proof.
  split_and!; [compute_done|by repeat constructor|].
  cbn [foldr snd]. split_and!; try done; apply JSON_plain_array;
    auto using User_toJS_plain, Product_toJS_plain, ShopList_toJS_plain,
      ShopListItem_toJS_plain, Reaction_toJS_plain, Suggestion_toJS_plain.
Qed.

Lemma as_nullable_JS o : as_nullable (JS_nullable o) = Some o.
Proof. by destruct o. Qed.

Lemma as_strings_JS l : as_array as_string (JS_strings l) = Some l.
Proof. by apply as_array_fmap. Qed.

Lemma JS_get_here k v m : JS_get k (JObject ((k, v) :: m)) = Some v.
Proof. unfold JS_get, js_find. cbn [list_find fst]. by rewrite decide_True. Qed.

Lemma JS_get_next k k' v m :
  k' ≠ k → JS_get k (JObject ((k', v) :: m)) = JS_get k (JObject m).
Proof.
  intros Hne. unfold JS_get, js_find. cbn [list_find fst]. rewrite decide_False by done.
  by destruct (list_find _ m) as [[i kv]|].
Qed.

Ltac JS_get_all :=
  repeat first [rewrite JS_get_here | rewrite JS_get_next by done];
  cbn [mbind option_bind as_string as_number as_boolean];
  rewrite ?as_nullable_JS, ?as_strings_JS;
  cbn [mbind option_bind].

Lemma User_ofJS_toJS u : User_ofJS (User_toJS u) = Some u.
Proof. destruct u. unfold User_ofJS, User_toJS. by JS_get_all. Qed.

Lemma Product_ofJS_toJS p : Product_ofJS (Product_toJS p) = Some p.
Proof. destruct p. unfold Product_ofJS, Product_toJS. by JS_get_all. Qed.

Lemma ShopList_ofJS_toJS l : ShopList_ofJS (ShopList_toJS l) = Some l.
Proof.
  destruct l as [? ? vis ? ? ? ?]. unfold ShopList_ofJS, ShopList_toJS. JS_get_all.
  by destruct vis.
Qed.

Lemma ShopListItem_ofJS_toJS i : ShopListItem_ofJS (ShopListItem_toJS i) = Some i.
Proof. destruct i. unfold ShopListItem_ofJS, ShopListItem_toJS. by JS_get_all. Qed.

Lemma Reaction_ofJS_toJS r : Reaction_ofJS (Reaction_toJS r) = Some r.
Proof.
  destruct r as [? ? k]. unfold Reaction_ofJS, Reaction_toJS. JS_get_all.
  by destruct k.
Qed.

Lemma Suggestion_ofJS_toJS g : Suggestion_ofJS (Suggestion_toJS g) = Some g.
Proof. destruct g. unfold Suggestion_ofJS, Suggestion_toJS. by JS_get_all. Qed.

(** The typed view of the JS value of a store is the store. *)
Lemma Store_ofJS_toJS s : Store_ofJS (Store_toJS s) = Some s.
Proof.
  destruct s. unfold Store_ofJS, Store_toJS.
  repeat first [rewrite JS_get_here | rewrite JS_get_next by done].
  cbn [mbind option_bind].
  rewrite !as_array_fmap by
    auto using User_ofJS_toJS, Product_ofJS_toJS, ShopList_ofJS_toJS,
      ShopListItem_ofJS_toJS, Reaction_ofJS_toJS, Suggestion_ofJS_toJS.
  done.
Qed.

(** Whatever JS value is saved, as long as it is one the host builds from
    scratch, is the value loaded, and loading writes nothing. *)
Lemma loadStore_after_saveStore_JS (v : JSON) (fs : Files) :
  JSON_plain v → loadStore (saveStore v fs) = Some (v, saveStore v fs).
Proof.
  intros Hplain. unfold loadStore, saveStore. cbn [store_json readJSON].
  by rewrite JSON_parse_stringify.
Qed.


(** ** The body of [POST /lists] *)

Lemma parseVisibility_name v : parseVisibility (Some (visibilityName v)) = Some (Some v).
Proof. by destruct v. Qed.

Lemma parseVisibility_Some raw v :
  parseVisibility (Some raw) = Some (Some v) → raw = visibilityName v.
Proof.
  unfold parseVisibility. repeat case_match; intros; by simplify_eq.
Qed.

Lemma as_strings_Some v l : as_array as_string v = Some l → v = JS_strings l.
Proof.
  destruct v as [| | | |els|]; try done. cbn [as_array]. intros Hl.
  unfold JS_strings. f_equal. apply mapM_Some in Hl.
  induction Hl as [|x y els l Hx _ IH]; [done|]. cbn [fmap list_fmap].
  rewrite <- IH. f_equal. by destruct x; simplify_eq/=.
Qed.

Lemma postLists_acceptable owner body n vis phones uuid t1 t2 fresh s :
  acceptable body n vis phones →
  postLists owner body uuid t1 t2 fresh s
  = createList owner (Some n) (visibilityName <$> vis) phones uuid t1 t2 fresh s
  ∧ parseCreateListBody (Some n) (visibilityName <$> vis) phones
    = Some (mkCreateListBody n vis phones).
Proof.
  intros (m & -> & Hname & Hn & Hvis & Hphones). split.
  - unfold postLists. cbn [JS_falsy]. unfold CreateListBody_fields.
    rewrite Hname, Hvis, Hphones.
    destruct vis as [v|], phones as [phs|];
      cbn [fmap option_fmap option_map mbind option_bind as_string];
      rewrite ?as_strings_JS; done.
  - unfold parseCreateListBody.
    assert (parseVisibility (visibilityName <$> vis) = Some vis) as ->.
    { destruct vis as [v|]; [apply parseVisibility_name|done]. }
    rewrite decide_True; [done|]. destruct n; [done|simpl; lia].
Qed.

Lemma createList_rejected owner rawName rawVisibility rawPhones uuid t1 t2 fresh s :
  parseCreateListBody rawName rawVisibility rawPhones = None →
  createList owner rawName rawVisibility rawPhones uuid t1 t2 fresh s
  = reply s [] S400 BZodError.
Proof. intros Hb. unfold createList. by rewrite Hb. Qed.

Lemma postLists_not_acceptable owner body uuid t1 t2 fresh s :
  (∀ n vis phones, ¬ acceptable body n vis phones) →
  postLists owner body uuid t1 t2 fresh s = reply s [] S400 BZodError.
Proof.
  intros Hno. unfold postLists.
  assert (∀ rawVisibility rawPhones,
            createList owner None rawVisibility rawPhones uuid t1 t2 fresh s
            = reply s [] S400 BZodError) as Hnoname
    by (intros; by apply createList_rejected).
  destruct body as [[| [] | [] | [] |els|m]|]; try done; try (cbn; apply Hnoname).
  cbn [JS_falsy]. unfold CreateListBody_fields.
  assert (∀ rawv n vis phones,
            JS_get "name" (JObject m) ≫= as_string = Some n →
            (rawv = None → JS_get "visibility" (JObject m) = None) →
            (∀ raw, rawv = Some raw → JS_get "visibility" (JObject m) = Some (JString raw)) →
            parseVisibility rawv = Some vis →
            JS_get "participantPhoneNumbers" (JObject m) = JS_strings <$> phones →
            n = "") as Hname.
  { intros rawv n vis phones Hn Hnone Hsome Hv Hph.
    destruct (decide (n = "")) as [|Hne]; [done|].
    destruct (Hno n vis phones). exists m. split_and!; try done.
    - destruct (JS_get "name" (JObject m)) as [[| | |n'| |]|]; by simplify_eq/=.
    - destruct rawv as [raw|].
      + rewrite (Hsome raw) by done. destruct vis as [v|].
        * by apply parseVisibility_Some in Hv as ->.
        * unfold parseVisibility in Hv. repeat case_match; by simplify_eq.
      + rewrite Hnone by done. by injection Hv as <-. }
  assert (∀ rawv phones,
            (rawv = None → JS_get "visibility" (JObject m) = None) →
            (∀ raw, rawv = Some raw → JS_get "visibility" (JObject m) = Some (JString raw)) →
            JS_get "participantPhoneNumbers" (JObject m) = JS_strings <$> phones →
            createList owner (JS_get "name" (JObject m) ≫= as_string) rawv phones
              uuid t1 t2 fresh s
            = reply s [] S400 BZodError) as Hrej.
  { intros rawv phones Hnone Hsome Hph. apply createList_rejected.
    unfold parseCreateListBody.
    destruct (JS_get "name" (JObject m) ≫= as_string) as [n|] eqn:Hn; [|done].
    destruct (parseVisibility rawv) as [vis|] eqn:Hv; [|done].
    rewrite (Hname rawv n vis phones); done. }
  destruct (JS_get "visibility" (JObject m)) as [[| | |rawv| |]|] eqn:Hvis; try done;
    cbn [mbind option_bind];
    (destruct (JS_get "participantPhoneNumbers" (JObject m)) as [v|] eqn:Hph;
     [destruct (as_array as_string v) as [phs|] eqn:Hphs; [|done];
      apply as_strings_Some in Hphs as ->|]);
    cbn [fmap option_fmap option_map mbind option_bind].
  - apply (Hrej (Some rawv) (Some phs)); [done| |done]. by intros ? [= <-].
  - apply (Hrej (Some rawv) None); [done| |done]. by intros ? [= <-].
  - by apply (Hrej None (Some phs)).
  - by apply (Hrej None None).
Qed.

(** Read off the body, a request is one [createList] handles or it is
    rejected: the requests [OpCreateList] ranges over leave out no store
    that a body can lead to. *)
Lemma postLists_createList owner body uuid t1 t2 fresh s :
  (∃ rawName rawVisibility rawPhones,
     postLists owner body uuid t1 t2 fresh s
     = run (OpCreateList owner rawName rawVisibility rawPhones uuid t1 t2 fresh) s)
  ∨ postLists owner body uuid t1 t2 fresh s = reply s [] S400 BZodError.
Proof.
  unfold postLists. destruct (CreateListBody_fields _) as [[[rawName rawVis] rawPhones]|];
    [left|by right].
  by exists rawName, rawVis, rawPhones.
Qed.

(** A [POST /lists] body is accepted exactly when it is what
    [CreateListBody] asks for: an object with a [name] that is a string of
    at least one character, a [visibility] that is absent or one of the
    three names, and [participantPhoneNumbers] absent or an array of
    strings.  An accepted request is answered 201, and the list put first
    in the store has the drawn id, the owner, the visibility given or LINK,
    and the trimmed name, which is empty exactly when the name is white
    space only.  Every other body is answered 400, the store staying as it
    is and nothing being emitted. *)
Theorem postLists_accepted_or_400 (owner : string) (body : option JSON)
    (uuid t1 t2 : string) (fresh : nat → string * string * string) (s : Store) :
  let o := postLists owner body uuid t1 t2 fresh s in
  (∀ n vis phones, acceptable body n vis phones →
     status (out_response o) = S201
     ∧ ∃ l, shopLists (out_store o) = l :: shopLists s
            ∧ list_id l = uuid ∧ ownerId l = owner ∧ visibility l = default LINK vis
            ∧ list_name l = trim n
            ∧ (list_name l = "" ↔ all_space n = true))
  ∧ ((∀ n vis phones, ¬ acceptable body n vis phones) →
     o = reply s [] S400 BZodError).
Proof.
  cbn zeta. split; [|apply postLists_not_acceptable].
  intros n vis phones Hacc.
  destruct (postLists_acceptable owner body n vis phones uuid t1 t2 fresh s Hacc)
    as [-> Hparse].
  destruct (createList_accepted owner _ _ _ uuid t1 t2 fresh s _ Hparse)
    as (us1 & parts1 & added & _ & Hst & Hs).
  rewrite Hst, Hs. split; [done|].
  eexists. split; [done|]. cbn. split_and!; try done. apply trim_empty.
Qed.

(** ** Scenarios of persistence and of the request body *)

(** The first run, with neither file there: the default store is written
    and returned, and it is the empty store. *)
Example scenario_first_run :
  loadStore (mkFiles None None)
  = Some (defaultData_JS, mkFiles (Some (JSON_stringify defaultData_JS)) None)
  ∧ Store_ofJS defaultData_JS = Some defaultData
  ∧ loadStore (mkFiles (Some (JSON_stringify defaultData_JS)) None)
    = Some (defaultData_JS, mkFiles (Some (JSON_stringify defaultData_JS)) None).
Proof. by vm_compute. Qed.

(** A [store.json] that is not JSON is replaced by the seed. *)
Example scenario_seed :
  loadStore (mkFiles (Some "{") (Some " [ 7 ] "))
  = Some (JArray [JNumber 7],
          mkFiles (Some ("[" +:+ String LF "  7" +:+ String LF "]")) (Some " [ 7 ] ")).
Proof. by vm_compute. Qed.

Example scenario_parse :
  JSON_parse " [ 1 , -20, [ ] , null, { } ] "
  = Value (JArray [JNumber 1; JNumber (-20); JArray []; JNull; JObject []])
  ∧ JSON_parse "[1,]" = Throw
  ∧ JSON_parse "[01]" = Throw
  ∧ JSON_parse "nul" = Throw
  ∧ JSON_parse "[1] 2" = Throw
  ∧ JSON_parse "[1.5]" = Unmodelled
  ∧ JSON_parse ("[" +:+ QuoteJSONString "a\u00e9\n" +:+ "]") = Value (JArray [JString "a\u00e9\n"])
  ∧ JSON_parse ("[" +:+ String QUOTE "a\u00e9\n" +:+ String QUOTE "]")
    = Value (JArray [JString ("a" +:+ String "195" (String "169" (String LF "")))]).
Proof. by vm_compute. Qed.

(** Bodies of [POST /lists]: a name between no-break spaces is stored
    trimmed, a name of one no-break space is stored empty, and phone
    numbers that are no array are rejected. *)
Example scenario_post_lists :
  let nbsp := String "194" (String "160" "") in
  let post body := postLists "A" (Some (JObject body)) "L3" "t8" "t8" no_fresh demo in
  (list_name <$> shopLists (out_store
     (post [("name", JString (nbsp +:+ " Gifts" +:+ nbsp));
            ("participantPhoneNumbers", JArray [])]))) = ["Gifts"; "Gifts"]
  ∧ status (out_response (post [("name", JString nbsp)])) = S201
  ∧ (list_name <$> shopLists (out_store (post [("name", JString nbsp)]))) = [""; "Gifts"]
  ∧ post [("name", JString "Gifts"); ("participantPhoneNumbers", JString "9000000002")]
    = reply demo [] S400 BZodError
  ∧ post [("name", JString "Gifts"); ("visibility", JNull)]
    = reply demo [] S400 BZodError.
Proof. by vm_compute. Qed.
